(** * rtfs-mcp: documentation and source-browsing server

    A shallow embedding of the repository-content layer of the server
    (gateway, recursive enumerator, repository analyzer, registry add
    and remove operations, address normalisation, markdown section
    indexer, code-block extraction, keyword search) and the properties
    stated about it.

    Conventions of the embedding.

    - A JavaScript string is represented by the [string] of its UTF-8
      bytes.  The character-level operations of the runtime
      ([toLowerCase], [trim], the regular-expression classes [\s] and
      [.]) are modelled on the ASCII range; bytes above 127 are caseless,
      non-space characters.  On strings of ASCII characters
      ([Spec.ascii_text]) these operations are those of the runtime; a
      property whose truth depends on them for other strings is stated
      for strings of ASCII characters only.
    - A [Buffer] is a list of bytes, each a [Z] in [0, 256).
    - A plain JavaScript object used as a dictionary is a [gmap] of its
      own properties; property reads go through [js_get], which also
      consults the properties inherited from [Object.prototype].
    - Remote and local I/O is a read-only environment ([Env]); the
      operations that write, [add_repository] and [remove_repository],
      thread the registry document explicitly.
    - A [throw] is the [Thrown] alternative of [Outcome]. *)

From Stdlib Require Import ZArith Lia String Ascii List DecimalString.
From stdpp Require Import base gmap strings list.

Open Scope string_scope.
Open Scope Z_scope.

(** ** JavaScript runtime helpers *)

Module JS.

(** Result of an operation that may throw an [Error] with a message. *)
Inductive Outcome (A : Type) : Type :=
| Returned (a : A)
| Thrown (message : string).
Arguments Returned {A} a.
Arguments Thrown {A} message.

Definition code (c : ascii) : Z := Z.of_N (N_of_ascii c).
Definition char_of (z : Z) : ascii := ascii_of_N (Z.to_N z).

Definition chars (s : string) : list ascii := list_ascii_of_string s.
Definition of_chars (l : list ascii) : string := string_of_list_ascii l.

(** The class [\s] on the ASCII range: TAB, LF, VT, FF, CR, SPACE.  The
    class of the runtime has, beyond ASCII, U+00A0, U+FEFF, the line
    separators U+2028 and U+2029 and the space separators of Unicode;
    none of them is a character of an ASCII string. *)
Definition is_space (c : ascii) : bool :=
  let n := code c in ((9 <=? n) && (n <=? 13)) || (n =? 32).

(** Line terminators, which [.] does not match: LF and CR, and beyond
    ASCII U+2028 and U+2029, which no ASCII string has. *)
Definition is_line_terminator (c : ascii) : bool :=
  let n := code c in (n =? 10) || (n =? 13).

Definition is_lower (c : ascii) : bool :=
  let n := code c in (97 <=? n) && (n <=? 122).
Definition is_upper (c : ascii) : bool :=
  let n := code c in (65 <=? n) && (n <=? 90).
Definition is_digit (c : ascii) : bool :=
  let n := code c in (48 <=? n) && (n <=? 57).

Definition lower_char (c : ascii) : ascii :=
  if is_upper c then char_of (code c + 32) else c.

(** [s.toLowerCase()] on a string of ASCII characters: the letters A-Z
    are mapped to a-z.  The runtime also maps the upper-case letters
    beyond ASCII, which this function leaves as they are. *)
Fixpoint toLowerCase (s : string) : string :=
  match s with
  | EmptyString => EmptyString
  | String c r => String (lower_char c) (toLowerCase r)
  end.

Fixpoint takeWhile {A} (p : A → bool) (l : list A) : list A :=
  match l with
  | [] => []
  | x :: r => if p x then x :: takeWhile p r else []
  end.

Fixpoint dropWhile {A} (p : A → bool) (l : list A) : list A :=
  match l with
  | [] => []
  | x :: r => if p x then dropWhile p r else l
  end.

(** [s.trim()] on a string of ASCII characters; the runtime also strips
    the white space beyond ASCII. *)
Definition trim (s : string) : string :=
  of_chars (rev (dropWhile is_space (rev (dropWhile is_space (chars s))))).

(** [s.startsWith(p)] *)
Fixpoint startsWith (s p : string) : bool :=
  match p, s with
  | EmptyString, _ => true
  | String _ _, EmptyString => false
  | String a p', String b s' => if Ascii.eqb a b then startsWith s' p' else false
  end.

(** [s.includes(sub)] *)
Fixpoint includes (s sub : string) : bool :=
  startsWith s sub ||
  match s with
  | EmptyString => false
  | String _ r => includes r sub
  end.

(** [s.endsWith(suf)] *)
Definition endsWith (s suf : string) : bool :=
  startsWith (of_chars (rev (chars s))) (of_chars (rev (chars suf))).

(** [s.split(sep)] for a one-character separator. *)
Fixpoint split (sep : ascii) (s : string) : list string :=
  match s with
  | EmptyString => [EmptyString]
  | String c r =>
      if Ascii.eqb c sep then EmptyString :: split sep r
      else match split sep r with
           | l :: t => String c l :: t
           | [] => [String c EmptyString]
           end
  end.

(** [parts.join(sep)] *)
Fixpoint join (sep : string) (parts : list string) : string :=
  match parts with
  | [] => ""
  | [p] => p
  | p :: rest => p +:+ sep +:+ join sep rest
  end.

Definition LF : ascii := char_of 10.
Definition nl : string := String LF EmptyString.
Definition QUOTE : string := String (char_of 34) EmptyString.

(** [arr.slice(start, end)] *)
Definition slice {A} (arr : list A) (start stop : Z) : list A :=
  let len := Z.of_nat (length arr) in
  let from := if start <? 0 then Z.max (len + start) 0 else Z.min start len in
  let to := if stop <? 0 then Z.max (len + stop) 0 else Z.min stop len in
  take (Z.to_nat (Z.max (to - from) 0)) (drop (Z.to_nat from) arr).

(** Decimal rendering of an integer, as a template literal does. *)
Definition show_int (z : Z) : string :=
  NilZero.string_of_int (Z.to_int z).

(** Truthiness of a string: every string but the empty one. *)
Definition truthy (s : string) : bool :=
  match s with EmptyString => false | _ => true end.

(** [a || b] on strings. *)
Definition or_else (a b : string) : string := if truthy a then a else b.

(** *** Objects used as dictionaries *)

(** Property names every object inherits from [Object.prototype]. *)
Definition object_prototype_names : list string :=
  [ "constructor"; "__defineGetter__"; "__defineSetter__"; "hasOwnProperty";
    "__lookupGetter__"; "__lookupSetter__"; "isPrototypeOf";
    "propertyIsEnumerable"; "toString"; "valueOf"; "__proto__";
    "toLocaleString" ].

(** Result of the property read [o[k]]. *)
Inductive Lookup (A : Type) : Type :=
| Own (v : A)
| Inherited (name : string)
| Undefined.
Arguments Own {A} v.
Arguments Inherited {A} name.
Arguments Undefined {A}.

(** [o[k]]: own property first, then [Object.prototype]. *)
Definition js_get {A} (o : gmap string A) (k : string) : Lookup A :=
  match o !! k with
  | Some v => Own v
  | None =>
      if bool_decide (k ∈ object_prototype_names) then Inherited k
      else Undefined
  end.

(** [o[k] = v] for a primitive [v]: the inherited [__proto__] setter
    ignores primitives, every other key becomes an own property. *)
Definition js_set {A} (o : gmap string A) (k : string) (v : A) : gmap string A :=
  if bool_decide (k = "__proto__") then o else <[k := v]> o.

End JS.

(** ** Node's [Buffer]: base64 and UTF-8 *)

Module Buffer.
Import JS.

(** *** Base64 *)

(** Value of a base64 digit; both the standard and the URL-safe
    alphabets are accepted. *)
Definition unbase64 (c : ascii) : option Z :=
  let n := code c in
  if is_upper c then Some (n - 65)
  else if is_lower c then Some (n - 97 + 26)
  else if is_digit c then Some (n - 48 + 52)
  else if (n =? 43) || (n =? 45) then Some 62
  else if (n =? 47) || (n =? 95) then Some 63
  else None.

Definition is_pad (c : ascii) : bool := code c =? 61.

(** Four digits give three bytes; a trailing group of three gives two,
    of two gives one, and a lone digit gives none. *)
Fixpoint bytes_of_sextets (l : list Z) : list Z :=
  match l with
  | a :: b :: c :: d :: r =>
      (a * 4 + b / 16) :: ((b mod 16) * 16 + c / 4) :: ((c mod 4) * 64 + d)
      :: bytes_of_sextets r
  | [a; b; c] => [a * 4 + b / 16; (b mod 16) * 16 + c / 4]
  | [a; b] => [a * 4 + b / 16]
  | _ => []
  end.

(** [Buffer.from(s, "base64")]: decoding stops at the first [=];
    characters outside the alphabets are skipped; no input is refused. *)
Definition from_base64 (s : string) : list Z :=
  bytes_of_sextets
    (omap unbase64 (takeWhile (λ c, negb (is_pad c)) (chars s))).

Definition base64_char (n : Z) : ascii :=
  if n <? 26 then char_of (n + 65)
  else if n <? 52 then char_of (n - 26 + 97)
  else if n <? 62 then char_of (n - 52 + 48)
  else if n =? 62 then char_of 43
  else char_of 47.

Definition pad : ascii := char_of 61.

(** [buf.toString("base64")]: the standard alphabet, with padding. *)
Fixpoint to_base64 (buf : list Z) : list ascii :=
  match buf with
  | a :: b :: c :: r =>
      base64_char (a / 4) :: base64_char ((a mod 4) * 16 + b / 16)
      :: base64_char ((b mod 16) * 4 + c / 64) :: base64_char (c mod 64)
      :: to_base64 r
  | [a; b] =>
      [base64_char (a / 4); base64_char ((a mod 4) * 16 + b / 16);
       base64_char ((b mod 16) * 4); pad]
  | [a] => [base64_char (a / 4); base64_char ((a mod 4) * 16); pad; pad]
  | [] => []
  end.

(** *** UTF-8 *)

Definition REPLACEMENT : Z := 65533.

(** A Unicode scalar value: a code point that is not a surrogate. *)
Definition is_scalar (cp : Z) : bool :=
  ((0 <=? cp) && (cp <? 55296)) || ((57344 <=? cp) && (cp <? 1114112)).

Definition utf8_encode (cp : Z) : list Z :=
  if cp <? 128 then [cp]
  else if cp <? 2048 then [192 + cp / 64; 128 + cp mod 64]
  else if cp <? 65536 then
    [224 + cp / 4096; 128 + (cp / 64) mod 64; 128 + cp mod 64]
  else
    [240 + cp / 262144; 128 + (cp / 4096) mod 64; 128 + (cp / 64) mod 64;
     128 + cp mod 64].

(** State of the decoder: the code point being assembled, the number
    of continuation bytes still needed, and the range allowed for the
    next byte. *)
Record Decoder := {
  code_point : Z;
  needed : Z;
  lower : Z;
  upper : Z }.

Definition idle : Decoder :=
  {| code_point := 0; needed := 0; lower := 128; upper := 191 |}.

(** A byte read when no sequence is in progress. *)
Definition lead (b : Z) : Decoder * list Z :=
  if b <=? 127 then (idle, [b])
  else if (194 <=? b) && (b <=? 223) then
    ({| code_point := b - 192; needed := 1; lower := 128; upper := 191 |}, [])
  else if (224 <=? b) && (b <=? 239) then
    ({| code_point := b - 224; needed := 2;
        lower := if b =? 224 then 160 else 128;
        upper := if b =? 237 then 159 else 191 |}, [])
  else if (240 <=? b) && (b <=? 244) then
    ({| code_point := b - 240; needed := 3;
        lower := if b =? 240 then 144 else 128;
        upper := if b =? 244 then 143 else 191 |}, [])
  else (idle, [REPLACEMENT]).

(** One byte of input: the next state and the code points emitted.  A
    byte that cannot continue the sequence in progress ends it with a
    replacement character and is read again as a first byte. *)
Definition feed (st : Decoder) (b : Z) : Decoder * list Z :=
  if needed st =? 0 then lead b
  else if (lower st <=? b) && (b <=? upper st) then
    let cp := code_point st * 64 + (b - 128) in
    if needed st =? 1 then (idle, [cp])
    else ({| code_point := cp; needed := needed st - 1;
             lower := 128; upper := 191 |}, [])
  else
    let '(st', out) := lead b in (st', REPLACEMENT :: out).

Fixpoint utf8_decode_from (st : Decoder) (buf : list Z) : list Z :=
  match buf with
  | [] => if needed st =? 0 then [] else [REPLACEMENT]
  | b :: r => let '(st', out) := feed st b in out ++ utf8_decode_from st' r
  end.

(** Code points of a byte sequence, ill-formed parts replaced. *)
Definition utf8_decode (buf : list Z) : list Z := utf8_decode_from idle buf.

(** The string with the given code points. *)
Definition of_code_points (cps : list Z) : string :=
  of_chars (map char_of (flat_map utf8_encode cps)).

(** [buf.toString("utf-8")] *)
Definition toString_utf8 (buf : list Z) : string :=
  of_code_points (utf8_decode buf).

(** [Buffer.from(s, "utf-8")] *)
Definition from_utf8 (s : string) : list Z := map code (chars s).

(** [Buffer.from(s, "utf-8").toString("base64")] *)
Definition base64Encode (s : string) : string :=
  of_chars (to_base64 (from_utf8 s)).

(** Strict RFC 4648 shape: groups of four digits of the standard
    alphabet, the last one possibly padded. *)
Definition is_std_digit (c : ascii) : bool :=
  is_upper c || is_lower c || is_digit c || (code c =? 43) || (code c =? 47).

Fixpoint valid_groups (cs : list ascii) : bool :=
  match cs with
  | [] => true
  | [a; b; c; d] =>
      is_std_digit a && is_std_digit b
      && ((is_std_digit c && (is_std_digit d || is_pad d))
          || (is_pad c && is_pad d))
  | a :: b :: c :: d :: r =>
      is_std_digit a && is_std_digit b && is_std_digit c && is_std_digit d
      && valid_groups r
  | _ => false
  end.

Definition valid_base64 (s : string) : bool := valid_groups (chars s).

End Buffer.

(** ** Configuration documents and the remote content gateway
    ([shared.ts]) *)

Module Shared.
Import JS.

(** [RepoConfig.docs] *)
Record DocsConfig := {
  docs_repo : string;
  docs_branch : string;
  docs_paths : list string }.

(** [RepoConfig] *)
Record RepoConfig := {
  name : string;
  description : string;
  github : string;
  repo : string;
  mainBranch : string;
  srcPaths : list string;
  examplePaths : list string;
  docs : option DocsConfig }.

(** [Config] *)
Record Config := {
  github_apiKey : string;
  rateLimit_unauthenticated : Z;
  rateLimit_authenticated : Z;
  cache_enabled : bool;
  cache_ttlMinutes : Z }.

(** One entry of a directory listing. *)
Record Item := {
  item_name : string;
  item_type : string }.

(** Parsed body of a successful response: a directory listing (a JSON
    array), a file descriptor, or any other JSON value. *)
Inductive Json : Type :=
| JArray (contents : list Item)
| JFile (type encoding content : string) (size : Z)
| JOther.

Record Request := {
  url : string;
  headers : list (string * string) }.

Record Response := {
  status : Z;
  statusText : string;
  headers_get : string → option string;
  json : Outcome Json }.

(** Result of [fetch]: a rejected promise or a response. *)
Inductive FetchResult : Type :=
| NetworkError (message : string)
| Responded (response : Response).

(** Everything an operation reads from outside the process:
    [config.json] and [repodata.json] as parsed ([None] when the file
    cannot be read or parsed), the keys of [repodata.json] in the order
    in which the runtime enumerates them, the remote, the local
    documentation tree, and the rendering of a time in the locale and time
    zone of the host. *)
Record Env := {
  config_json : option Config;
  repodata_json : option (gmap string RepoConfig);
  repodata_keys : list string;
  fetch : Request → FetchResult;
  local_doc_files : string → option (list string);
  local_doc : string → string → option string;
  toLocaleTimeString : Z → string }.

(** [loadConfig]: the parsed document, or the defaults when it cannot be
    read. *)
Definition loadConfig (env : Env) : Config :=
  match config_json env with
  | Some c => c
  | None =>
      {| github_apiKey := "";
         rateLimit_unauthenticated := 60;
         rateLimit_authenticated := 5000;
         cache_enabled := false;
         cache_ttlMinutes := 10 |}
  end.

(** [loadRepoData]: the parsed document, or the empty object. *)
Definition loadRepoData (env : Env) : gmap string RepoConfig :=
  match repodata_json env with
  | Some r => r
  | None => ∅
  end.

(** [Object.keys(repoData)] for the result of [loadRepoData]. *)
Definition repoData_keys (env : Env) : list string :=
  match repodata_json env with
  | Some _ => repodata_keys env
  | None => []
  end.

(** *** [parseInt] and [Date] *)

Definition digit_value (c : ascii) : option Z :=
  let n := code c in
  if is_digit c then Some (n - 48)
  else if (97 <=? n) && (n <=? 102) then Some (n - 87)
  else if (65 <=? n) && (n <=? 70) then Some (n - 55)
  else None.

(** Value of the longest prefix of digits of the radix; [None] when the
    prefix is empty. *)
Fixpoint digits_prefix (radix : Z) (acc : option Z) (cs : list ascii) : option Z :=
  match cs with
  | [] => acc
  | c :: r =>
      match digit_value c with
      | Some d =>
          if d <? radix
          then digits_prefix radix (Some (default 0 acc * radix + d)) r
          else acc
      | None => acc
      end
  end.

(** [parseInt(s)]: [None] stands for [NaN]. *)
Definition parseInt (s : string) : option Z :=
  let cs := dropWhile is_space (chars s) in
  let '(sign, cs) :=
    match cs with
    | c :: r =>
        if code c =? 45 then (-1, r)
        else if code c =? 43 then (1, r)
        else (1, cs)
    | [] => (1, cs)
    end in
  let '(radix, cs) :=
    match cs with
    | z :: x :: r =>
        if (code z =? 48) && ((code x =? 120) || (code x =? 88))
        then (16, r) else (10, cs)
    | _ => (10, cs)
    end in
  match digits_prefix radix None cs with
  | Some v => Some (sign * v)
  | None => None
  end.

(** [new Date(ms).toLocaleTimeString()]: a time value outside
    ±8.64e15 ms, or [NaN], is an invalid date. *)
Definition Date_toLocaleTimeString (env : Env) (ms : option Z) : string :=
  match ms with
  | Some t =>
      if Z.abs t <=? 8640000000000000 then toLocaleTimeString env t
      else "Invalid Date"
  | None => "Invalid Date"
  end.

(** A value interpolated in a template literal: [null] prints as
    ["null"]. *)
Definition show_nullable (v : option string) : string :=
  match v with
  | Some s => s
  | None => "null"
  end.

(** *** [fetchGitHubContent] *)

Definition ok (r : Response) : bool :=
  (200 <=? status r) && (status r <=? 299).

(** The body of the [try] block, given what [fetch] produced. *)
Definition fetch_try (env : Env) (config : Config) (r : FetchResult) : Outcome Json :=
  match r with
  | NetworkError m => Thrown m
  | Responded response =>
      if negb (ok response) then
        if status response =? 403 then
          let remaining := headers_get response "X-RateLimit-Remaining" in
          let resetTime := headers_get response "X-RateLimit-Reset" in
          let resetDate :=
            match resetTime with
            | Some t =>
                if truthy t
                then Date_toLocaleTimeString env
                       (option_map (λ n, n * 1000) (parseInt t))
                else "unknown"
            | None => "unknown"
            end in
          Thrown ("GitHub API rate limit exceeded. Remaining: "
                  +:+ show_nullable remaining
                  +:+ ". Resets at: " +:+ resetDate +:+ ". "
                  +:+ (if truthy (github_apiKey config)
                       then "Authenticated"
                       else "Consider adding a GitHub API key to config.json for higher rate limits"))
        else
          Thrown ("GitHub API error: " +:+ show_int (status response)
                  +:+ " " +:+ statusText response)
      else json response
  end.

Definition fetchGitHubContent (env : Env) (repo path branch : string) : Outcome Json :=
  let config := loadConfig env in
  let url :=
    "https://api.github.com/repos/" +:+ repo +:+ "/contents/" +:+ path
    +:+ "?ref=" +:+ branch in
  let headers :=
    ([("Accept", "application/vnd.github.v3+json");
      ("User-Agent", "MCP-Docs-Server/1.0.0")]
     ++ (if truthy (github_apiKey config)
         then [("Authorization", "token " +:+ github_apiKey config)]
         else []))%list in
  match fetch_try env config (fetch env {| url := url; headers := headers |}) with
  | Returned j => Returned j
  | Thrown m => Thrown ("Failed to fetch from GitHub: " +:+ m)
  end.

(** [decodeGitHubContent]: neither [Buffer.from] nor [toString] refuses
    an input, so the function returns on every one. *)
Definition decodeGitHubContent (content : string) : Outcome string :=
  Returned (Buffer.toString_utf8 (Buffer.from_base64 content)).

(** *** File classification *)

Definition sourceExtensions : list string :=
  [".ts"; ".tsx"; ".js"; ".jsx"; ".mjs"; ".cjs"; ".py"; ".rs"; ".go";
   ".java"; ".cpp"; ".c"; ".h"; ".vue"; ".svelte"; ".astro"; ".md";
   ".mdx"; ".json"].

Definition isSourceFile (filename : string) : bool :=
  existsb (λ ext, endsWith (toLowerCase filename) ext) sourceExtensions.

Definition exampleExtensions : list string :=
  [".ts"; ".tsx"; ".js"; ".jsx"; ".mjs"; ".cjs"; ".vue"; ".svelte";
   ".astro"; ".md"; ".mdx"].

Definition isExampleFile (filename filePath : string) : bool :=
  let hasExampleExtension :=
    existsb (λ ext, endsWith (toLowerCase filename) ext) exampleExtensions in
  let pathLower := toLowerCase filePath in
  let isInExampleDir :=
    includes pathLower "example" || includes pathLower "demo"
    || includes pathLower "sandbox" || includes pathLower "test" in
  hasExampleExtension && isInExampleDir.

(** *** [findFilesRecursively] *)

(** [path ? `${path}/${item.name}` : item.name] *)
Definition child_path (path : string) (item : Item) : string :=
  if truthy path then path +:+ "/" +:+ item_name item else item_name item.

(** The body of the loop over the entries of a listing; [recurse] is
    the recursive call. *)
Definition collect_entry (recurse : string → Z → list string)
    (fileFilter : string → string → bool) (path : string) (maxDepth : Z)
    (item : Item) : list string :=
  let itemPath := child_path path item in
  if String.eqb (item_type item) "file" && fileFilter (item_name item) itemPath
  then [itemPath]
  else if String.eqb (item_type item) "dir" && (1 <? maxDepth)
  then recurse itemPath (maxDepth - 1)
  else [].

(** The recursion of [findFilesRecursively], on a counter that bounds
    the nesting of calls; [findFilesRecursively] starts it at
    [maxDepth], which the guard [maxDepth <= 0] never lets it exhaust. *)
Fixpoint findFiles_from (calls : nat) (env : Env) (repo path branch : string)
    (fileFilter : string → string → bool) (maxDepth : Z) : list string :=
  match calls with
  | O => []
  | S calls' =>
      if maxDepth <=? 0 then []
      else
        match fetchGitHubContent env repo path branch with
        | Returned (JArray contents) =>
            flat_map
              (collect_entry
                 (λ itemPath depth,
                    findFiles_from calls' env repo itemPath branch fileFilter depth)
                 fileFilter path maxDepth)
              contents
        | _ => []
        end
  end.

Definition findFilesRecursively (env : Env) (repo path branch : string)
    (fileFilter : string → string → bool) (maxDepth : Z) : list string :=
  findFiles_from (Z.to_nat maxDepth) env repo path branch fileFilter maxDepth.

End Shared.

(** ** Documentation tools ([docTools.ts]) *)

Module DocTools.
Import JS Shared.

(** [line.match(/^(#{1,6})\s+(.+)$/)]: the two captured groups.

    The run of [#] that starts the line must have one to six
    characters and be followed by white space.  [\s+] takes the whole
    run of white space and [(.+)] the rest of the line, which must be
    free of line terminators; when nothing follows the white space,
    [\s+] gives its last character back to [(.+)].  The classes are
    those of [JS]: the match is that of the runtime on every line of ASCII
    characters. *)
Definition headerMatch (line : string) : option (string * string) :=
  let cs := chars line in
  let hashes := takeWhile (λ c, code c =? 35) cs in
  let after := drop (length hashes) cs in
  let spaces := takeWhile is_space after in
  let rest := drop (length spaces) after in
  if (1 <=? Z.of_nat (length hashes)) && (Z.of_nat (length hashes) <=? 6) then
    match spaces, rest with
    | [], _ => None
    | _ :: _, _ :: _ =>
        if forallb (λ c, negb (is_line_terminator c)) rest
        then Some (of_chars hashes, of_chars rest)
        else None
    | _ :: _, [] =>
        match rev spaces with
        | c :: _ :: _ =>
            if is_line_terminator c then None
            else Some (of_chars hashes, of_chars [c])
        | _ => None
        end
    end
  else None.

(** Loop state of [extractMarkdownSections]. *)
Record Sections := {
  sections : gmap string string;
  currentSectionName : string;
  sectionContent : list string }.

(** [if (currentSectionName && sectionContent.length > 0)
       sections[currentSectionName.toLowerCase()] = sectionContent.join("\n")] *)
Definition save_section (st : Sections) : gmap string string :=
  if truthy (currentSectionName st) && (0 <? Z.of_nat (length (sectionContent st)))
  then js_set (sections st) (toLowerCase (currentSectionName st))
         (join nl (sectionContent st))
  else sections st.

(** One iteration of the loop over the lines. *)
Definition section_step (st : Sections) (line : string) : Sections :=
  match headerMatch line with
  | Some (_, title) =>
      {| sections := save_section st;
         currentSectionName := trim title;
         sectionContent := [line] |}
  | None =>
      {| sections := sections st;
         currentSectionName := currentSectionName st;
         sectionContent := (sectionContent st ++ [line])%list |}
  end.

Definition no_sections : Sections :=
  {| sections := ∅; currentSectionName := ""; sectionContent := [] |}.

Definition extractMarkdownSections (content : string) : gmap string string :=
  save_section (fold_left section_step (split LF content) no_sections).

Record Header := {
  level : Z;
  title : string;
  anchor : string }.

(** [s.replace(/[^a-z0-9\s-]/g, "")] *)
Definition strip_non_anchor (s : string) : string :=
  of_chars
    (filter (λ c, is_lower c || is_digit c || is_space c || (code c =? 45) = true)
       (chars s)).

(** [s.replace(/\s+/g, "-")] on a list of characters; [in_run] tells
    that the previous character was white space of a run already
    replaced. *)
Fixpoint hyphenate (in_run : bool) (cs : list ascii) : list ascii :=
  match cs with
  | [] => []
  | c :: r =>
      if is_space c
      then if in_run then hyphenate true r else char_of 45 :: hyphenate true r
      else c :: hyphenate false r
  end.

(** [title.toLowerCase().replace(/[^a-z0-9\s-]/g, "").replace(/\s+/g, "-")],
    with the case mapping and the class [\s] of [JS]: the anchor of the
    runtime for every title of ASCII characters. *)
Definition anchor_of (title : string) : string :=
  of_chars (hyphenate false (chars (strip_non_anchor (toLowerCase title)))).

Definition findSectionHeaders (content : string) : list Header :=
  flat_map
    (λ line,
       match headerMatch line with
       | Some (hashes, text) =>
           let title := trim text in
           [{| level := Z.of_nat (String.length hashes);
               title := title;
               anchor := anchor_of title |}]
       | None => []
       end)
    (split LF content).

(** The [docs] member read through [repoConfig?.docs]. *)
Definition docs_of (repoConfig : Lookup RepoConfig) : option DocsConfig :=
  match repoConfig with
  | Own c => docs c
  | _ => None
  end.

(** [fileContent.content], when it is a non-empty string. *)
Definition content_of (j : Json) : option string :=
  match j with
  | JFile _ _ content _ => if truthy content then Some content else None
  | _ => None
  end.

Definition getDocumentationContent (env : Env) (library filePath : string)
  : Outcome string :=
  let repoConfig := js_get (loadRepoData env) library in
  let fromGitHub :=
    match docs_of repoConfig with
    | Some d =>
        match fetchGitHubContent env (docs_repo d) filePath (docs_branch d) with
        | Returned fileContent =>
            match content_of fileContent with
            | Some content =>
                match decodeGitHubContent content with
                | Returned text => Some text
                | Thrown _ => None
                end
            | None => None
            end
        | Thrown _ => None
        end
    | None => None
    end in
  match fromGitHub with
  | Some text => Returned text
  | None =>
      match local_doc env library filePath with
      | Some text => Returned text
      | None => Thrown ("Documentation file not found: " +:+ filePath)
      end
  end.

(** What a template literal prints for a value inherited from
    [Object.prototype]. *)
Definition show_inherited (name : string) : string :=
  if String.eqb name "__proto__" then "[object Object]"
  else if String.eqb name "constructor" then "function Object() { [native code] }"
  else "function " +:+ name +:+ "() { [native code] }".

Definition BULLET : string := "â€¢".

(** The reply of [get-doc] when the section is found. *)
Definition section_reply (library filePath sectionAnchor body : string) : string :=
  "# " +:+ library +:+ "/" +:+ filePath +:+ "#" +:+ sectionAnchor
  +:+ nl +:+ nl +:+ body.

(** The reply of [get-doc] that lists the available sections. *)
Definition section_not_found (library filePath sectionAnchor content : string) : string :=
  let headers := findSectionHeaders content in
  let availableSections :=
    join (nl +:+ BULLET +:+ " ")
      (map (λ h, "#" +:+ anchor h +:+ " (" +:+ title h +:+ ")") headers) in
  "Section '#" +:+ sectionAnchor +:+ "' not found in " +:+ library +:+ "/"
  +:+ filePath +:+ "." +:+ nl +:+ nl +:+ "Available sections:" +:+ nl
  +:+ BULLET +:+ " " +:+ availableSections.

(** The tool [get-doc]. *)
Definition get_doc (env : Env) (library file : string) : string :=
  let '(filePath, sectionAnchor) :=
    if includes file "#" then
      match split "#" file with
      | a :: b :: _ => (a, Some b)
      | [a] => (a, None)
      | [] => (file, None)
      end
    else (file, None) in
  match getDocumentationContent env library filePath with
  | Returned content =>
      match sectionAnchor with
      | Some sectionAnchor =>
          if truthy sectionAnchor then
            let sections := extractMarkdownSections content in
            match js_get sections (toLowerCase sectionAnchor) with
            | Own sectionContent =>
                if truthy sectionContent
                then section_reply library filePath sectionAnchor sectionContent
                else section_not_found library filePath sectionAnchor content
            | Inherited name =>
                section_reply library filePath sectionAnchor (show_inherited name)
            | Undefined =>
                section_not_found library filePath sectionAnchor content
            end
          else "# " +:+ library +:+ "/" +:+ file +:+ nl +:+ nl +:+ content
      | None => "# " +:+ library +:+ "/" +:+ file +:+ nl +:+ nl +:+ content
      end
  | Thrown message =>
      "Error reading file '" +:+ file +:+ "' from library '" +:+ library
      +:+ "': " +:+ message
  end.

(** [lines.forEach((line, index) => ...)] where the callback pushes
    zero or more values: the values pushed, in order. *)
Fixpoint forEach_push {A B} (f : A → Z → list B) (lines : list A) (index : Z) : list B :=
  match lines with
  | [] => []
  | line :: r => (f line index ++ forEach_push f r (index + 1))%list
  end.

(** The loop over the lines in [searchDocumentation].  The test is
    that of the runtime when the line and the query are ASCII; the windows
    pushed do not depend on it. *)
Definition doc_matches (lines : list string) (query : string) : list string :=
  forEach_push
    (λ line index,
       if includes (toLowerCase line) (toLowerCase query) then
         let start := Z.max 0 (index - 1) in
         let stop := Z.min (Z.of_nat (length lines) - 1) (index + 1) in
         let context := join nl (slice lines start (stop + 1)) in
         ["Line " +:+ show_int (index + 1) +:+ ": " +:+ context]
       else [])
    lines 0.

(** [filename.match(/\.(md|mdx|txt)$/i) !== null] *)
Definition isDocFile (filename : string) : bool :=
  let f := toLowerCase filename in
  endsWith f ".md" || endsWith f ".mdx" || endsWith f ".txt".

Definition findGitHubDocFiles (env : Env) (repo : string) (paths : list string)
    (branch : string) : list string :=
  flat_map
    (λ basePath,
       findFilesRecursively env repo basePath branch (λ filename _, isDocFile filename) 3)
    paths.

(** [getLibraryDocFiles]: the flag [isLocal] and the files. *)
Definition getLibraryDocFiles (env : Env) (library : string) : bool * list string :=
  match docs_of (js_get (loadRepoData env) library) with
  | Some d =>
      (false, findGitHubDocFiles env (docs_repo d) (docs_paths d) (docs_branch d))
  | None =>
      match local_doc_files env library with
      | Some files => (true, files)
      | None => (true, [])
      end
  end.

Record DocResult := {
  doc_file : string;
  doc_matches_of : list string;
  doc_sections : option (list (string * string)) }.

Definition searchDocumentation (env : Env) (library query : string) : list DocResult :=
  let '(_, files) := getLibraryDocFiles env library in
  flat_map
    (λ docFile,
       match getDocumentationContent env library docFile with
       | Returned content =>
           let lines := split LF content in
           let headers := findSectionHeaders content in
           let queryLower := toLowerCase query in
           let matchingSections :=
             flat_map
               (λ header,
                  if includes (toLowerCase (title header)) queryLower
                     || includes (anchor header) queryLower
                  then [(title header, anchor header)] else [])
               headers in
           let matches := doc_matches lines query in
           if (0 <? Z.of_nat (length matches))
              || (0 <? Z.of_nat (length matchingSections))
           then [{| doc_file := docFile;
                    doc_matches_of := matches;
                    doc_sections :=
                      if 0 <? Z.of_nat (length matchingSections)
                      then Some matchingSections else None |}]
           else []
       | Thrown _ => []
       end)
    files.

End DocTools.

(** ** Repository tools ([repoTools.ts]) *)

Module RepoTools.
Import JS Shared.

(** The members a handler reads from [repoData[library]], each [None]
    when [undefined].  An entry of the registry has them all; a value
    inherited from [Object.prototype] has at most the [name] of a
    built-in function. *)
Record ConfigView := {
  v_name : option string;
  v_github : option string;
  v_repo : option string;
  v_mainBranch : option string;
  v_srcPaths : option (list string) }.

Definition view_of (config : Lookup RepoConfig) : option ConfigView :=
  match config with
  | Own c =>
      Some {| v_name := Some (name c); v_github := Some (github c);
              v_repo := Some (repo c); v_mainBranch := Some (mainBranch c);
              v_srcPaths := Some (srcPaths c) |}
  | Inherited n =>
      Some {| v_name :=
                if String.eqb n "__proto__" then None
                else if String.eqb n "constructor" then Some "Object"
                else Some n;
              v_github := None; v_repo := None; v_mainBranch := None;
              v_srcPaths := None |}
  | Undefined => None
  end.

(** A possibly undefined value in a template literal. *)
Definition show (v : option string) : string := default "undefined" v.

(** [fetchGitHubContent(config.repo, path, config.mainBranch)]: an
    undefined branch takes the default of the parameter. *)
Definition fetch_for (env : Env) (config : ConfigView) (path : string) : Outcome Json :=
  fetchGitHubContent env (show (v_repo config)) path (default "main" (v_mainBranch config)).

(** [Object.keys(repoData).join(", ")] *)
Definition available (env : Env) : string := join ", " (repoData_keys env).

Definition DIR_ICON : string := "📁".
Definition FILE_ICON : string := "📄".

(** The tool [browse-repo]; [requestedPath] is [""] when the argument
    is omitted. *)
Definition browse_repo (env : Env) (library requestedPath : string) : string :=
  let repoData := loadRepoData env in
  match view_of (js_get repoData library) with
  | None =>
      "Repository '" +:+ library +:+ "' not found. Available repositories: "
      +:+ available env
  | Some config =>
      match fetch_for env config requestedPath with
      | Returned (JArray contents) =>
          let items :=
            map (λ item,
                   let icon := if String.eqb (item_type item) "dir"
                               then DIR_ICON else FILE_ICON in
                   icon +:+ " " +:+ item_name item
                   +:+ (if String.eqb (item_type item) "dir" then "/" else ""))
              contents in
          let pathDisplay :=
            if truthy requestedPath then "/" +:+ requestedPath else "/" in
          "# " +:+ show (v_name config) +:+ " Repository Structure" +:+ nl +:+ nl
          +:+ "**Path:** " +:+ pathDisplay +:+ nl
          +:+ "**Repository:** " +:+ show (v_github config) +:+ nl
          +:+ "**Branch:** " +:+ show (v_mainBranch config) +:+ nl +:+ nl
          +:+ "## Contents:" +:+ nl +:+ nl +:+ join nl items
      | Returned _ =>
          "Path '" +:+ requestedPath
          +:+ "' is not a directory or does not exist in " +:+ library
      | Thrown message => "Error browsing repository: " +:+ message
      end
  end.

Record SourceResult := {
  file : string;
  matches : list string }.

(** The loop over the lines of one file in [search-source]; the test
    is as in [DocTools.doc_matches]. *)
Definition source_matches (lines : list string) (query : string) : list string :=
  DocTools.forEach_push
    (λ line index,
       if includes (toLowerCase line) (toLowerCase query) then
         let start := Z.max 0 (index - 1) in
         let stop := Z.min (Z.of_nat (length lines) - 1) (index + 1) in
         let context := join nl (slice lines start (stop + 1)) in
         ["Line " +:+ show_int (index + 1) +:+ ": " +:+ context]
       else [])
    lines 0.

(** The body of the loop over the files: the file is fetched, and a
    result is pushed when it has matches. *)
Definition search_file (env : Env) (config : ConfigView) (query file : string)
  : option SourceResult :=
  match fetch_for env config file with
  | Returned (JFile type encoding content _) =>
      if String.eqb type "file" && String.eqb encoding "base64" then
        match decodeGitHubContent content with
        | Returned fileContent =>
            let lines := split LF fileContent in
            let matches := source_matches lines query in
            if 0 <? Z.of_nat (length matches)
            then Some {| file := file; matches := slice matches 0 5 |}
            else None
        | Thrown _ => None
        end
      else None
  | _ => None
  end.

(** The two nested loops of [search-source]: every file on which
    [fetchGitHubContent] is called, in order, with the result pushed for
    it, if any. *)
Definition search_source_log (env : Env) (config : ConfigView) (query : string)
    (searchPaths : list string) : list (string * option SourceResult) :=
  flat_map
    (λ searchPath,
       let files :=
         findFilesRecursively env (show (v_repo config)) searchPath
           (default "main" (v_mainBranch config))
           (λ filename _, isSourceFile filename) 3 in
       map (λ file, (file, search_file env config query file)) (slice files 0 20))
    searchPaths.

Definition fetched {A} (log : list (string * A)) : list string := map fst log.
Definition results {A} (log : list (string * option A)) : list A := omap snd log.

Definition format_results (rs : list SourceResult) : string :=
  join (nl +:+ nl +:+ "---" +:+ nl +:+ nl)
    (map (λ result,
            "**" +:+ file result +:+ ":**" +:+ nl
            +:+ join (nl +:+ nl) (map (λ m, "  " +:+ m) (matches result)))
       rs).

(** The tool [search-source]; [paths] is [None] when the argument is
    omitted. *)
Definition search_source (env : Env) (library query : string)
    (paths : option (list string)) : string :=
  let repoData := loadRepoData env in
  match view_of (js_get repoData library) with
  | None =>
      "Repository '" +:+ library +:+ "' not found. Available repositories: "
      +:+ available env
  | Some config =>
      match (match paths with Some p => Some p | None => v_srcPaths config end) with
      | None => "Error searching source code: searchPaths is not iterable"
      | Some searchPaths =>
          let rs := results (search_source_log env config query searchPaths) in
          if Z.of_nat (length rs) =? 0 then
            "No matches found for " +:+ QUOTE +:+ query +:+ QUOTE +:+ " in " +:+ library
            +:+ " source code."
          else
            "Source code search results for " +:+ QUOTE +:+ query +:+ QUOTE +:+ " in "
            +:+ library +:+ ":" +:+ nl +:+ nl +:+ format_results rs
      end
  end.

End RepoTools.

(** ** Example tools ([exampleTools.ts]) *)

Module ExampleTools.
Import JS Shared.

Record ExampleResult := {
  file : string;
  matches : list string }.

(** The loop over the lines of one file in [searchRepoExamples]; the
    test is as in [DocTools.doc_matches]. *)
Definition example_matches (lines : list string) (query : string) : list string :=
  DocTools.forEach_push
    (λ line index,
       if includes (toLowerCase line) (toLowerCase query) then
         let start := Z.max 0 (index - 2) in
         let stop := Z.min (Z.of_nat (length lines) - 1) (index + 2) in
         let context := join nl (slice lines start (stop + 1)) in
         ["Line " +:+ show_int (index + 1) +:+ ":" +:+ nl +:+ context]
       else [])
    lines 0.

(** The body of the loop over the files. *)
Definition search_example_file (env : Env) (repo branch query file : string)
  : option ExampleResult :=
  match fetchGitHubContent env repo file branch with
  | Returned (JFile type encoding content _) =>
      if String.eqb type "file" && String.eqb encoding "base64" then
        match decodeGitHubContent content with
        | Returned fileContent =>
            if includes (toLowerCase fileContent) (toLowerCase query) then
              let lines := split LF fileContent in
              let matches := example_matches lines query in
              if 0 <? Z.of_nat (length matches)
              then Some {| file := file; matches := slice matches 0 3 |}
              else None
            else None
        | Thrown _ => None
        end
      else None
  | _ => None
  end.

(** The two nested loops of [searchRepoExamples]: every file on which
    [fetchGitHubContent] is called, in order, with the result pushed for
    it, if any. *)
Definition searchRepoExamples_log (env : Env) (repo branch : string)
    (examplePaths : list string) (query : string)
  : list (string * option ExampleResult) :=
  flat_map
    (λ examplePath,
       let files :=
         findFilesRecursively env repo examplePath branch
           (λ filename filePath, isExampleFile filename filePath) 2 in
       map (λ file, (file, search_example_file env repo branch query file))
         (slice files 0 15))
    examplePaths.

Definition searchRepoExamples (env : Env) (repo branch : string)
    (examplePaths : list string) (query : string) : list ExampleResult :=
  RepoTools.results (searchRepoExamples_log env repo branch examplePaths query).

End ExampleTools.

(** ** Repository management ([repoManagement.ts]) *)

Module RepoManagement.
Import JS Shared.

(** *** [path.extname] (POSIX) *)

Record ExtScan := {
  startDot : Z;
  startPart : Z;
  end_ : Z;
  matchedSlash : bool;
  preDotState : Z }.

(** The loop of [extname] from the last character to the first; [cs]
    holds the characters still to visit, last first, and [i] is the
    index of its head. *)
Fixpoint extname_scan (cs : list ascii) (i : Z) (st : ExtScan) : ExtScan :=
  match cs with
  | [] => st
  | c :: r =>
      if code c =? 47 then
        if negb (matchedSlash st)
        then {| startDot := startDot st; startPart := i + 1; end_ := end_ st;
                matchedSlash := matchedSlash st; preDotState := preDotState st |}
        else extname_scan r (i - 1) st
      else
        let st1 :=
          if end_ st =? -1
          then {| startDot := startDot st; startPart := startPart st;
                  end_ := i + 1; matchedSlash := false;
                  preDotState := preDotState st |}
          else st in
        let st2 :=
          if code c =? 46 then
            if startDot st1 =? -1
            then {| startDot := i; startPart := startPart st1; end_ := end_ st1;
                    matchedSlash := matchedSlash st1;
                    preDotState := preDotState st1 |}
            else {| startDot := startDot st1; startPart := startPart st1;
                    end_ := end_ st1; matchedSlash := matchedSlash st1;
                    preDotState := 1 |}
          else if negb (startDot st1 =? -1)
          then {| startDot := startDot st1; startPart := startPart st1;
                  end_ := end_ st1; matchedSlash := matchedSlash st1;
                  preDotState := -1 |}
          else st1 in
        extname_scan r (i - 1) st2
  end.

Definition extname (path : string) : string :=
  let st :=
    extname_scan (rev (chars path)) (Z.of_nat (String.length path) - 1)
      {| startDot := -1; startPart := 0; end_ := -1; matchedSlash := true;
         preDotState := 0 |} in
  if (startDot st =? -1) || (end_ st =? -1) || (preDotState st =? 0)
     || ((preDotState st =? 1) && (startDot st =? end_ st - 1)
         && (startDot st =? startPart st + 1))
  then EmptyString
  else of_chars (slice (chars path) (startDot st) (end_ st)).

(** *** [analyzeRepository] *)

(** An entry of the reported tree: the listed item, its path, and its
    children when the directory was expanded and is not empty. *)
#[warnings="-register-all"]
Inductive Node : Type :=
| mkNode (item : Item) (path : string) (children : option (list Node)).

(** What the traversal accumulates.  The keys of [fileTypeCounts] are
    extensions, which are empty or start with a dot: none is a property
    name inherited from [Object.prototype], and reading the tally of an
    extension is a plain lookup. *)
Record Analysis := {
  fileTypeCounts : gmap string Z;
  an_srcPaths : list string;
  an_examplePaths : list string;
  an_docsPaths : list string }.

Definition no_analysis : Analysis :=
  {| fileTypeCounts := ∅; an_srcPaths := []; an_examplePaths := [];
     an_docsPaths := [] |}.

(** [fileTypeCounts[ext] = (fileTypeCounts[ext] || 0) + 1], where
    [ext] is the lower-cased extension of the name; for a name of ASCII
    characters it is the key the runtime uses, and for every name one
    tally grows by one. *)
Definition count_file (st : Analysis) (item : Item) : Analysis :=
  if String.eqb (item_type item) "file" then
    let ext := toLowerCase (extname (item_name item)) in
    {| fileTypeCounts :=
         <[ext := default 0 (fileTypeCounts st !! ext) + 1]> (fileTypeCounts st);
       an_srcPaths := an_srcPaths st;
       an_examplePaths := an_examplePaths st;
       an_docsPaths := an_docsPaths st |}
  else st.

Definition shouldExpand (item : Item) : bool :=
  String.eqb (item_type item) "dir"
  && (includes (toLowerCase (item_name item)) "src"
      || includes (toLowerCase (item_name item)) "example"
      || includes (toLowerCase (item_name item)) "docs"
      || includes (toLowerCase (item_name item)) "demo"
      || includes (toLowerCase (item_name item)) "readme.md"
      || String.eqb (item_name item) "packages"
      || String.eqb (item_name item) "apps").

(** The three [push]es that follow the expansion of a directory. *)
Definition suggest (st : Analysis) (item : Item) (itemPath : string) : Analysis :=
  let lname := toLowerCase (item_name item) in
  {| fileTypeCounts := fileTypeCounts st;
     an_srcPaths :=
       if includes lname "src" then (an_srcPaths st ++ [itemPath])%list
       else an_srcPaths st;
     an_examplePaths :=
       if includes lname "example" || includes lname "demo"
       then (an_examplePaths st ++ [itemPath])%list else an_examplePaths st;
     an_docsPaths :=
       if includes lname "docs" then (an_docsPaths st ++ [itemPath])%list
       else an_docsPaths st |}.

(** The body of the loop over the entries of a directory, from the
    entries reported and the tallies so far; [explore] is the recursive
    call. *)
Definition explore_entry (explore : string → Z → Analysis → list Node * Analysis)
    (dirPath : string) (maxDepth : Z) (acc : list Node * Analysis) (item : Item)
  : list Node * Analysis :=
  let '(result, st) := acc in
  let itemPath := child_path dirPath item in
  let st := count_file st item in
  if shouldExpand item then
    let '(children, st) := explore itemPath (maxDepth - 1) st in
    ((result ++
      [mkNode item itemPath
         (if 0 <? Z.of_nat (length children) then Some children else None)])%list,
     suggest st item itemPath)
  else ((result ++ [mkNode item itemPath None])%list, st).

(** The recursion of [exploreDirectory], on a counter that bounds the
    nesting of calls, as in [findFiles_from]. *)
Fixpoint explore_from (calls : nat) (env : Env) (repo actualBranch dirPath : string)
    (maxDepth : Z) (st : Analysis) : list Node * Analysis :=
  match calls with
  | O => ([], st)
  | S calls' =>
      if maxDepth <=? 0 then ([], st)
      else
        match fetchGitHubContent env repo dirPath actualBranch with
        | Returned (JArray dirContents) =>
            fold_left
              (explore_entry (explore_from calls' env repo actualBranch)
                 dirPath maxDepth)
              dirContents ([], st)
        | _ => ([], st)
        end
  end.

Definition exploreDirectory (env : Env) (repo actualBranch dirPath : string)
    (maxDepth : Z) (st : Analysis) : list Node * Analysis :=
  explore_from (Z.to_nat maxDepth) env repo actualBranch dirPath maxDepth st.

Record AnalysisResult := {
  structure : list Node;
  res_fileTypeCounts : gmap string Z;
  suggested_srcPaths : list string;
  suggested_examplePaths : list string;
  suggested_docsPaths : list string;
  res_mainBranch : string }.

(** [analyzeRepository(repo, branch)]: the exploration starts at the
    root with the default depth 2. *)
Definition analyzeRepository (env : Env) (repo branch : string) : AnalysisResult :=
  let actualBranch := branch in
  let '(structure, st) :=
    exploreDirectory env repo actualBranch EmptyString 2 no_analysis in
  {| structure := structure;
     res_fileTypeCounts := fileTypeCounts st;
     suggested_srcPaths := an_srcPaths st;
     suggested_examplePaths := an_examplePaths st;
     suggested_docsPaths := an_docsPaths st;
     res_mainBranch := actualBranch |}.

(** *** The tool [add-repository] *)

Record AddArgs := {
  arg_key : string;
  arg_name : string;
  arg_description : string;
  arg_repo : string;
  arg_mainBranch : string;
  arg_srcPaths : list string;
  arg_examplePaths : list string;
  arg_docsRepo : option string;
  arg_docsBranch : option string;
  arg_docsPaths : option (list string) }.

(** [a || b] where [a] may be [undefined]. *)
Definition opt_or (a : option string) (b : string) : string :=
  match a with
  | Some s => or_else s b
  | None => b
  end.

(** The entry built from the arguments. *)
Definition newRepo (a : AddArgs) : RepoConfig :=
  {| name := arg_name a;
     description := arg_description a;
     github := "https://github.com/" +:+ arg_repo a;
     repo := arg_repo a;
     mainBranch := arg_mainBranch a;
     srcPaths := arg_srcPaths a;
     examplePaths := arg_examplePaths a;
     docs :=
       match arg_docsPaths a with
       | Some docsPaths =>
           if 0 <? Z.of_nat (length docsPaths)
           then Some {| docs_repo := opt_or (arg_docsRepo a) (arg_repo a);
                        docs_branch := opt_or (arg_docsBranch a) (arg_mainBranch a);
                        docs_paths := docsPaths |}
           else None
       | None => None
       end |}.

(** [if (currentRepoData[key])]: an entry of the registry is an object,
    and so is every value inherited from [Object.prototype]. *)
Definition key_exists (currentRepoData : gmap string RepoConfig) (key : string) : bool :=
  match js_get currentRepoData key with
  | Own _ => true
  | Inherited _ => true
  | Undefined => false
  end.

Definition CROSS : string := "❌".
Definition CHECK_MARK : string := "✅".
Definition BACKTICK : string := String (char_of 96) EmptyString.

Definition already_exists (key : string) : string :=
  CROSS +:+ " Repository key '" +:+ key
  +:+ "' already exists in repodata.json. Use a different key or update the existing entry manually.".

Definition tool_line (tool key : string) : string :=
  "- " +:+ BACKTICK +:+ tool +:+ " library:" +:+ key +:+ BACKTICK.

Definition added (a : AddArgs) : string :=
  let key := arg_key a in
  CHECK_MARK +:+ " Successfully added repository '" +:+ key
  +:+ "' to repodata.json!" +:+ nl +:+ nl
  +:+ "## 📋 Configuration Added:" +:+ nl
  +:+ "- **Key:** " +:+ key +:+ nl
  +:+ "- **Name:** " +:+ arg_name a +:+ nl
  +:+ "- **Description:** " +:+ arg_description a +:+ nl
  +:+ "- **Repository:** https://github.com/" +:+ arg_repo a +:+ nl
  +:+ "- **Branch:** " +:+ arg_mainBranch a +:+ nl
  +:+ "- **Source Paths:** " +:+ join ", " (arg_srcPaths a) +:+ nl
  +:+ "- **Example Paths:** " +:+ join ", " (arg_examplePaths a) +:+ nl
  +:+ match docs (newRepo a) with
      | Some d =>
          "- **Docs Repository:** https://github.com/" +:+ docs_repo d +:+ nl
          +:+ "- **Docs Branch:** " +:+ docs_branch d +:+ nl
          +:+ "- **Docs Paths:** " +:+ join ", " (docs_paths d)
      | None => "- **Docs:** Using local documentation only"
      end
  +:+ nl +:+ nl
  +:+ "## 🚀 Available Tools for '" +:+ key +:+ "':" +:+ nl
  +:+ "You can now use all repository and example tools with this library:" +:+ nl
  +:+ tool_line "browse-repo" key +:+ nl
  +:+ tool_line "read-source-file" key +:+ nl
  +:+ tool_line "search-source" key +:+ nl
  +:+ tool_line "search-examples" key +:+ nl
  +:+ tool_line "list-examples" key +:+ nl
  +:+ tool_line "get-example" key +:+ nl +:+ nl
  +:+ "The new repository is immediately available for use!".

(** Outcome of a call of the tool: the reply, and the documents passed
    to [writeFile] for [repodata.json], in order. *)
Record Added := {
  reply : string;
  written : list (gmap string RepoConfig) }.

(** The tool [add-repository]; the write is taken to succeed. *)
Definition add_repository (env : Env) (a : AddArgs) : Added :=
  let currentRepoData := loadRepoData env in
  if key_exists currentRepoData (arg_key a) then
    {| reply := already_exists (arg_key a); written := [] |}
  else
    let updatedRepoData := <[arg_key a := newRepo a]> currentRepoData in
    {| reply := added a; written := [updatedRepoData] |}.

(** [repodata.json] after the call. *)
Definition repodata_after (env : Env) (r : Added) : option (gmap string RepoConfig) :=
  match last (written r) with
  | Some d => Some d
  | None => repodata_json env
  end.

(** *** The tool [remove-repository] *)

Definition key_not_found (env : Env) (key : string) : string :=
  CROSS +:+ " Repository key '" +:+ key
  +:+ "' not found in repodata.json. Available keys: "
  +:+ join ", " (repoData_keys env).

Definition removed_reply (key : string) (removed : Lookup RepoConfig) : string :=
  CHECK_MARK +:+ " Successfully removed repository '" +:+ key +:+ "' ("
  +:+ RepoTools.show
        (match RepoTools.view_of removed with
         | Some v => RepoTools.v_name v
         | None => None
         end)
  +:+ ") from repodata.json!".

(** The tool [remove-repository]: the rest pattern
    [{ [key]: removed, ...updatedRepoData }] copies the own properties but
    [key]; the write is taken to succeed. *)
Definition remove_repository (env : Env) (key : string) : Added :=
  let currentRepoData := loadRepoData env in
  if negb (key_exists currentRepoData key) then
    {| reply := key_not_found env key; written := [] |}
  else
    let removed := js_get currentRepoData key in
    let updatedRepoData := delete key currentRepoData in
    {| reply := removed_reply key removed; written := [updatedRepoData] |}.

(** *** [normalizeGitHubUrl] *)

(** [s.replace(/suffix$/, "")] for a literal suffix. *)
Definition strip_suffix (suffix s : string) : string :=
  if endsWith s suffix
  then of_chars (take (length (chars s) - length (chars suffix)) (chars s))
  else s.

Definition not_slash (c : ascii) : bool := negb (code c =? 47).

(** [[^\/]+\/[^\/]+] at the head of the characters: the text matched.
    Each of the two runs takes all the characters up to the next slash. *)
Definition owner_repo_at (cs : list ascii) : option (list ascii) :=
  let owner := takeWhile not_slash cs in
  match owner, drop (length owner) cs with
  | _ :: _, slash :: rest =>
      match takeWhile not_slash rest with
      | [] => None
      | name => Some (owner ++ slash :: name)%list
      end
  | _, _ => None
  end.

(** [/github\.com\/([^\/]+\/[^\/]+)/]: the group of the leftmost match. *)
Fixpoint search_github (cs : list ascii) : option (list ascii) :=
  match
    (if startsWith (of_chars cs) "github.com/"
     then owner_repo_at (drop (length (chars "github.com/")) cs)
     else None)
  with
  | Some m => Some m
  | None =>
      match cs with
      | [] => None
      | _ :: r => search_github r
      end
  end.

(** [/^([^\/]+\/[^\/]+)$/]: the group, when the whole text matches. *)
Definition whole_owner_repo (cs : list ascii) : option (list ascii) :=
  match owner_repo_at cs with
  | Some m => if (length m =? length cs)%nat then Some m else None
  | None => None
  end.

Record Normalized := {
  norm_repo : string;
  norm_github : string }.

Definition normalizeGitHubUrl (url : string) : Outcome Normalized :=
  let cleanUrl := strip_suffix ".git" (strip_suffix "/" url) in
  let found :=
    match search_github (chars cleanUrl) with
    | Some m => Some m
    | None => whole_owner_repo (chars cleanUrl)
    end in
  match found with
  | Some m =>
      let repo := of_chars m in
      Returned {| norm_repo := repo;
                  norm_github := "https://github.com/" +:+ repo |}
  | None => Thrown ("Invalid GitHub URL format: " +:+ url)
  end.

End RepoManagement.

(** ** Syntax highlighting ([shared.ts]) *)

Module Highlight.
Import JS Shared.

Definition extensionMap : gmap string string :=
  list_to_map
    [(".ts", "typescript"); (".tsx", "tsx"); (".js", "javascript");
     (".jsx", "jsx"); (".py", "python"); (".rs", "rust"); (".go", "go");
     (".java", "java"); (".cpp", "cpp"); (".c", "c"); (".h", "c");
     (".vue", "vue"); (".svelte", "svelte"); (".astro", "astro");
     (".json", "json"); (".md", "markdown"); (".mdx", "mdx")].

(** [getFileExtension]: the language of the code fence, as a template
    literal prints it. *)
Definition getFileExtension (filename : string) : string :=
  let ext := toLowerCase (RepoManagement.extname filename) in
  match js_get extensionMap ext with
  | Own language => or_else language "text"
  | Inherited name => DocTools.show_inherited name
  | Undefined => "text"
  end.

End Highlight.

(** ** Code blocks of markdown ([exampleTools.ts]) *)

Module CodeBlocks.
Import JS Shared.

Record CodeBlock := {
  language : option string;
  code : string }.

(** Loop state of [extractCodeBlocks]. *)
Record Scan := {
  codeBlocks : list CodeBlock;
  inCodeBlock : bool;
  currentLanguage : option string;
  currentCode : list string }.

Definition FENCE : string :=
  String (char_of 96) (String (char_of 96) (String (char_of 96) EmptyString)).

(** [line.slice(3).trim() || null], with the [trim] of [JS]: the tag of
    the runtime for every line of ASCII characters. *)
Definition language_of (line : string) : option string :=
  let tag := trim (of_chars (drop 3 (chars line))) in
  if truthy tag then Some tag else None.

(** One iteration of the loop over the lines. *)
Definition scan_line (st : Scan) (line : string) : Scan :=
  if startsWith line FENCE then
    if inCodeBlock st then
      {| codeBlocks :=
           (codeBlocks st
            ++ [{| language := currentLanguage st;
                   code := join nl (currentCode st) |}])%list;
         inCodeBlock := false;
         currentLanguage := None;
         currentCode := [] |}
    else
      {| codeBlocks := codeBlocks st;
         inCodeBlock := true;
         currentLanguage := language_of line;
         currentCode := currentCode st |}
  else if inCodeBlock st then
    {| codeBlocks := codeBlocks st;
       inCodeBlock := true;
       currentLanguage := currentLanguage st;
       currentCode := (currentCode st ++ [line])%list |}
  else st.

Definition no_blocks : Scan :=
  {| codeBlocks := []; inCodeBlock := false; currentLanguage := None;
     currentCode := [] |}.

Definition extractCodeBlocks (content : string) : list CodeBlock :=
  codeBlocks (fold_left scan_line (split LF content) no_blocks).

End CodeBlocks.

(** ** Notions used to state the properties *)

Module Spec.
Import JS Shared.

(** A string of ASCII characters.  On such strings [toLowerCase],
    [trim] and the classes [\s] and [.] of [JS] are the operations of the
    runtime, so that the headings, keys, anchors, matches and tallies
    computed here are those the program computes. *)
Definition ascii_text (s : string) : bool :=
  forallb (λ c, code c <? 128) (chars s).

(** The key under which the section of a heading line is stored: the
    lower-cased text of the heading; [None] for a line that is not a
    heading. *)
Definition heading_key (line : string) : option string :=
  match DocTools.headerMatch line with
  | Some (_, text) => Some (toLowerCase (trim text))
  | None => None
  end.

(** A stored section stays as long as no section with its key is
    saved. *)
Definition kept (k v : string) (st : DocTools.Sections) : Prop :=
  DocTools.sections st !! k = Some v
  ∧ (truthy (DocTools.currentSectionName st) = true →
     toLowerCase (DocTools.currentSectionName st) ≠ k).

(** Every key stored, and the key of the section in progress, is the
    key of a heading line among those read. *)
Definition indexed (seen : list string) (st : DocTools.Sections) : Prop :=
  (∀ k v, DocTools.sections st !! k = Some v →
          ∃ l, In l seen ∧ heading_key l = Some k)
  ∧ (truthy (DocTools.currentSectionName st) = true →
     ∃ l, In l seen
          ∧ heading_key l = Some (toLowerCase (DocTools.currentSectionName st))).

(** The characters an anchor is made of: [a-z0-9-]. *)
Definition anchor_char (c : ascii) : bool :=
  is_lower c || is_digit c || (code c =? 45).

(** The context window of the specification: the matched line with the
    [r] lines before it and the [r] lines after it, as far as the
    content has them. *)
Definition window (r : nat) (before : list string) (line : string)
    (after : list string) : list string :=
  (drop (length before - r) before ++ line :: take r after)%list.

(** The matches of a content, each rendered by [fmt] from its line
    number and its window; [before] holds the lines already passed. *)
Fixpoint windows (r : nat) (fmt : Z → string → string) (query : string)
    (before after : list string) : list string :=
  match after with
  | [] => []
  | line :: rest =>
      ((if includes (toLowerCase line) (toLowerCase query)
        then [fmt (Z.of_nat (length before) + 1) (join nl (window r before line rest))]
        else [])
       ++ windows r fmt query (before ++ [line]) rest)%list
  end.

(** [m] renders, by [fmt], the window of radius [r] around a line of
    [lines], with the number of that line. *)
Definition framed (r : nat) (fmt : Z → string → string) (lines : list string)
    (m : string) : Prop :=
  ∃ before line after,
    lines = (before ++ line :: after)%list
    ∧ m = fmt (Z.of_nat (length before) + 1) (join nl (window r before line after)).

(** The two renderings of a match. *)
Definition fmt_inline (lineNumber : Z) (context : string) : string :=
  "Line " +:+ show_int lineNumber +:+ ": " +:+ context.
Definition fmt_block (lineNumber : Z) (context : string) : string :=
  "Line " +:+ show_int lineNumber +:+ ":" +:+ nl +:+ context.

(** Number of file entries of a reported tree whose lower-cased
    extension is [ext]. *)
Fixpoint files_with (ext : string) (n : RepoManagement.Node) : Z :=
  match n with
  | RepoManagement.mkNode item _ children =>
      (if String.eqb (item_type item) "file"
          && String.eqb (toLowerCase (RepoManagement.extname (item_name item))) ext
       then 1 else 0)
      + match children with
        | Some cs =>
            (fix total (l : list RepoManagement.Node) : Z :=
               match l with
               | [] => 0
               | c :: r => files_with ext c + total r
               end) cs
        | None => 0
        end
  end.

Fixpoint files_with_all (ext : string) (l : list RepoManagement.Node) : Z :=
  match l with
  | [] => 0
  | c :: r => files_with ext c + files_with_all ext r
  end.

(** Number of file entries of a reported tree, whatever their
    extension. *)
Fixpoint file_entries (n : RepoManagement.Node) : Z :=
  match n with
  | RepoManagement.mkNode item _ children =>
      (if String.eqb (item_type item) "file" then 1 else 0)
      + match children with
        | Some cs =>
            (fix total (l : list RepoManagement.Node) : Z :=
               match l with
               | [] => 0
               | c :: r => file_entries c + total r
               end) cs
        | None => 0
        end
  end.

Fixpoint file_entries_all (l : list RepoManagement.Node) : Z :=
  match l with
  | [] => 0
  | c :: r => file_entries c + file_entries_all r
  end.

(** Sum of the tallies of a histogram. *)
Definition tallies (counts : gmap string Z) : Z :=
  map_fold (λ _ n acc, n + acc) 0 counts.

(** The names of all the entries of a reported tree are ASCII. *)
Fixpoint ascii_names (n : RepoManagement.Node) : bool :=
  match n with
  | RepoManagement.mkNode item _ children =>
      ascii_text (item_name item)
      && match children with
         | Some cs =>
             (fix all (l : list RepoManagement.Node) : bool :=
                match l with
                | [] => true
                | c :: r => ascii_names c && all r
                end) cs
         | None => true
         end
  end.

Fixpoint ascii_names_all (l : list RepoManagement.Node) : bool :=
  match l with
  | [] => true
  | c :: r => ascii_names c && ascii_names_all r
  end.

(** The members of an entry of the reported tree. *)
Definition node_item (n : RepoManagement.Node) : Item :=
  match n with RepoManagement.mkNode item _ _ => item end.
Definition node_path (n : RepoManagement.Node) : string :=
  match n with RepoManagement.mkNode _ path _ => path end.
Definition node_children (n : RepoManagement.Node)
  : option (list RepoManagement.Node) :=
  match n with RepoManagement.mkNode _ _ children => children end.

(** A text without the character [/]. *)
Definition slash_free (s : string) : Prop :=
  Forall (λ c, RepoManagement.not_slash c = true) (chars s).

(** The paths of the expanded directories of a reported tree whose
    lower-cased name passes [test], the directories inside a directory
    before the directory itself. *)
Fixpoint marked (test : string → bool) (n : RepoManagement.Node) : list string :=
  match n with
  | RepoManagement.mkNode item path children =>
      (match children with
       | Some cs =>
           (fix all (l : list RepoManagement.Node) : list string :=
              match l with
              | [] => []
              | c :: r => marked test c ++ all r
              end) cs
       | None => []
       end
       ++ (if RepoManagement.shouldExpand item && test (toLowerCase (item_name item))
           then [path] else []))%list
  end.

Fixpoint marked_all (test : string → bool) (l : list RepoManagement.Node)
  : list string :=
  match l with
  | [] => []
  | c :: r => (marked test c ++ marked_all test r)%list
  end.

(** The reset time printed for the header [X-RateLimit-Reset]. *)
Definition reset_text (env : Env) (reset : option string) : string :=
  match reset with
  | Some t =>
      if truthy t
      then Date_toLocaleTimeString env (option_map (λ n, n * 1000) (parseInt t))
      else "unknown"
  | None => "unknown"
  end.

(** The message of the error thrown for a response with status 403. *)
Definition rate_limit_message (env : Env) (remaining reset : option string) : string :=
  "Failed to fetch from GitHub: GitHub API rate limit exceeded. Remaining: "
  +:+ show_nullable remaining +:+ ". Resets at: " +:+ reset_text env reset
  +:+ ". "
  +:+ (if truthy (github_apiKey (loadConfig env))
       then "Authenticated"
       else "Consider adding a GitHub API key to config.json for higher rate limits").

(** The request [fetchGitHubContent] sends for a path of a repository
    at a branch. *)
Definition request_for (env : Env) (repo path branch : string) : Request :=
  {| url :=
       "https://api.github.com/repos/" +:+ repo +:+ "/contents/" +:+ path
       +:+ "?ref=" +:+ branch;
     headers :=
       ([("Accept", "application/vnd.github.v3+json");
         ("User-Agent", "MCP-Docs-Server/1.0.0")]
        ++ (if truthy (github_apiKey (loadConfig env))
            then [("Authorization", "token " +:+ github_apiKey (loadConfig env))]
            else []))%list |}.

(** The path reached from [path] through the entries named [names], one
    level each. *)
Definition descend (path : string) (names : list string) : string :=
  fold_left (λ p n, if truthy p then p +:+ "/" +:+ n else n) names path.

(** The environment with another remote. *)
Definition with_remote (env : Env) (f : Request → FetchResult) : Env :=
  {| config_json := config_json env;
     repodata_json := repodata_json env;
     repodata_keys := repodata_keys env;
     fetch := f;
     local_doc_files := local_doc_files env;
     local_doc := local_doc env;
     toLocaleTimeString := toLocaleTimeString env |}.

(** A line in which a query is found, letter case apart. *)
Definition found_in (query line : string) : bool :=
  includes (toLowerCase line) (toLowerCase query).

(** The remote lists each of [names] as a directory, one inside the
    other, starting in [path]. *)
Fixpoint listed_dirs (env : Env) (repo branch path : string) (names : list string)
  : Prop :=
  match names with
  | [] => True
  | n :: rest =>
      (∃ contents,
         fetchGitHubContent env repo path branch = Returned (JArray contents)
         ∧ In {| item_name := n; item_type := "dir" |} contents)
      ∧ listed_dirs env repo branch
          (if truthy path then path +:+ "/" +:+ n else n) rest
  end.

(** A character [Buffer.from] reads in a base64 string: a digit of one
    of the two alphabets, or the padding character. *)
Definition base64_read (c : ascii) : bool :=
  match Buffer.unbase64 c with
  | Some _ => true
  | None => Buffer.is_pad c
  end.

(** A text: the string of a sequence of Unicode scalar values. *)
Definition is_text (s : string) : Prop :=
  ∃ cps, Forall (λ cp, Buffer.is_scalar cp = true) cps
         ∧ s = Buffer.of_code_points cps.

End Spec.

(** ** Concrete documents, registries and remotes *)

Module Scenario.
Import JS Shared.

Definition offline : Request → FetchResult := λ _, NetworkError "fetch failed".

(** An environment with an empty registry and no remote. *)
Definition bare : Env :=
  {| config_json := None;
     repodata_json := Some ∅;
     repodata_keys := [];
     fetch := offline;
     local_doc_files := λ _, None;
     local_doc := λ _ _, None;
     toLocaleTimeString := λ ms, "t=" +:+ show_int ms |}.

Definition with_fetch (f : Request → FetchResult) : Env :=
  {| config_json := None;
     repodata_json := Some ∅;
     repodata_keys := [];
     fetch := f;
     local_doc_files := λ _, None;
     local_doc := λ _ _, None;
     toLocaleTimeString := λ ms, "t=" +:+ show_int ms |}.

Definition with_doc (content : string) : Env :=
  {| config_json := None;
     repodata_json := Some ∅;
     repodata_keys := [];
     fetch := offline;
     local_doc_files := λ _, None;
     local_doc := λ _ _, Some content;
     toLocaleTimeString := λ ms, "t=" +:+ show_int ms |}.

(** The arguments of scenario A, with a key of choice. *)
Definition zod_args (key : string) : RepoManagement.AddArgs :=
  {| RepoManagement.arg_key := key;
     RepoManagement.arg_name := "Zod";
     RepoManagement.arg_description := "d";
     RepoManagement.arg_repo := "colinhacks/zod";
     RepoManagement.arg_mainBranch := "main";
     RepoManagement.arg_srcPaths := ["packages/zod/src"];
     RepoManagement.arg_examplePaths := ["packages/docs/examples"];
     RepoManagement.arg_docsRepo := None;
     RepoManagement.arg_docsBranch := None;
     RepoManagement.arg_docsPaths := None |}.

Definition zod : RepoConfig := RepoManagement.newRepo (zod_args "zod").

Definition with_zod (f : Request → FetchResult) : Env :=
  {| config_json := None;
     repodata_json := Some {[ "zod" := zod ]};
     repodata_keys := ["zod"];
     fetch := f;
     local_doc_files := λ _, None;
     local_doc := λ _ _, None;
     toLocaleTimeString := λ ms, "t=" +:+ show_int ms |}.

(** Two headings with the same lower-cased text. *)
Definition twice : string := join nl ["# Foo"; "one"; "## foo"; "two"].

(** A heading whose text is white space. *)
Definition blank_heading : string := join nl ["#  "; "lost"].

(** A heading whose anchor is the lower-cased text of another one. *)
Definition crossed : string := join nl ["# A B"; "text"; "## a-b"; "more"].

(** A response with status 403 and the given rate-limit headers. *)
Definition forbidden (remaining reset : option string) : Response :=
  {| status := 403;
     statusText := "Forbidden";
     headers_get := λ h,
       if String.eqb h "X-RateLimit-Remaining" then remaining
       else if String.eqb h "X-RateLimit-Reset" then reset
       else None;
     json := Returned JOther |}.

Definition five_lines : list string := ["a"; "b"; "x"; "d"; "e"].

(** A response with status 200 and the given body. *)
Definition success (j : Json) : Response :=
  {| status := 200;
     statusText := "OK";
     headers_get := λ _, None;
     json := Returned j |}.

Definition contents_url (repo path branch : string) : string :=
  "https://api.github.com/repos/" +:+ repo +:+ "/contents/" +:+ path
  +:+ "?ref=" +:+ branch.

(** Twenty source files [f0.ts] ... [f19.ts]. *)
Definition twenty_files : list Item :=
  map (λ i, {| item_name := "f" +:+ show_int (Z.of_nat i) +:+ ".ts";
               item_type := "file" |})
    (seq 0 20).

(** A repository with two directories [a] and [b] of twenty source
    files each. *)
Definition two_dirs (r : Request) : FetchResult :=
  if String.eqb (url r) (contents_url "colinhacks/zod" "a" "main")
     || String.eqb (url r) (contents_url "colinhacks/zod" "b" "main")
  then Responded (success (JArray twenty_files))
  else NetworkError "fetch failed".

(** What [search-source] reads from the entry of [zod]. *)
Definition zod_view : RepoTools.ConfigView :=
  {| RepoTools.v_name := Some "Zod";
     RepoTools.v_github := Some "https://github.com/colinhacks/zod";
     RepoTools.v_repo := Some "colinhacks/zod";
     RepoTools.v_mainBranch := Some "main";
     RepoTools.v_srcPaths := Some ["packages/zod/src"] |}.

(** Scenario D: a directory [examples] at the root that holds the file
    [demo.tsx]. *)
Definition examples_tree (r : Request) : FetchResult :=
  if String.eqb (url r) (contents_url "o/r" EmptyString "main")
  then Responded (success (JArray [{| item_name := "examples"; item_type := "dir" |}]))
  else if String.eqb (url r) (contents_url "o/r" "examples" "main")
  then Responded (success (JArray [{| item_name := "demo.tsx"; item_type := "file" |}]))
  else NetworkError "fetch failed".

(** A repository whose directory [src] holds the file [hello.ts] with
    the content "Hi". *)
Definition hello_tree (r : Request) : FetchResult :=
  if String.eqb (url r) (contents_url "o/r" "src" "main")
  then Responded (success (JArray [{| item_name := "hello.ts"; item_type := "file" |}]))
  else if String.eqb (url r) (contents_url "o/r" "src/hello.ts" "main")
  then Responded (success (JFile "file" "base64" "SGk=" 2))
  else NetworkError "fetch failed".

Definition hello_view : RepoTools.ConfigView :=
  {| RepoTools.v_name := Some "Hello";
     RepoTools.v_github := Some "https://github.com/o/r";
     RepoTools.v_repo := Some "o/r";
     RepoTools.v_mainBranch := Some "main";
     RepoTools.v_srcPaths := Some ["src"] |}.

(** Code points of one, two, three and four bytes. *)
Definition sample_text : list Z := [72; 233; 8364; 128512].

End Scenario.

(** * Properties *)

(** ** Strings and characters *)

Module CharFacts.
Import JS.

Lemma chars_of_chars l : chars (of_chars l) = l.
Proof. apply list_ascii_of_string_of_list_ascii. Qed.

Lemma of_chars_chars s : of_chars (chars s) = s.
Proof. apply string_of_list_ascii_of_string. Qed.

Lemma code_bound c : 0 ≤ code c < 256.
Proof. unfold code. pose proof (N_ascii_bounded c). lia. Qed.

Lemma code_char_of z : 0 ≤ z < 256 → code (char_of z) = z.
Proof.
  intros Hz. unfold code, char_of. rewrite N_ascii_embedding by lia. lia.
Qed.

Lemma chars_toLowerCase s : chars (toLowerCase s) = map lower_char (chars s).
Proof.
  induction s as [|c s IH]; [reflexivity |]. cbn. f_equal. exact IH.
Qed.

Lemma append_nil s : EmptyString +:+ s = s.
Proof. reflexivity. Qed.

Lemma append_cons c s t : String c s +:+ t = String c (s +:+ t).
Proof. reflexivity. Qed.

Lemma chars_append s t : chars (s +:+ t) = (chars s ++ chars t)%list.
Proof.
  induction s as [|c s IH]; [reflexivity |].
  rewrite append_cons. cbn [chars list_ascii_of_string app]. f_equal. exact IH.
Qed.

Lemma code_of_char_of bs :
  Forall (λ b, 0 ≤ b < 256) bs → map code (map char_of bs) = bs.
Proof.
  induction 1 as [|b bs Hb _ IH]; [reflexivity |].
  cbn [map]. rewrite IH, code_char_of by exact Hb. reflexivity.
Qed.

End CharFacts.

(** ** The registry add operation *)

Module RegistryFacts.
Import JS Shared RepoManagement.

(** A key already in the registry: the call replies that it exists and
    writes nothing. *)
Lemma add_repository_conflict (env : Env) (a : AddArgs) (c : RepoConfig) :
  loadRepoData env !! arg_key a = Some c →
  add_repository env a
  = {| reply := already_exists (arg_key a); written := [] |}
  ∧ repodata_after env (add_repository env a) = repodata_json env.
Proof.
  intros Hc. unfold add_repository, key_exists, js_get. rewrite Hc.
  split; reflexivity.
Qed.

(** A key that is neither in the registry nor a property name of
    [Object.prototype]: the registry extended with the entry is written,
    whole, and a second call with the key, on the document written, is the
    conflict above. *)
Lemma add_repository_fresh (env : Env) (a : AddArgs) :
  loadRepoData env !! arg_key a = None →
  arg_key a ∉ object_prototype_names →
  let r := add_repository env a in
  written r = [<[arg_key a := newRepo a]> (loadRepoData env)]
  ∧ reply r = added a
  ∧ repodata_after env r = Some (<[arg_key a := newRepo a]> (loadRepoData env))
  ∧ (∀ env',
       repodata_json env' = repodata_after env r →
       loadRepoData env' !! arg_key a = Some (newRepo a)
       ∧ (∀ k, k ≠ arg_key a → loadRepoData env' !! k = loadRepoData env !! k)
       ∧ add_repository env' a
         = {| reply := already_exists (arg_key a); written := [] |}).
Proof.
  intros Hnone Hproto r.
  assert (Hr : r = {| reply := added a;
                      written := [<[arg_key a := newRepo a]> (loadRepoData env)] |}).
  { subst r. unfold add_repository, key_exists, js_get. rewrite Hnone.
    rewrite bool_decide_eq_false_2 by exact Hproto. reflexivity. }
  rewrite Hr. repeat split.
  - unfold loadRepoData at 1. rewrite H. cbn. apply lookup_insert_eq.
  - intros k Hk. unfold loadRepoData at 1. rewrite H. cbn.
    apply lookup_insert_ne. congruence.
  - apply add_repository_conflict with (c := newRepo a).
    unfold loadRepoData at 1. rewrite H. cbn. apply lookup_insert_eq.
Qed.

(** C1 (defect of the code).  On the empty registry, [add-repository]
    with the key "constructor" replies that the key already exists and
    writes nothing, although the registry has no such key: the test
    [currentRepoData[key]] also finds what every object inherits from
    [Object.prototype]. *)
Theorem add_repository_inherited_key :
  loadRepoData Scenario.bare !! "constructor" = None
  ∧ add_repository Scenario.bare (Scenario.zod_args "constructor")
    = {| reply := already_exists "constructor"; written := [] |}.
Proof.
  split; reflexivity.
Qed.

(** Scenario A: on the empty registry the key "zod" is added, and a
    second call, on the document written, is refused. *)
Lemma add_repository_zod :
  let r := add_repository Scenario.bare (Scenario.zod_args "zod") in
  written r = [{[ "zod" := Scenario.zod ]}]
  ∧ add_repository (Scenario.with_zod Scenario.offline) (Scenario.zod_args "zod")
    = {| reply := already_exists "zod"; written := [] |}.
Proof.
  destruct (add_repository_fresh Scenario.bare (Scenario.zod_args "zod"))
    as (Hw & _ & _ & Hagain).
  - reflexivity.
  - vm_compute. intros H. repeat (apply elem_of_cons in H as [H|H]; [discriminate |]).
    inversion H.
  - split; [rewrite Hw; reflexivity |].
    apply (Hagain (Scenario.with_zod Scenario.offline)). reflexivity.
Defined.

End RegistryFacts.

(** ** The markdown section indexer *)

Module SectionFacts.
Import JS Shared DocTools Spec.

(** The key under which the section in progress will be saved, if it
    will be. *)
Lemma toLowerCase_empty s : toLowerCase s = EmptyString → s = EmptyString.
Proof. destruct s; [reflexivity | discriminate]. Qed.

Lemma truthy_toLowerCase s : truthy (toLowerCase s) = truthy s.
Proof. destruct s; reflexivity. Qed.

Lemma heading_key_step st line k :
  heading_key line = Some k →
  section_step st line
  = {| sections := save_section st;
       currentSectionName := currentSectionName (section_step st line);
       sectionContent := [line] |}
    ∧ toLowerCase (currentSectionName (section_step st line)) = k.
Proof.
  unfold heading_key, section_step.
  destruct (headerMatch line) as [[hashes text]|]; [| discriminate].
  intros [= <-]. split; reflexivity.
Qed.

Lemma plain_line_step st line :
  heading_key line = None →
  section_step st line
  = {| sections := sections st;
       currentSectionName := currentSectionName st;
       sectionContent := (sectionContent st ++ [line])%list |}.
Proof.
  unfold heading_key, section_step.
  destruct (headerMatch line) as [[hashes text]|]; [discriminate | reflexivity].
Qed.

(** Lines that are no headings join the section in progress. *)
Lemma plain_lines_fold body :
  Forall (λ l, heading_key l = None) body →
  ∀ st,
    fold_left section_step body st
    = {| sections := sections st;
         currentSectionName := currentSectionName st;
         sectionContent := (sectionContent st ++ body)%list |}.
Proof.
  induction 1 as [|line body Hline _ IH]; intros st; cbn [fold_left].
  - rewrite app_nil_r. destruct st; reflexivity.
  - rewrite IH, (plain_line_step st line Hline). cbn.
    rewrite <- app_assoc. reflexivity.
Qed.

Lemma save_section_kept k v st : kept k v st → save_section st !! k = Some v.
Proof.
  intros [Hk Hname]. unfold save_section.
  destruct (truthy (currentSectionName st)); cbn [andb]; [| exact Hk].
  destruct (0 <? _); [| exact Hk].
  unfold js_set. case_bool_decide; [exact Hk |].
  rewrite lookup_insert_ne; [exact Hk | apply Hname; reflexivity].
Qed.

Lemma section_step_kept k v st line :
  heading_key line ≠ Some k → kept k v st → kept k v (section_step st line).
Proof.
  intros Hline Hkept. unfold heading_key, section_step in *.
  destruct (headerMatch line) as [[hashes text]|].
  - split; cbn [sections currentSectionName].
    + apply save_section_kept, Hkept.
    + intros _ Heq. apply Hline. rewrite Heq. reflexivity.
  - exact Hkept.
Qed.

Lemma fold_kept k v post :
  Forall (λ l, heading_key l ≠ Some k) post →
  ∀ st, kept k v st → kept k v (fold_left section_step post st).
Proof.
  induction 1 as [|line post Hline _ IH]; intros st Hkept; cbn [fold_left].
  - exact Hkept.
  - apply IH, section_step_kept; assumption.
Qed.

(** The section of the last heading with a given key. *)
Lemma section_of_last (content : string) (pre : list string) (h : string)
    (body post : list string) (k : string) :
  split LF content = (pre ++ h :: body ++ post)%list →
  heading_key h = Some k →
  k ≠ EmptyString → k ≠ "__proto__" →
  Forall (λ l, heading_key l = None) body →
  match post with [] => True | next :: _ => heading_key next ≠ None end →
  Forall (λ l, heading_key l ≠ Some k) post →
  js_get (extractMarkdownSections content) k = Own (join nl (h :: body)).
Proof.
  intros Hlines Hh Hk Hproto Hbody Hnext Hpost.
  unfold extractMarkdownSections. rewrite Hlines.
  rewrite fold_left_app. cbn [fold_left]. rewrite fold_left_app.
  set (st0 := fold_left section_step pre no_sections).
  destruct (heading_key_step st0 h k Hh) as [Hstep Hname].
  set (st1 := section_step st0 h) in *.
  rewrite (plain_lines_fold body Hbody st1).
  rewrite Hstep at 3. cbn [sectionContent app].
  set (st2 := {| sections := sections st1;
                 currentSectionName := currentSectionName st1;
                 sectionContent := h :: body |}).
  assert (Hsaved : save_section st2 !! k = Some (join nl (h :: body))).
  { unfold save_section, st2. cbn [currentSectionName sectionContent sections].
    replace (truthy (currentSectionName st1)) with true.
    2:{ rewrite <- truthy_toLowerCase, Hname. destruct k; [contradiction | reflexivity]. }
    cbn [length andb].
    replace (0 <? Z.of_nat (S (length body))) with true
      by (symmetry; apply Z.ltb_lt; lia).
    unfold js_set. rewrite Hname.
    rewrite bool_decide_eq_false_2 by exact Hproto.
    apply lookup_insert_eq. }
  assert (Hfinal : save_section (fold_left section_step post st2) !! k
                   = Some (join nl (h :: body))).
  { destruct post as [|next post'].
    - exact Hsaved.
    - cbn [fold_left]. apply save_section_kept.
      inversion Hpost as [|? ? Hnk Hrest]; subst.
      apply fold_kept; [exact Hrest |].
      destruct (heading_key next) as [k'|] eqn:Hk'; [| contradiction].
      destruct (heading_key_step st2 next k' Hk') as [Hstep' Hname'].
      rewrite Hstep'. split; cbn [sections currentSectionName].
      + exact Hsaved.
      + intros _ Heq. apply Hnk. rewrite <- Heq, Hname'. reflexivity. }
  unfold js_get. rewrite Hfinal. reflexivity.
Qed.

(** The last element of a list with a property. *)
Lemma last_such {A} (P : A → Prop) `{∀ x, Decision (P x)} (l : list A) :
  Exists P l →
  ∃ pre y rest, l = (pre ++ y :: rest)%list ∧ P y ∧ Forall (λ z, ¬ P z) rest.
Proof.
  induction l as [|a l IH]; intros Hex; [inversion Hex |].
  destruct (decide (Exists P l)) as [Hl|Hl].
  - destruct (IH Hl) as (pre & y & rest & -> & Hy & Hrest).
    exists (a :: pre), y, rest. repeat split; assumption.
  - exists [], a, l. repeat split.
    + inversion Hex; [assumption | contradiction].
    + apply Forall_Exists_neg, Hl.
Qed.

(** The lines up to the next heading. *)
Lemma until_heading (l : list string) :
  ∃ body post,
    l = (body ++ post)%list
    ∧ Forall (λ x, heading_key x = None) body
    ∧ match post with [] => True | next :: _ => heading_key next ≠ None end.
Proof.
  induction l as [|x l (body & post & -> & Hbody & Hpost)].
  - exists [], []. repeat split. constructor.
  - destruct (heading_key x) as [k|] eqn:Hx.
    + exists [], (x :: body ++ post)%list. repeat split; [constructor |].
      rewrite Hx. discriminate.
    + exists (x :: body), post. repeat split; [constructor |]; assumption.
Qed.




End SectionFacts.

(** ** Anchors and section keys *)

Module AnchorFacts.
Import JS Shared DocTools Spec CharFacts.

Ltac char_classes :=
  unfold anchor_char, is_space, is_lower, is_upper, is_digit in *;
  repeat match goal with
         | c : ascii |- _ =>
             lazymatch goal with
             | H : 0 ≤ code c < 256 |- _ => fail
             | _ => pose proof (code_bound c)
             end
         end;
  lia.

Lemma is_space_lower_char c : is_space (lower_char c) = is_space c.
Proof.
  unfold lower_char. destruct (is_upper c) eqn:Hup; [| reflexivity].
  assert (65 ≤ code c ≤ 90) by char_classes.
  unfold is_space. rewrite code_char_of by lia. lia.
Qed.

Lemma anchor_char_not_space c : anchor_char c = true → is_space c = false.
Proof. intros H. char_classes. Qed.

Lemma anchor_char_lower c : anchor_char c = true → lower_char c = c.
Proof.
  intros H. unfold lower_char.
  replace (is_upper c) with false; [reflexivity |]. symmetry. char_classes.
Qed.

Lemma anchor_char_not_hash c : anchor_char c = true → c ≠ "#"%char.
Proof. intros H ->. discriminate H. Qed.

(** *** Anchors *)

Lemma hyphenate_anchor_chars cs :
  Forall (λ c, is_lower c || is_digit c || is_space c || (code c =? 45) = true) cs →
  ∀ in_run, Forall (λ c, anchor_char c = true) (hyphenate in_run cs).
Proof.
  induction 1 as [|c cs Hc _ IH]; intros in_run; cbn [hyphenate]; [constructor |].
  destruct (is_space c) eqn:Hsp.
  - destruct in_run; [apply IH |]. constructor; [reflexivity | apply IH].
  - constructor; [| apply IH]. char_classes.
Qed.

Lemma anchor_of_chars title :
  Forall (λ c, anchor_char c = true) (chars (anchor_of title)).
Proof.
  unfold anchor_of. rewrite chars_of_chars. apply hyphenate_anchor_chars.
  unfold strip_non_anchor. rewrite chars_of_chars.
  apply Forall_forall. intros c Hc. apply list_elem_of_filter in Hc as [Hc _].
  exact Hc.
Qed.

Lemma toLowerCase_anchor title : toLowerCase (anchor_of title) = anchor_of title.
Proof.
  rewrite <- (of_chars_chars (toLowerCase (anchor_of title))), chars_toLowerCase.
  rewrite <- (of_chars_chars (anchor_of title)) at 2. f_equal.
  pose proof (anchor_of_chars title) as H.
  induction H as [|c cs Hc _ IH]; [reflexivity |].
  cbn [map]. rewrite anchor_char_lower by exact Hc. f_equal. exact IH.
Qed.

(** A title with white space differs, lower-cased, from its anchor. *)
Lemma anchor_differs_on_white_space title :
  Exists (λ c, is_space c = true) (chars title) →
  toLowerCase title ≠ anchor_of title.
Proof.
  intros Hsp Heq.
  assert (Hex : Exists (λ c, is_space c = true) (chars (toLowerCase title))).
  { rewrite chars_toLowerCase. apply Exists_exists in Hsp as (c & Hin & Hc).
    apply Exists_exists. exists (lower_char c). split.
    - apply list_elem_of_In, in_map, list_elem_of_In, Hin.
    - rewrite is_space_lower_char. exact Hc. }
  rewrite Heq in Hex. apply Exists_exists in Hex as (c & Hin & Hc).
  pose proof (anchor_of_chars title) as Hall. rewrite Forall_forall in Hall.
  apply Hall, anchor_char_not_space in Hin. congruence.
Qed.

(** Of the names inherited from [Object.prototype], an anchor can only
    be "constructor". *)
Lemma anchor_inherited title :
  anchor_of title ∈ object_prototype_names → anchor_of title = "constructor".
Proof.
  intros Hin.
  assert (Hall : forallb anchor_char (chars (anchor_of title)) = true).
  { apply forallb_forall. intros c Hc.
    pose proof (anchor_of_chars title) as H. rewrite Forall_forall in H.
    apply H, list_elem_of_In, Hc. }
  unfold object_prototype_names in Hin.
  repeat (apply elem_of_cons in Hin as [Hin|Hin];
          [first [exact Hin | rewrite Hin in Hall; discriminate Hall] |]).
  inversion Hin.
Qed.

(** *** Splitting the argument of [get-doc] *)

Lemma includes_char_false sep s :
  Forall (λ c, c ≠ sep) (chars s) → includes s (String sep EmptyString) = false.
Proof.
  induction s as [|c s IH]; intros H; [reflexivity |].
  cbn in H. apply Forall_cons in H as [Hc Hs].
  cbn [includes startsWith]. rewrite (IH Hs).
  destruct (Ascii.eqb_spec sep c); [congruence | reflexivity].
Qed.

Lemma includes_append_sep sep s t :
  includes (s +:+ String sep t) (String sep EmptyString) = true.
Proof.
  induction s as [|c s IH]; rewrite ?append_nil, ?append_cons;
    cbn [includes startsWith].
  - rewrite Ascii.eqb_refl. destruct t; reflexivity.
  - rewrite IH. apply orb_true_r.
Qed.

Lemma split_no_sep sep s :
  includes s (String sep EmptyString) = false → split sep s = [s].
Proof.
  induction s as [|c s IH]; intros H; [reflexivity |].
  cbn [includes startsWith] in H. apply orb_false_elim in H as [Hc Hs].
  cbn [split]. rewrite (IH Hs).
  destruct (Ascii.eqb_spec c sep) as [->|]; [| reflexivity].
  rewrite Ascii.eqb_refl in Hc. destruct s; discriminate.
Qed.

Lemma split_append sep s t :
  includes s (String sep EmptyString) = false →
  split sep (s +:+ String sep t) = s :: split sep t.
Proof.
  induction s as [|c s IH]; intros H; rewrite ?append_nil, ?append_cons;
    cbn [split].
  - rewrite Ascii.eqb_refl. reflexivity.
  - cbn [includes startsWith] in H. apply orb_false_elim in H as [Hc Hs].
    rewrite (IH Hs).
    destruct (Ascii.eqb_spec c sep) as [->|]; [| reflexivity].
    rewrite Ascii.eqb_refl in Hc. destruct s; discriminate.
Qed.

(** *** Keys of the section map *)

Lemma indexed_more seen more st : indexed seen st → indexed (seen ++ more) st.
Proof.
  intros [Hkeys Hname]. split.
  - intros k v Hk. destruct (Hkeys k v Hk) as (l & Hl & Hkey).
    exists l. split; [apply in_or_app; left |]; assumption.
  - intros Ht. destruct (Hname Ht) as (l & Hl & Hkey).
    exists l. split; [apply in_or_app; left |]; assumption.
Qed.

Lemma save_section_indexed seen st k v :
  indexed seen st → save_section st !! k = Some v →
  ∃ l, In l seen ∧ heading_key l = Some k.
Proof.
  intros [Hkeys Hname] Hk. unfold save_section in Hk.
  destruct (truthy (currentSectionName st)) eqn:Ht; cbn [andb] in Hk;
    [| exact (Hkeys k v Hk)].
  destruct (0 <? _); [| exact (Hkeys k v Hk)].
  unfold js_set in Hk. case_bool_decide; [exact (Hkeys k v Hk) |].
  destruct (decide (toLowerCase (currentSectionName st) = k)) as [<-|Hne].
  - apply Hname. reflexivity.
  - rewrite lookup_insert_ne in Hk by exact Hne. exact (Hkeys k v Hk).
Qed.

Lemma section_step_indexed seen st line :
  indexed seen st → indexed (seen ++ [line]) (section_step st line).
Proof.
  intros Hst. unfold section_step.
  destruct (headerMatch line) as [[hashes text]|] eqn:Hm.
  - split; cbn [sections currentSectionName].
    + intros k v Hk.
      destruct (save_section_indexed seen st k v Hst Hk) as (l & Hl & Hkey).
      exists l. split; [apply in_or_app; left |]; assumption.
    + intros _. exists line. split; [apply in_or_app; right; left; reflexivity |].
      unfold heading_key. rewrite Hm. reflexivity.
  - apply (indexed_more seen [line]) in Hst. exact Hst.
Qed.

Lemma fold_indexed lines :
  ∀ seen st, indexed seen st →
    indexed (seen ++ lines) (fold_left section_step lines st).
Proof.
  induction lines as [|line lines IH]; intros seen st Hst; cbn [fold_left].
  - rewrite app_nil_r. exact Hst.
  - replace (seen ++ line :: lines)%list with ((seen ++ [line]) ++ lines)%list
      by (rewrite <- app_assoc; reflexivity).
    apply IH, section_step_indexed, Hst.
Qed.

(** Every key of the section map is the lower-cased text of a heading
    line of the content. *)
Lemma section_keys content k v :
  extractMarkdownSections content !! k = Some v →
  ∃ l, In l (split LF content) ∧ heading_key l = Some k.
Proof.
  unfold extractMarkdownSections. intros Hk.
  eapply (save_section_indexed (split LF content)); [| exact Hk].
  apply (fold_indexed (split LF content) [] no_sections).
  split.
  - intros k' v' H. cbn in H. rewrite lookup_empty in H. discriminate.
  - discriminate.
Qed.

(** The headers listed are those of the heading lines. *)
Lemma header_of_heading content l k :
  In l (split LF content) → heading_key l = Some k →
  ∃ hdr, In hdr (findSectionHeaders content) ∧ toLowerCase (title hdr) = k.
Proof.
  intros Hl Hk. unfold heading_key in Hk.
  destruct (headerMatch l) as [[hashes text]|] eqn:Hm; [| discriminate].
  injection Hk as <-.
  exists {| level := Z.of_nat (String.length hashes); title := trim text;
            anchor := anchor_of (trim text) |}.
  split; [| reflexivity].
  unfold findSectionHeaders. apply in_flat_map. exists l.
  split; [exact Hl |]. rewrite Hm. left. reflexivity.
Qed.

Lemma header_anchor content hdr :
  In hdr (findSectionHeaders content) → anchor hdr = anchor_of (title hdr).
Proof.
  unfold findSectionHeaders. intros H.
  apply in_flat_map in H as (l & _ & H).
  destruct (headerMatch l) as [[hashes text]|]; [| destruct H].
  destruct H as [<-|[]]. reflexivity.
Qed.




End AnchorFacts.

(** ** Rate-limit errors of the gateway *)

Module GatewayFacts.
Import JS Shared Spec.

(** A response with status 403 makes [fetchGitHubContent] throw the
    rate-limit error, with what the two headers give. *)
Lemma fetchGitHubContent_forbidden (env : Env) (repo path branch : string)
    (response : Response) :
  (∀ request, fetch env request = Responded response) →
  status response = 403 →
  fetchGitHubContent env repo path branch
  = Thrown (rate_limit_message env
              (headers_get response "X-RateLimit-Remaining")
              (headers_get response "X-RateLimit-Reset")).
Proof.
  intros Hfetch Hstatus. unfold fetchGitHubContent. rewrite Hfetch.
  unfold fetch_try, ok. rewrite Hstatus. cbn [Z.leb Z.compare andb negb Z.eqb Pos.eqb].
  reflexivity.
Qed.

(** [browse-repo] on a configured library surfaces that error. *)
Lemma browse_repo_forbidden (env : Env) (library requestedPath : string)
    (config : RepoConfig) (response : Response) :
  loadRepoData env !! library = Some config →
  (∀ request, fetch env request = Responded response) →
  status response = 403 →
  RepoTools.browse_repo env library requestedPath
  = "Error browsing repository: "
    +:+ rate_limit_message env
          (headers_get response "X-RateLimit-Remaining")
          (headers_get response "X-RateLimit-Reset").
Proof.
  intros Hconfig Hfetch Hstatus. unfold RepoTools.browse_repo, js_get.
  rewrite Hconfig. cbn [RepoTools.view_of]. unfold RepoTools.fetch_for.
  rewrite (fetchGitHubContent_forbidden env _ _ _ response Hfetch Hstatus).
  reflexivity.
Qed.

(** Scenario C: with the headers [X-RateLimit-Remaining: 0] and
    [X-RateLimit-Reset: 1700000000], the reply of [browse-repo] names the
    rate limit and the local time of 1700000000000 ms. *)
Lemma browse_repo_scenario_C (env : Env) (library requestedPath : string)
    (config : RepoConfig) :
  loadRepoData env !! library = Some config →
  (∀ request,
     fetch env request
     = Responded (Scenario.forbidden (Some "0") (Some "1700000000"))) →
  RepoTools.browse_repo env library requestedPath
  = "Error browsing repository: Failed to fetch from GitHub: GitHub API rate limit exceeded. Remaining: 0. Resets at: "
    +:+ toLocaleTimeString env 1700000000000 +:+ ". "
    +:+ (if truthy (github_apiKey (loadConfig env))
         then "Authenticated"
         else "Consider adding a GitHub API key to config.json for higher rate limits").
Proof.
  intros Hconfig Hfetch.
  rewrite (browse_repo_forbidden env library requestedPath config _ Hconfig Hfetch eq_refl).
  reflexivity.
Qed.

(** C4 (defect of the code).  On a response with status 403 that has
    no header [X-RateLimit-Remaining], the remaining quota of the error is
    printed as "null", not as "unknown"; the reset time, which has the
    fallback, is "unknown" when its header is missing. *)
Theorem rate_limit_remaining_null :
  RepoTools.browse_repo
    (Scenario.with_zod (λ _, Responded (Scenario.forbidden None None)))
    "zod" EmptyString
  = "Error browsing repository: Failed to fetch from GitHub: GitHub API rate limit exceeded. Remaining: null. Resets at: unknown. Consider adding a GitHub API key to config.json for higher rate limits".
Proof.
  vm_compute. reflexivity.
Qed.

End GatewayFacts.

(** ** Context windows of the keyword searches *)

Module SearchFacts.
Import JS Shared Spec.

(** The slice taken around index [length before] is the window of
    radius [r]. *)
Lemma slice_window (r : nat) (before : list string) (line : string)
    (after : list string) :
  let lines := (before ++ line :: after)%list in
  let index := Z.of_nat (length before) in
  slice lines (Z.max 0 (index - Z.of_nat r))
    (Z.min (Z.of_nat (length lines) - 1) (index + Z.of_nat r) + 1)
  = window r before line after.
Proof.
  cbv zeta. unfold slice, window.
  rewrite length_app. cbn [length].
  set (b := length before). set (a := length after).
  destruct (Z.ltb_spec (Z.max 0 (Z.of_nat b - Z.of_nat r)) 0); [lia |].
  destruct (Z.ltb_spec
              (Z.min (Z.of_nat (b + S a) - 1) (Z.of_nat b + Z.of_nat r) + 1) 0);
    [lia |].
  replace (Z.to_nat (Z.min (Z.max 0 (Z.of_nat b - Z.of_nat r)) (Z.of_nat (b + S a))))
    with (b - r)%nat by lia.
  rewrite drop_app_le by (subst b; lia).
  replace (Z.to_nat _)
    with (length (drop (b - r) before) + S (Nat.min r a))%nat
    by (rewrite length_drop; subst b a; lia).
  rewrite take_app_add' by reflexivity.
  cbn [take]. f_equal. f_equal.
  destruct (Nat.le_ge_cases r a) as [Hle|Hge].
  - rewrite Nat.min_l by exact Hle. reflexivity.
  - rewrite Nat.min_r by exact Hge.
    rewrite !take_ge by (subst a; lia). reflexivity.
Qed.

(** A loop that pushes, for every matching line, the rendering of the
    slice of radius [r] around it, collects the windows of the
    specification. *)
Lemma forEach_push_windows (r : nat) (fmt : Z → string → string) (query : string)
    (lines after : list string) :
  ∀ before,
    lines = (before ++ after)%list →
    DocTools.forEach_push
      (λ line index,
         if includes (toLowerCase line) (toLowerCase query) then
           let start := Z.max 0 (index - Z.of_nat r) in
           let stop := Z.min (Z.of_nat (length lines) - 1) (index + Z.of_nat r) in
           [fmt (index + 1) (join nl (slice lines start (stop + 1)))]
         else [])
      after (Z.of_nat (length before))
    = windows r fmt query before after.
Proof.
  induction after as [|line rest IH]; intros before Hlines; [reflexivity |].
  cbn [DocTools.forEach_push windows]. f_equal.
  - destruct (includes _ _); [| reflexivity].
    cbv zeta. rewrite Hlines, (slice_window r before line rest). reflexivity.
  - rewrite <- (IH (before ++ [line])%list)
      by (rewrite <- app_assoc; exact Hlines).
    rewrite length_app. cbn [length].
    replace (Z.of_nat (length before + 1)) with (Z.of_nat (length before) + 1) by lia.
    reflexivity.
Qed.

(** Every window collected is that of a line of the content. *)
Lemma windows_framed (r : nat) (fmt : Z → string → string) (query : string)
    (after : list string) :
  ∀ before m,
    In m (windows r fmt query before after) →
    framed r fmt (before ++ after) m.
Proof.
  induction after as [|line rest IH]; intros before m; [intros [] |].
  cbn [windows]. intros Hm. apply in_app_or in Hm as [Hm | Hm].
  - destruct (includes _ _); [| destruct Hm]. destruct Hm as [<- | []].
    exists before, line, rest. split; reflexivity.
  - apply IH in Hm. rewrite <- app_assoc in Hm. exact Hm.
Qed.

Lemma slice_subset {A} (l : list A) a b x : In x (slice l a b) → In x l.
Proof.
  unfold slice. intros H. apply list_elem_of_In in H. apply list_elem_of_In.
  eapply elem_of_sublist; [exact H |].
  etransitivity; [apply sublist_take | apply sublist_drop].
Qed.

(** The three loops collect the windows of the specification. *)
Lemma loops_windows (query : string) (lines : list string) :
  DocTools.doc_matches lines query = windows 1 fmt_inline query [] lines
  ∧ RepoTools.source_matches lines query = windows 1 fmt_inline query [] lines
  ∧ ExampleTools.example_matches lines query = windows 2 fmt_block query [] lines.
Proof.
  repeat split.
  - exact (forEach_push_windows 1 fmt_inline query lines lines [] eq_refl).
  - exact (forEach_push_windows 1 fmt_inline query lines lines [] eq_refl).
  - exact (forEach_push_windows 2 fmt_block query lines lines [] eq_refl).
Qed.




End SearchFacts.

(** ** Limits of the repository searches *)

Module LimitFacts.
Import JS Shared.

Lemma length_slice_prefix {A} (l : list A) (k : Z) :
  0 ≤ k → Z.of_nat (length (slice l 0 k)) ≤ k.
Proof.
  intros Hk. unfold slice.
  destruct (Z.ltb_spec 0 0); [lia |].
  destruct (Z.ltb_spec k 0); [lia |].
  rewrite length_take, length_drop. lia.
Qed.

Lemma length_flat_map_bound {A B} (f : A → list B) (l : list A) (k : Z) :
  (∀ x, Z.of_nat (length (f x)) ≤ k) →
  Z.of_nat (length (flat_map f l)) ≤ k * Z.of_nat (length l).
Proof.
  intros Hf. induction l as [|x l IH]; cbn [flat_map length]; [lia |].
  rewrite length_app. specialize (Hf x). lia.
Qed.

(** C6, as the code has it.  The cap on the files fetched holds for
    each search path, not for the call: [search-source] fetches at most 20
    candidate files for each of its search paths, and the search of the
    repository examples at most 15 for each example path.  A result keeps
    at most 5 matches of a file in [search-source] and at most 3 in the
    search of the examples. *)
Theorem search_limits (env : Env) (query : string) :
  (∀ config searchPaths,
     let log := RepoTools.search_source_log env config query searchPaths in
     Z.of_nat (length (RepoTools.fetched log)) ≤ 20 * Z.of_nat (length searchPaths)
     ∧ ∀ result, In result (RepoTools.results log) →
                 Z.of_nat (length (RepoTools.matches result)) ≤ 5)
  ∧ (∀ repo branch examplePaths,
       let log :=
         ExampleTools.searchRepoExamples_log env repo branch examplePaths query in
       Z.of_nat (length (RepoTools.fetched log)) ≤ 15 * Z.of_nat (length examplePaths)
       ∧ ∀ result, In result (RepoTools.results log) →
                   Z.of_nat (length (ExampleTools.matches result)) ≤ 3).
Proof.
  split.
  - intros config searchPaths log. split.
    + unfold RepoTools.fetched. rewrite length_map. subst log.
      apply length_flat_map_bound. intros searchPath.
      rewrite length_map. apply length_slice_prefix. lia.
    + intros result Hin. unfold RepoTools.results in Hin.
      apply list_elem_of_In, list_elem_of_omap in Hin as ([file o] & Hin & Ho).
      cbn [snd] in Ho. subst o log.
      apply list_elem_of_In, in_flat_map in Hin as (searchPath & _ & Hin).
      apply in_map_iff in Hin as (file' & Heq & _).
      injection Heq as -> Hres. unfold RepoTools.search_file in Hres.
      destruct (RepoTools.fetch_for env config file)
        as [[|type encoding content size|]|]; try discriminate.
      destruct (_ && _); [| discriminate].
      destruct (decodeGitHubContent content) as [fileContent|]; [| discriminate].
      destruct (0 <? _); [| discriminate].
      injection Hres as <-. cbn [RepoTools.matches].
      apply length_slice_prefix. lia.
  - intros repo branch examplePaths log. split.
    + unfold RepoTools.fetched. rewrite length_map. subst log.
      apply length_flat_map_bound. intros examplePath.
      rewrite length_map. apply length_slice_prefix. lia.
    + intros result Hin. unfold RepoTools.results in Hin.
      apply list_elem_of_In, list_elem_of_omap in Hin as ([file o] & Hin & Ho).
      cbn [snd] in Ho. subst o log.
      apply list_elem_of_In, in_flat_map in Hin as (examplePath & _ & Hin).
      apply in_map_iff in Hin as (file' & Heq & _).
      injection Heq as -> Hres. unfold ExampleTools.search_example_file in Hres.
      destruct (fetchGitHubContent env repo file branch)
        as [[|type encoding content size|]|]; try discriminate.
      destruct (_ && _); [| discriminate].
      destruct (decodeGitHubContent content) as [fileContent|]; [| discriminate].
      destruct (includes _ _); [| discriminate].
      destruct (0 <? _); [| discriminate].
      injection Hres as <-. cbn [ExampleTools.matches].
      apply length_slice_prefix. lia.
Qed.

(** The theorem on one search path of a repository with twenty source
    files in it. *)
Lemma search_limits_witness :
  Z.of_nat
    (length
       (RepoTools.fetched
          (RepoTools.search_source_log (Scenario.with_zod Scenario.two_dirs)
             Scenario.zod_view "x" ["a"])))
  ≤ 20.
Proof.
  exact (proj1 (proj1 (search_limits (Scenario.with_zod Scenario.two_dirs) "x")
                  Scenario.zod_view ["a"])).
Defined.

(** C6 fails as stated: one call of [search-source] with the two search
    paths [a] and [b], of twenty source files each, fetches forty
    files. *)
Lemma search_source_fetches_forty :
  RepoTools.view_of
    (js_get (loadRepoData (Scenario.with_zod Scenario.two_dirs)) "zod")
  = Some Scenario.zod_view
  ∧ length
      (RepoTools.fetched
         (RepoTools.search_source_log (Scenario.with_zod Scenario.two_dirs)
            Scenario.zod_view "x" ["a"; "b"]))
    = 40%nat.
Proof.
  split; vm_compute; reflexivity.
Qed.

End LimitFacts.

(** ** The recursive enumerator *)

Module EnumeratorFacts.
Import JS Shared.

Section Enumerate.
Variable env : Env.
Variables repo branch : string.
Variable fileFilter : string → string → bool.

Lemma collect_entry_ext (f g : string → Z → list string) path maxDepth item :
  (1 < maxDepth → ∀ p, f p (maxDepth - 1) = g p (maxDepth - 1)) →
  collect_entry f fileFilter path maxDepth item
  = collect_entry g fileFilter path maxDepth item.
Proof.
  intros H. unfold collect_entry.
  destruct (_ && _); [reflexivity |].
  destruct (String.eqb _ _); cbn [andb]; [| reflexivity].
  destruct (Z.ltb_spec 1 maxDepth); [apply H; assumption | reflexivity].
Qed.

(** The counter does not matter once it covers the depth. *)
Lemma findFiles_from_stable (n m : nat) :
  ∀ path maxDepth,
    (Z.to_nat maxDepth ≤ n)%nat → (Z.to_nat maxDepth ≤ m)%nat →
    findFiles_from n env repo path branch fileFilter maxDepth
    = findFiles_from m env repo path branch fileFilter maxDepth.
Proof.
  revert m. induction n as [|n IH]; intros [|m] path d Hn Hm; cbn [findFiles_from].
  - reflexivity.
  - destruct (Z.leb_spec d 0); [reflexivity | lia].
  - destruct (Z.leb_spec d 0); [reflexivity | lia].
  - destruct (Z.leb_spec d 0); [reflexivity |].
    destruct (fetchGitHubContent env repo path branch) as [[contents| |]|];
      try reflexivity.
    apply flat_map_ext. intros item.
    apply collect_entry_ext. intros Hd p. apply IH; lia.
Qed.

(** One call of [findFilesRecursively], as the source writes it. *)
Lemma findFilesRecursively_unfold path maxDepth :
  findFilesRecursively env repo path branch fileFilter maxDepth
  = if maxDepth <=? 0 then []
    else
      match fetchGitHubContent env repo path branch with
      | Returned (JArray contents) =>
          flat_map
            (collect_entry
               (λ itemPath depth,
                  findFilesRecursively env repo itemPath branch fileFilter depth)
               fileFilter path maxDepth)
            contents
      | _ => []
      end.
Proof.
  unfold findFilesRecursively at 1.
  destruct (Z.leb_spec maxDepth 0) as [Hle|Hgt].
  - destruct (Z.to_nat maxDepth) eqn:E; cbn [findFiles_from]; [reflexivity |].
    destruct (Z.leb_spec maxDepth 0); [reflexivity | lia].
  - destruct (Z.to_nat maxDepth) as [|n] eqn:E; [lia |].
    cbn [findFiles_from].
    destruct (Z.leb_spec maxDepth 0); [lia |].
    destruct (fetchGitHubContent env repo path branch) as [[contents| |]|];
      try reflexivity.
    apply flat_map_ext. intros item.
    apply collect_entry_ext. intros Hd p.
    unfold findFilesRecursively. apply findFiles_from_stable; lia.
Qed.

End Enumerate.

(** C7. [findFilesRecursively] called with [maxDepth <= 0] returns the
    empty sequence whatever the remote holds.  With a positive
    [maxDepth] it reads one listing (a failure or a body that is no
    listing gives the empty sequence) and takes from each entry: the
    path of a file the predicate accepts; for a directory, the files
    found below it with depth [maxDepth - 1] when [maxDepth > 1], and
    nothing otherwise. *)
Theorem findFilesRecursively_depth (env : Env) (repo path branch : string)
    (fileFilter : string → string → bool) (maxDepth : Z) :
  (maxDepth ≤ 0 →
   findFilesRecursively env repo path branch fileFilter maxDepth = [])
  ∧ (0 < maxDepth →
     findFilesRecursively env repo path branch fileFilter maxDepth
     = match fetchGitHubContent env repo path branch with
       | Returned (JArray contents) =>
           flat_map
             (λ item,
                let itemPath := child_path path item in
                if String.eqb (item_type item) "file"
                   && fileFilter (item_name item) itemPath
                then [itemPath]
                else if String.eqb (item_type item) "dir" && (1 <? maxDepth)
                then findFilesRecursively env repo itemPath branch fileFilter
                       (maxDepth - 1)
                else [])
             contents
       | _ => []
       end).
Proof.
  rewrite findFilesRecursively_unfold.
  split; intros H.
  - destruct (Z.leb_spec maxDepth 0); [reflexivity | lia].
  - destruct (Z.leb_spec maxDepth 0); [lia | reflexivity].
Qed.

(** The theorem at depth 0 and at depth 1 on a repository with two
    directories of source files. *)
Lemma findFilesRecursively_depth_witness :
  findFilesRecursively (Scenario.with_fetch Scenario.two_dirs)
    "colinhacks/zod" "a" "main" (λ f _, isSourceFile f) 0 = []
  ∧ length (findFilesRecursively (Scenario.with_fetch Scenario.two_dirs)
              "colinhacks/zod" "a" "main" (λ f _, isSourceFile f) 1) = 20%nat.
Proof.
  split.
  - apply (proj1 (findFilesRecursively_depth (Scenario.with_fetch Scenario.two_dirs)
                    "colinhacks/zod" "a" "main" (λ f _, isSourceFile f) 0)).
    lia.
  - rewrite (proj2 (findFilesRecursively_depth (Scenario.with_fetch Scenario.two_dirs)
                      "colinhacks/zod" "a" "main" (λ f _, isSourceFile f) 1))
      by lia.
    vm_compute. reflexivity.
Defined.

End EnumeratorFacts.

(** ** The repository structure analyzer *)

Module AnalyzerFacts.
Import JS Shared RepoManagement Spec.

(** *** Counting the file entries of a tree *)

Lemma files_with_node ext item path children :
  files_with ext (mkNode item path children)
  = (if String.eqb (item_type item) "file"
        && String.eqb (toLowerCase (extname (item_name item))) ext
     then 1 else 0)
    + match children with Some cs => files_with_all ext cs | None => 0 end.
Proof.
  cbn [files_with]. f_equal. destruct children as [cs|]; [| reflexivity].
  induction cs as [|c cs IH]; cbn [files_with_all]; [reflexivity |].
  rewrite <- IH. reflexivity.
Qed.

Lemma files_with_all_snoc ext l n :
  files_with_all ext (l ++ [n]) = files_with_all ext l + files_with ext n.
Proof.
  induction l as [|c l IH]; cbn [files_with_all app]; lia.
Qed.

Lemma tally_count_file st item ext :
  default 0 (fileTypeCounts (count_file st item) !! ext)
  = default 0 (fileTypeCounts st !! ext)
    + (if String.eqb (item_type item) "file"
          && String.eqb (toLowerCase (extname (item_name item))) ext
       then 1 else 0).
Proof.
  unfold count_file.
  destruct (String.eqb (item_type item) "file"); cbn [andb fileTypeCounts]; [| lia].
  destruct (String.eqb_spec (toLowerCase (extname (item_name item))) ext) as [->|Hne].
  - rewrite lookup_insert_eq. reflexivity.
  - rewrite lookup_insert_ne by exact Hne. lia.
Qed.

Lemma examplePaths_count_file st item :
  an_examplePaths (count_file st item) = an_examplePaths st.
Proof. unfold count_file. destruct (String.eqb _ _); reflexivity. Qed.

Lemma suggest_examplePaths_mono st item p q :
  q ∈ an_examplePaths st → q ∈ an_examplePaths (suggest st item p).
Proof.
  intros H. unfold suggest; cbn [an_examplePaths].
  destruct (_ || _); [apply elem_of_app; left |]; exact H.
Qed.

Lemma count_file_file st item :
  String.eqb (item_type item) "file" = true →
  count_file st item
  = {| fileTypeCounts :=
         <[toLowerCase (extname (item_name item))
           := default 0 (fileTypeCounts st !! toLowerCase (extname (item_name item))) + 1]>
           (fileTypeCounts st);
       an_srcPaths := an_srcPaths st;
       an_examplePaths := an_examplePaths st;
       an_docsPaths := an_docsPaths st |}.
Proof. intros H. unfold count_file. rewrite H. reflexivity. Qed.

Lemma count_file_other st item :
  String.eqb (item_type item) "file" = false → count_file st item = st.
Proof. intros H. unfold count_file. rewrite H. reflexivity. Qed.

Lemma explore_entry_dir explore dirPath maxDepth result st item :
  shouldExpand item = true →
  explore_entry explore dirPath maxDepth (result, st) item
  = let itemPath := child_path dirPath item in
    let out := explore itemPath (maxDepth - 1) (count_file st item) in
    ((result ++
      [mkNode item itemPath
         (if 0 <? Z.of_nat (length out.1) then Some out.1 else None)])%list,
     suggest out.2 item itemPath).
Proof.
  intros H. unfold explore_entry. rewrite H. cbv zeta.
  destruct (explore _ _ _). reflexivity.
Qed.

Lemma explore_entry_other explore dirPath maxDepth result st item :
  shouldExpand item = false →
  explore_entry explore dirPath maxDepth (result, st) item
  = ((result ++ [mkNode item (child_path dirPath item) None])%list,
     count_file st item).
Proof. intros H. unfold explore_entry. rewrite H. reflexivity. Qed.

(** *** Extensions *)

(** During the scan, a dot recorded stands before the recorded end, at
    a position that holds a dot. *)
Lemma extname_scan_dot (chs : list ascii) (cs : list ascii) :
  ∀ suffix st,
    chs = (rev cs ++ suffix)%list →
    (startDot st = -1
     ∨ (0 ≤ startDot st < end_ st
        ∧ chs !! Z.to_nat (startDot st) = Some "."%char)) →
    (end_ st = -1 ∨ Z.of_nat (length cs) ≤ end_ st) →
    let out := extname_scan cs (Z.of_nat (length cs) - 1) st in
    startDot out = -1
    ∨ (0 ≤ startDot out < end_ out
       ∧ chs !! Z.to_nat (startDot out) = Some "."%char).
Proof.
  induction cs as [|c r IH]; intros suffix st Hchs Hdot Hend; [exact Hdot |].
  cbn [extname_scan length]. cbv zeta.
  replace (Z.of_nat (S (length r)) - 1) with (Z.of_nat (length r)) by lia.
  cbn [rev] in Hchs. rewrite <- app_assoc in Hchs. cbn [app] in Hchs.
  cbn [length] in Hend.
  destruct (code c =? 47).
  - destruct (matchedSlash st); cbn [negb].
    + apply (IH (c :: suffix) st Hchs Hdot). lia.
    + exact Hdot.
  - apply (IH (c :: suffix) _ Hchs).
    + destruct (Z.eqb_spec (end_ st) (-1)) as [He|He];
        destruct (Z.eqb_spec (code c) 46) as [Hc|Hc];
        cbn [startDot end_];
        try (destruct (Z.eqb_spec (startDot st) (-1)) as [Hs|Hs];
             cbn [negb startDot end_]);
        try (left; assumption || lia);
        try (destruct Hdot as [Hdot|[Hr Hl]]; [lia | right; split; [lia | exact Hl]]).
      * right. split; [lia |].
        rewrite Nat2Z.id, Hchs.
        rewrite lookup_app_r by (rewrite length_rev; lia).
        rewrite length_rev, Nat.sub_diag. cbn.
        f_equal. unfold code in Hc.
        rewrite <- (ascii_N_embedding c). replace (N_of_ascii c) with 46%N by lia.
        reflexivity.
      * right. split; [lia |].
        rewrite Nat2Z.id, Hchs.
        rewrite lookup_app_r by (rewrite length_rev; lia).
        rewrite length_rev, Nat.sub_diag. cbn.
        f_equal. unfold code in Hc.
        rewrite <- (ascii_N_embedding c). replace (N_of_ascii c) with 46%N by lia.
        reflexivity.
    + destruct (Z.eqb_spec (end_ st) (-1)) as [He|He];
        destruct (code c =? 46); cbn [startDot end_];
        try (destruct (startDot st =? -1); cbn [negb startDot end_]);
        right; lia.
Qed.

(** An extension is empty or starts with a dot. *)
Lemma extname_shape path :
  extname path = EmptyString ∨ ∃ r, extname path = String "."%char r.
Proof.
  unfold extname.
  set (st0 := {| startDot := -1; startPart := 0; end_ := -1;
                 matchedSlash := true; preDotState := 0 |}).
  pose proof (extname_scan_dot (chars path) (rev (chars path)) [] st0) as H.
  rewrite rev_involutive, app_nil_r in H.
  specialize (H eq_refl (or_introl eq_refl) (or_introl eq_refl)). cbv zeta in H.
  replace (Z.of_nat (length (rev (chars path))))
    with (Z.of_nat (String.length path)) in H.
  2:{ rewrite length_rev. unfold chars. clear. induction path; cbn; [reflexivity | lia]. }
  destruct (extname_scan _ _ st0) as [sd sp en ms pd].
  cbn [startDot end_ preDotState startPart] in *.
  destruct (Z.eqb_spec sd (-1)); [left; reflexivity |].
  destruct H as [H|[Hr Hl]]; [contradiction |].
  destruct (_ || _); [left; reflexivity |]. right.
  unfold slice.
  destruct (Z.ltb_spec sd 0); [lia |]. destruct (Z.ltb_spec en 0); [lia |].
  apply lookup_lt_Some in Hl as Hlt.
  replace (Z.to_nat (Z.min sd (Z.of_nat (length (chars path))))) with (Z.to_nat sd) by lia.
  destruct (drop (Z.to_nat sd) (chars path)) as [|d rest] eqn:Hd.
  - apply (f_equal length) in Hd. rewrite length_drop in Hd. cbn [length] in Hd.
    exfalso. lia.
  - assert (d = "."%char) as ->.
    { pose proof (lookup_drop (chars path) (Z.to_nat sd) 0) as Hx.
      rewrite Hd, Nat.add_0_r, Hl in Hx. cbn in Hx. congruence. }
    destruct (Z.to_nat (Z.max _ 0)) as [|k] eqn:Hk; [exfalso; lia |].
    cbn [take of_chars string_of_list_ascii]. eexists. reflexivity.
Qed.

(** No key of the histogram is a property name inherited from
    [Object.prototype]. *)
Lemma histogram_key_own name :
  toLowerCase (extname name) ∉ object_prototype_names.
Proof.
  destruct (extname_shape name) as [->|[r ->]]; cbn [toLowerCase];
    unfold object_prototype_names; intros Hin;
    repeat (apply elem_of_cons in Hin as [Hin|Hin]; [discriminate Hin |]);
    inversion Hin.
Qed.

(** *** The traversal *)

Section Explore.
Variable env : Env.
Variables repo actualBranch : string.

(** The loop over the entries keeps a property of the accumulated
    pair that each entry keeps. *)
Lemma fold_explore_entry (P : list Node * Analysis → Prop)
    (explore : string → Z → Analysis → list Node * Analysis) dirPath maxDepth :
  (∀ acc item, P acc → P (explore_entry explore dirPath maxDepth acc item)) →
  ∀ items acc, P acc →
    P (fold_left (explore_entry explore dirPath maxDepth) items acc).
Proof.
  intros Hstep items. induction items as [|item items IH]; intros acc Hacc.
  - exact Hacc.
  - cbn [fold_left]. apply IH, Hstep, Hacc.
Qed.

(** The histogram grows by the file entries of the reported tree. *)
Lemma explore_from_tally ext (calls : nat) :
  ∀ dirPath maxDepth st,
    default 0
      (fileTypeCounts
         (explore_from calls env repo actualBranch dirPath maxDepth st).2 !! ext)
    = default 0 (fileTypeCounts st !! ext)
      + files_with_all ext
          (explore_from calls env repo actualBranch dirPath maxDepth st).1.
Proof.
  induction calls as [|calls IH]; intros dirPath d st; cbn [explore_from].
  - cbn. lia.
  - destruct (d <=? 0); [cbn; lia |].
    destruct (fetchGitHubContent env repo dirPath actualBranch)
      as [[contents| |]|]; try (cbn; lia).
    apply (fold_explore_entry
             (λ acc, default 0 (fileTypeCounts acc.2 !! ext)
                     = default 0 (fileTypeCounts st !! ext)
                       + files_with_all ext acc.1)); [| cbn; lia].
    intros [result st1] item Hacc. cbn [fst snd] in Hacc.
    unfold explore_entry.
    destruct (shouldExpand item).
    + specialize (IH (child_path dirPath item) (d - 1) (count_file st1 item)).
      destruct (explore_from calls env repo actualBranch
                  (child_path dirPath item) (d - 1) (count_file st1 item))
        as [children st2].
      cbn [fst snd] in *.
      change (fileTypeCounts (suggest st2 item (child_path dirPath item)))
        with (fileTypeCounts st2).
      rewrite IH, tally_count_file, Hacc, files_with_all_snoc, files_with_node.
      destruct (Z.ltb_spec 0 (Z.of_nat (length children))) as [Hpos|Hzero]; [lia |].
      destruct children; [cbn [files_with_all]; lia | cbn [length] in Hzero; lia].
    + cbn [fst snd].
      rewrite tally_count_file, Hacc, files_with_all_snoc, files_with_node. lia.
Qed.

(** Suggested example paths are only ever appended to. *)
Lemma explore_entry_examplePaths_mono q explore dirPath maxDepth acc item :
  (∀ p d st, q ∈ an_examplePaths st → q ∈ an_examplePaths (explore p d st).2) →
  q ∈ an_examplePaths acc.2 →
  q ∈ an_examplePaths (explore_entry explore dirPath maxDepth acc item).2.
Proof.
  intros Hexp Hq. destruct acc as [result st]. unfold explore_entry.
  destruct (shouldExpand item).
  - specialize (Hexp (child_path dirPath item) (maxDepth - 1) (count_file st item)).
    destruct (explore _ _ _) as [children st2].
    apply suggest_examplePaths_mono, Hexp.
    rewrite examplePaths_count_file. exact Hq.
  - cbn [snd]. rewrite examplePaths_count_file. exact Hq.
Qed.

Lemma explore_from_examplePaths_mono q (calls : nat) :
  ∀ dirPath maxDepth st,
    q ∈ an_examplePaths st →
    q ∈ an_examplePaths
          (explore_from calls env repo actualBranch dirPath maxDepth st).2.
Proof.
  induction calls as [|calls IH]; intros dirPath d st Hq; cbn [explore_from].
  - exact Hq.
  - destruct (d <=? 0); [exact Hq |].
    destruct (fetchGitHubContent env repo dirPath actualBranch)
      as [[contents| |]|]; try exact Hq.
    apply (fold_explore_entry (λ acc, q ∈ an_examplePaths acc.2)); [| exact Hq].
    intros acc item. apply explore_entry_examplePaths_mono. exact IH.
Qed.

(** A directory of the listing whose name contains "example" is
    suggested, under its path. *)
Lemma explore_from_suggests (calls : nat) dirPath maxDepth st contents item :
  0 < maxDepth →
  fetchGitHubContent env repo dirPath actualBranch = Returned (JArray contents) →
  item ∈ contents →
  item_type item = "dir" →
  includes (toLowerCase (item_name item)) "example" = true →
  child_path dirPath item
  ∈ an_examplePaths
      (explore_from (S calls) env repo actualBranch dirPath maxDepth st).2.
Proof.
  intros Hd Hfetch Hin Hdir Hname. cbn [explore_from].
  destruct (Z.leb_spec maxDepth 0); [lia |]. rewrite Hfetch. clear Hfetch.
  generalize (@nil Node, st).
  induction contents as [|c items IHitems]; intros acc.
  - inversion Hin.
  - cbn [fold_left].
    apply elem_of_cons in Hin as [<-|Hin]; [| apply IHitems, Hin].
    apply (fold_explore_entry
             (λ acc, child_path dirPath item ∈ an_examplePaths acc.2)).
    + intros acc' item'. apply explore_entry_examplePaths_mono.
      intros p d. apply explore_from_examplePaths_mono.
    + destruct acc as [result st1]. unfold explore_entry.
      assert (Hexp : shouldExpand item = true).
      { unfold shouldExpand. rewrite Hdir, Hname, orb_true_r. reflexivity. }
      rewrite Hexp.
      destruct (explore_from calls env repo actualBranch _ _ _) as [children st2].
      unfold suggest; cbn [snd an_examplePaths]. rewrite Hname. cbn [orb].
      apply elem_of_app; right. apply list_elem_of_singleton. reflexivity.
Qed.

End Explore.

(** *** The sum of the tallies *)

Lemma tallies_increment (counts : gmap string Z) ext :
  tallies (<[ext := default 0 (counts !! ext) + 1]> counts) = tallies counts + 1.
Proof.
  assert (Hcomm : ∀ (m : gmap string Z) (j1 j2 : string) (z1 z2 y : Z),
            j1 ≠ j2 → m !! j1 = Some z1 → m !! j2 = Some z2 →
            z1 + (z2 + y) = z2 + (z1 + y)) by (intros; lia).
  unfold tallies. destruct (counts !! ext) as [n|] eqn:Hn; cbn [default].
  - rewrite <- (insert_delete_eq counts ext (n + 1)).
    rewrite map_fold_insert_L;
      [| apply Hcomm | apply lookup_delete_eq].
    rewrite (map_fold_delete_L _ _ ext n counts); [lia | apply Hcomm | exact Hn].
  - rewrite map_fold_insert_L; [lia | apply Hcomm | exact Hn].
Qed.

Lemma tallies_count_file st item :
  tallies (fileTypeCounts (count_file st item))
  = tallies (fileTypeCounts st)
    + (if String.eqb (item_type item) "file" then 1 else 0).
Proof.
  unfold count_file.
  destruct (String.eqb (item_type item) "file"); cbn [fileTypeCounts]; [| lia].
  apply tallies_increment.
Qed.

Lemma file_entries_node item path children :
  file_entries (mkNode item path children)
  = (if String.eqb (item_type item) "file" then 1 else 0)
    + match children with Some cs => file_entries_all cs | None => 0 end.
Proof.
  destruct children; reflexivity.
Qed.

Lemma file_entries_all_snoc l n :
  file_entries_all (l ++ [n]) = file_entries_all l + file_entries n.
Proof.
  induction l as [|c l IH]; cbn [file_entries_all app]; lia.
Qed.

(** Every file entry met adds one to the sum of the tallies. *)
Lemma explore_from_entries env repo actualBranch (calls : nat) :
  ∀ dirPath maxDepth st,
    tallies (fileTypeCounts
               (explore_from calls env repo actualBranch dirPath maxDepth st).2)
    = tallies (fileTypeCounts st)
      + file_entries_all
          (explore_from calls env repo actualBranch dirPath maxDepth st).1.
Proof.
  induction calls as [|calls IH]; intros dirPath d st; cbn [explore_from].
  - cbn. lia.
  - destruct (d <=? 0); [cbn; lia |].
    destruct (fetchGitHubContent env repo dirPath actualBranch)
      as [[contents| |]|]; try (cbn; lia).
    apply (fold_explore_entry
             (λ acc, tallies (fileTypeCounts acc.2)
                     = tallies (fileTypeCounts st) + file_entries_all acc.1));
      [| cbn; lia].
    intros [result st1] item Hacc. cbn [fst snd] in Hacc.
    unfold explore_entry.
    destruct (shouldExpand item).
    + specialize (IH (child_path dirPath item) (d - 1) (count_file st1 item)).
      destruct (explore_from calls env repo actualBranch
                  (child_path dirPath item) (d - 1) (count_file st1 item))
        as [children st2].
      cbn [fst snd] in *.
      change (fileTypeCounts (suggest st2 item (child_path dirPath item)))
        with (fileTypeCounts st2).
      rewrite IH, tallies_count_file, Hacc, file_entries_all_snoc,
        file_entries_node.
      destruct (Z.ltb_spec 0 (Z.of_nat (length children))) as [Hpos|Hzero]; [lia |].
      destruct children; [cbn [file_entries_all]; lia | cbn [length] in Hzero; lia].
    + cbn [fst snd].
      rewrite tallies_count_file, Hacc, file_entries_all_snoc, file_entries_node.
      lia.
Qed.

(** *** A listed file is counted *)

Section Counted.
Variable env : Env.
Variables repo actualBranch : string.
Variable ext : string.

Lemma explore_entry_tally_mono explore dirPath maxDepth acc item (c : Z) :
  (∀ p d st,
     c ≤ default 0 (fileTypeCounts st !! ext) →
     c ≤ default 0 (fileTypeCounts (explore p d st).2 !! ext)) →
  c ≤ default 0 (fileTypeCounts acc.2 !! ext) →
  c ≤ default 0
        (fileTypeCounts (explore_entry explore dirPath maxDepth acc item).2 !! ext).
Proof.
  intros Hexp Hc. destruct acc as [result st]. cbn [snd] in Hc.
  assert (Hcount : c ≤ default 0 (fileTypeCounts (count_file st item) !! ext)).
  { rewrite tally_count_file. destruct (_ && _); lia. }
  unfold explore_entry. destruct (shouldExpand item).
  - specialize (Hexp (child_path dirPath item) (maxDepth - 1) (count_file st item)
                  Hcount).
    destruct (explore _ _ _) as [children st2]. exact Hexp.
  - exact Hcount.
Qed.

Lemma explore_from_tally_mono (calls : nat) :
  ∀ dirPath maxDepth st (c : Z),
    c ≤ default 0 (fileTypeCounts st !! ext) →
    c ≤ default 0
          (fileTypeCounts
             (explore_from calls env repo actualBranch dirPath maxDepth st).2 !! ext).
Proof.
  induction calls as [|calls IH]; intros dirPath d st c Hc; cbn [explore_from];
    [exact Hc |].
  destruct (d <=? 0); [exact Hc |].
  destruct (fetchGitHubContent env repo dirPath actualBranch) as [[contents| |]|];
    try exact Hc.
  apply (fold_explore_entry
           (λ acc, c ≤ default 0 (fileTypeCounts acc.2 !! ext))); [| exact Hc].
  intros acc item. apply explore_entry_tally_mono.
  intros p d' st'. apply IH.
Qed.

(** A file entry of a listing that is read adds one to the tally of its
    extension. *)
Lemma explore_from_counts (calls : nat) dirPath maxDepth st contents item (c : Z) :
  0 < maxDepth →
  fetchGitHubContent env repo dirPath actualBranch = Returned (JArray contents) →
  item ∈ contents →
  item_type item = "file" →
  toLowerCase (extname (item_name item)) = ext →
  c ≤ default 0 (fileTypeCounts st !! ext) →
  c + 1 ≤ default 0
            (fileTypeCounts
               (explore_from (S calls) env repo actualBranch dirPath maxDepth st).2
             !! ext).
Proof.
  intros Hd Hfetch Hin Hfile Hext Hc. cbn [explore_from].
  destruct (Z.leb_spec maxDepth 0); [lia |]. rewrite Hfetch. clear Hfetch.
  assert (Hacc : c ≤ default 0 (fileTypeCounts (@nil Node, st).2 !! ext))
    by exact Hc.
  revert Hacc. generalize (@nil Node, st).
  induction contents as [|entry items IHitems]; intros acc Hacc.
  - inversion Hin.
  - cbn [fold_left].
    apply elem_of_cons in Hin as [<-|Hin].
    + apply (fold_explore_entry
               (λ acc, c + 1 ≤ default 0 (fileTypeCounts acc.2 !! ext))).
      * intros acc' item'. apply explore_entry_tally_mono.
        intros p d st'. apply explore_from_tally_mono.
      * destruct acc as [result st1]. cbn [snd] in Hacc.
        rewrite explore_entry_other
          by (unfold shouldExpand; rewrite Hfile; reflexivity).
        cbn [snd]. rewrite tally_count_file, Hfile, Hext, String.eqb_refl.
        cbn [String.eqb andb]. rewrite String.eqb_refl. lia.
    + apply IHitems; [exact Hin |].
      apply explore_entry_tally_mono; [| exact Hacc].
      intros p d st'. apply explore_from_tally_mono.
Qed.

(** The same for a file entry of an expanded directory of the
    listing. *)
Lemma explore_from_counts_below (calls : nat) dirPath maxDepth st contents dir
    listing item :
  1 < maxDepth →
  fetchGitHubContent env repo dirPath actualBranch = Returned (JArray contents) →
  dir ∈ contents →
  shouldExpand dir = true →
  fetchGitHubContent env repo (child_path dirPath dir) actualBranch
  = Returned (JArray listing) →
  item ∈ listing →
  item_type item = "file" →
  toLowerCase (extname (item_name item)) = ext →
  0 ≤ default 0 (fileTypeCounts st !! ext) →
  1 ≤ default 0
        (fileTypeCounts
           (explore_from (S (S calls)) env repo actualBranch dirPath maxDepth st).2
         !! ext).
Proof.
  intros Hd Hfetch Hdir Hexp Hlisting Hin Hfile Hext Hst.
  cbn [explore_from].
  destruct (Z.leb_spec maxDepth 0); [lia |]. rewrite Hfetch. clear Hfetch.
  assert (Hacc : 0 ≤ default 0 (fileTypeCounts (@nil Node, st).2 !! ext))
    by exact Hst.
  revert Hacc. generalize (@nil Node, st).
  induction contents as [|entry items IHitems]; intros acc Hacc.
  - inversion Hdir.
  - cbn [fold_left].
    apply elem_of_cons in Hdir as [<-|Hdir].
    + apply (fold_explore_entry
               (λ acc, 1 ≤ default 0 (fileTypeCounts acc.2 !! ext))).
      * intros acc' item'. apply explore_entry_tally_mono.
        intros p d st'. apply (explore_from_tally_mono (S calls)).
      * destruct acc as [result st1]. cbn [snd] in Hacc.
        rewrite explore_entry_dir by exact Hexp. cbv zeta. cbn [snd].
        change (fileTypeCounts (suggest ?s dir (child_path dirPath dir)))
          with (fileTypeCounts s).
        apply (explore_from_counts calls (child_path dirPath dir) (maxDepth - 1)
                 (count_file st1 dir) listing item 0);
          try assumption; [lia |].
        rewrite tally_count_file. destruct (_ && _); lia.
    + apply IHitems; [exact Hdir |].
      apply explore_entry_tally_mono; [| exact Hacc].
      intros p d st'. apply (explore_from_tally_mono (S calls)).
Qed.

End Counted.



End AnalyzerFacts.

(** ** Decoding file bodies *)

Module DecodeFacts.
Import JS Shared Buffer Spec CharFacts.

(** A property of the integers below a bound, checked on each. *)
Lemma below_all (P : Z → bool) (k : nat) :
  forallb P (map Z.of_nat (seq 0 k)) = true →
  ∀ n, 0 ≤ n < Z.of_nat k → P n = true.
Proof.
  intros Hall n Hn. rewrite forallb_forall in Hall. apply Hall.
  apply in_map_iff. exists (Z.to_nat n). split; [lia |].
  apply in_seq. lia.
Qed.

(** *** Base64 *)

Lemma unbase64_base64_char n :
  0 ≤ n < 64 →
  unbase64 (base64_char n) = Some n ∧ is_pad (base64_char n) = false.
Proof.
  intros Hn.
  pose proof (below_all
    (λ n, match unbase64 (base64_char n) with
          | Some m => (m =? n) && negb (is_pad (base64_char n))
          | None => false
          end) 64 eq_refl n Hn) as H.
  cbv beta in H. destruct (unbase64 (base64_char n)) as [m|]; [| discriminate].
  apply andb_prop in H as [Hm Hp]. apply Z.eqb_eq in Hm as ->.
  split; [reflexivity |]. destruct (is_pad _); [discriminate | reflexivity].
Qed.

Lemma sextet_step n cs :
  0 ≤ n < 64 →
  omap unbase64 (takeWhile (λ c, negb (is_pad c)) (base64_char n :: cs))
  = n :: omap unbase64 (takeWhile (λ c, negb (is_pad c)) cs).
Proof.
  intros Hn. destruct (unbase64_base64_char n Hn) as [Hu Hp].
  cbn [takeWhile]. rewrite Hp. cbn [negb omap list_omap]. rewrite Hu. reflexivity.
Qed.

Lemma sextet_pad cs :
  omap unbase64 (takeWhile (λ c, negb (is_pad c)) (pad :: cs)) = [].
Proof. reflexivity. Qed.

(** Induction on a list by groups of three. *)
Lemma triples_ind {A} (P : list A → Prop) :
  P [] → (∀ a, P [a]) → (∀ a b, P [a; b]) →
  (∀ a b c r, P r → P (a :: b :: c :: r)) →
  ∀ l, P l.
Proof.
  intros H0 H1 H2 H3 l.
  assert (H : P l ∧ (∀ a, P (a :: l)) ∧ (∀ a b, P (a :: b :: l))).
  { induction l as [|x l (IHa & IHb & IHc)].
    - repeat split; auto.
    - repeat split; auto. }
  apply H.
Qed.

(** Decoding the base64 form of a buffer gives the buffer back. *)
Lemma from_base64_to_base64 buf :
  Forall (λ b, 0 ≤ b < 256) buf →
  from_base64 (of_chars (to_base64 buf)) = buf.
Proof.
  unfold from_base64. rewrite chars_of_chars.
  induction buf as [|a|a b|a b c r IH] using triples_ind; intros Hbuf.
  - reflexivity.
  - apply Forall_cons in Hbuf as [Ha _].
    cbn [to_base64].
    rewrite !sextet_step, sextet_pad by (Z.div_mod_to_equations; lia).
    cbn [bytes_of_sextets]. f_equal. Z.div_mod_to_equations; lia.
  - apply Forall_cons in Hbuf as [Ha Hbuf]. apply Forall_cons in Hbuf as [Hb _].
    cbn [to_base64].
    rewrite !sextet_step, sextet_pad by (Z.div_mod_to_equations; lia).
    cbn [bytes_of_sextets]. f_equal; [| f_equal]; Z.div_mod_to_equations; lia.
  - apply Forall_cons in Hbuf as [Ha Hbuf]. apply Forall_cons in Hbuf as [Hb Hbuf].
    apply Forall_cons in Hbuf as [Hc Hr].
    cbn [to_base64].
    rewrite !sextet_step by (Z.div_mod_to_equations; lia).
    cbn [bytes_of_sextets]. rewrite (IH Hr).
    f_equal; [| f_equal; [| f_equal]]; Z.div_mod_to_equations; lia.
Qed.

(** *** UTF-8 *)

Lemma scalar_range cp :
  is_scalar cp = true → 0 ≤ cp < 55296 ∨ 57344 ≤ cp < 1114112.
Proof. unfold is_scalar. lia. Qed.

Lemma utf8_encode_bytes cp :
  is_scalar cp = true → Forall (λ b, 0 ≤ b < 256) (utf8_encode cp).
Proof.
  intros H. apply scalar_range in H. unfold utf8_encode.
  destruct (Z.ltb_spec cp 128); [| destruct (Z.ltb_spec cp 2048);
    [| destruct (Z.ltb_spec cp 65536)]];
    repeat constructor; Z.div_mod_to_equations; lia.
Qed.

(** *** The steps of the decoder *)

Lemma feed_idle b : feed idle b = lead b.
Proof. reflexivity. Qed.

Lemma lead_ascii b : b ≤ 127 → lead b = (idle, [b]).
Proof. intros H. unfold lead. destruct (Z.leb_spec b 127); [reflexivity | lia]. Qed.

Lemma lead_two b :
  194 ≤ b ≤ 223 →
  lead b = ({| code_point := b - 192; needed := 1; lower := 128; upper := 191 |}, []).
Proof.
  intros H. unfold lead.
  destruct (Z.leb_spec b 127); [lia |].
  destruct (Z.leb_spec 194 b); [| lia].
  destruct (Z.leb_spec b 223); [reflexivity | lia].
Qed.

Lemma lead_three b :
  224 ≤ b ≤ 239 →
  lead b = ({| code_point := b - 224; needed := 2;
               lower := if b =? 224 then 160 else 128;
               upper := if b =? 237 then 159 else 191 |}, []).
Proof.
  intros H. unfold lead.
  destruct (Z.leb_spec b 127); [lia |].
  destruct (Z.leb_spec b 223); [lia |]. rewrite andb_false_r.
  destruct (Z.leb_spec 224 b); [| lia].
  destruct (Z.leb_spec b 239); [reflexivity | lia].
Qed.

Lemma lead_four b :
  240 ≤ b ≤ 244 →
  lead b = ({| code_point := b - 240; needed := 3;
               lower := if b =? 240 then 144 else 128;
               upper := if b =? 244 then 143 else 191 |}, []).
Proof.
  intros H. unfold lead.
  destruct (Z.leb_spec b 127); [lia |].
  destruct (Z.leb_spec b 223); [lia |]. rewrite andb_false_r.
  destruct (Z.leb_spec b 239); [lia |]. rewrite andb_false_r.
  destruct (Z.leb_spec 240 b); [| lia].
  destruct (Z.leb_spec b 244); [reflexivity | lia].
Qed.

Lemma feed_last cp lo hi b :
  lo ≤ b ≤ hi →
  feed {| code_point := cp; needed := 1; lower := lo; upper := hi |} b
  = (idle, [cp * 64 + (b - 128)]).
Proof.
  intros H. unfold feed. cbn [needed lower upper code_point].
  change (1 =? 0) with false. change (1 =? 1) with true. cbv iota.
  destruct (Z.leb_spec lo b); [| lia].
  destruct (Z.leb_spec b hi); [reflexivity | lia].
Qed.

Lemma feed_more cp n lo hi b :
  1 < n → lo ≤ b ≤ hi →
  feed {| code_point := cp; needed := n; lower := lo; upper := hi |} b
  = ({| code_point := cp * 64 + (b - 128); needed := n - 1;
        lower := 128; upper := 191 |}, []).
Proof.
  intros Hn H. unfold feed. cbn [needed lower upper code_point].
  destruct (Z.eqb_spec n 0); [lia |].
  destruct (Z.eqb_spec n 1); [lia |].
  destruct (Z.leb_spec lo b); [| lia].
  destruct (Z.leb_spec b hi); [reflexivity | lia].
Qed.

Ltac div_facts cp :=
  assert (cp / 4096 = cp / 64 / 64) by (rewrite Z.div_div by lia; reflexivity);
  assert (cp / 262144 = cp / 64 / 64 / 64)
    by (rewrite !Z.div_div by lia; reflexivity).

Ltac arith := Z.div_mod_to_equations; lia.

(** The decoder reads the encoding of a scalar value as that value and
    is ready for the next one. *)
Lemma utf8_decode_encode cp rest :
  is_scalar cp = true →
  utf8_decode_from idle (utf8_encode cp ++ rest) = cp :: utf8_decode_from idle rest.
Proof.
  intros H. apply scalar_range in H. unfold utf8_encode. div_facts cp.
  destruct (Z.ltb_spec cp 128); [| destruct (Z.ltb_spec cp 2048);
    [| destruct (Z.ltb_spec cp 65536)]]; cbn [app utf8_decode_from].
  - rewrite feed_idle, lead_ascii by lia. reflexivity.
  - rewrite feed_idle, lead_two by arith. cbn [app].
    rewrite feed_last by arith. cbn [app]. f_equal. arith.
  - rewrite feed_idle, lead_three by arith. cbn [app].
    rewrite feed_more; [| lia |].
    2:{ destruct (Z.eqb_spec (224 + cp / 4096) 224);
        destruct (Z.eqb_spec (224 + cp / 4096) 237); arith. }
    cbn [app]. change (2 - 1) with 1.
    rewrite feed_last by arith. cbn [app]. f_equal. arith.
  - rewrite feed_idle, lead_four by arith. cbn [app].
    rewrite feed_more; [| lia |].
    2:{ destruct (Z.eqb_spec (240 + cp / 262144) 240);
        destruct (Z.eqb_spec (240 + cp / 262144) 244); arith. }
    cbn [app]. change (3 - 1) with 2.
    rewrite feed_more by arith. cbn [app]. change (2 - 1) with 1.
    rewrite feed_last by arith. cbn [app]. f_equal. arith.
Qed.

Lemma utf8_decode_encode_all cps :
  Forall (λ cp, is_scalar cp = true) cps →
  utf8_decode (flat_map utf8_encode cps) = cps.
Proof.
  unfold utf8_decode.
  induction 1 as [|cp cps Hcp _ IH]; [reflexivity |].
  cbn [flat_map]. rewrite utf8_decode_encode by exact Hcp. f_equal. exact IH.
Qed.

Lemma code_points_bytes cps :
  Forall (λ cp, is_scalar cp = true) cps →
  Forall (λ b, 0 ≤ b < 256) (flat_map utf8_encode cps).
Proof.
  induction 1 as [|cp cps Hcp _ IH]; [constructor |].
  cbn [flat_map]. apply Forall_app. split; [apply utf8_encode_bytes, Hcp | exact IH].
Qed.

(** The two codecs on a known value: the text "Hé€😀" has the code
    points of the sample, and its base64 form is the standard one. *)
Lemma sample_text_codecs :
  of_code_points Scenario.sample_text = "Hé€😀"
  ∧ base64Encode "Hé€😀" = "SMOp4oKs8J+YgA=="
  ∧ decodeGitHubContent "SMOp4oKs8J+YgA==" = Returned "Hé€😀".
Proof. repeat split. Qed.

(** C9.  For every text, [decodeGitHubContent] applied to the base64
    encoding of the text returns the text. *)
Theorem decode_base64Encode (text : string) :
  is_text text →
  decodeGitHubContent (base64Encode text) = Returned text.
Proof.
  intros (cps & Hcps & ->).
  assert (Hbytes : from_utf8 (of_code_points cps) = flat_map utf8_encode cps).
  { unfold from_utf8, of_code_points. rewrite chars_of_chars.
    apply code_of_char_of, code_points_bytes, Hcps. }
  unfold decodeGitHubContent, base64Encode, toString_utf8. rewrite Hbytes.
  rewrite from_base64_to_base64 by (apply code_points_bytes, Hcps).
  rewrite utf8_decode_encode_all by exact Hcps. reflexivity.
Qed.

(** The theorem on a text with characters of one, two, three and four
    bytes. *)
Lemma decode_base64Encode_witness :
  decodeGitHubContent (base64Encode (of_code_points Scenario.sample_text))
  = Returned (of_code_points Scenario.sample_text).
Proof.
  apply decode_base64Encode. exists Scenario.sample_text.
  split; [| reflexivity]. repeat constructor.
Defined.

End DecodeFacts.

(** ** Inputs that are not base64 *)

Module LenientFacts.
Import JS Shared Buffer Spec CharFacts.

Lemma takeWhile_stop {A} (p : A → bool) l x r :
  p x = false → takeWhile p (l ++ x :: r) = takeWhile p (l ++ [x]).
Proof.
  intros Hx. induction l as [|a l IH]; cbn [app takeWhile].
  - rewrite Hx. reflexivity.
  - destruct (p a); [f_equal; exact IH | reflexivity].
Qed.

(** Characters that are neither digits nor padding do not count. *)
Lemma sextets_filter cs :
  omap unbase64 (takeWhile (λ c, negb (is_pad c)) (filter (λ c, base64_read c = true) cs))
  = omap unbase64 (takeWhile (λ c, negb (is_pad c)) cs).
Proof.
  induction cs as [|c cs IH]; [reflexivity |].
  rewrite filter_cons.
  destruct (unbase64 c) as [n|] eqn:Hu.
  - rewrite decide_True by (unfold base64_read; rewrite Hu; reflexivity).
    cbn [takeWhile]. destruct (is_pad c); [reflexivity |].
    cbn [negb omap list_omap]. rewrite Hu. f_equal. exact IH.
  - destruct (is_pad c) eqn:Hp.
    + rewrite decide_True by (unfold base64_read; rewrite Hu; exact Hp).
      cbn [takeWhile]. rewrite Hp. reflexivity.
    + rewrite decide_False
        by (unfold base64_read; rewrite Hu, Hp; discriminate).
      cbn [takeWhile]. rewrite Hp. cbn [negb omap list_omap]. rewrite Hu.
      exact IH.
Qed.

(** C10, as the code has it.  [decodeGitHubContent] fails on no input:
    it returns a text for every string, base64 or not.  The characters
    that are neither base64 digits nor [=] are skipped, and what follows
    the first [=] is not read. *)
Theorem decodeGitHubContent_never_fails :
  (∀ content, ∃ text, decodeGitHubContent content = Returned text)
  ∧ (∀ content,
       decodeGitHubContent content
       = decodeGitHubContent
           (of_chars (filter (λ c, base64_read c = true) (chars content))))
  ∧ (∀ content rest,
       decodeGitHubContent (content +:+ String pad rest)
       = decodeGitHubContent (content +:+ String pad EmptyString)).
Proof.
  repeat split.
  - intros content. eexists. reflexivity.
  - intros content. unfold decodeGitHubContent, from_base64.
    rewrite chars_of_chars, sextets_filter. reflexivity.
  - intros content rest. unfold decodeGitHubContent, from_base64.
    rewrite !chars_append.
    change (chars (String pad rest)) with (pad :: chars rest).
    change (chars (String pad EmptyString)) with [pad].
    rewrite takeWhile_stop by reflexivity. reflexivity.
Qed.

(** C10 fails as stated: an input that is not valid base64 is decoded,
    not refused. *)
Lemma decode_of_invalid_base64 :
  valid_base64 "SGk!" = false
  ∧ decodeGitHubContent "SGk!" = Returned "Hi"
  ∧ valid_base64 "!" = false
  ∧ decodeGitHubContent "!" = Returned EmptyString.
Proof.
  repeat split.
Qed.

End LenientFacts.

(** ** Prefixes, suffixes and case *)

Module TextFacts.
Import JS CharFacts.

Lemma startsWith_nil s : startsWith s EmptyString = true.
Proof. destruct s; reflexivity. Qed.

Lemma startsWith_cons a p b s :
  startsWith (String b s) (String a p)
  = if Ascii.eqb a b then startsWith s p else false.
Proof. reflexivity. Qed.

Lemma startsWith_append p s : startsWith (p +:+ s) p = true.
Proof.
  induction p as [|a p IH]; [apply startsWith_nil |].
  rewrite append_cons, startsWith_cons, Ascii.eqb_refl. exact IH.
Qed.

Lemma startsWith_spec s p : startsWith s p = true ↔ ∃ t, s = p +:+ t.
Proof.
  split.
  - revert s. induction p as [|a p IH]; intros s H.
    + exists s. reflexivity.
    + destruct s as [|b s]; [discriminate |].
      rewrite startsWith_cons in H.
      destruct (Ascii.eqb_spec a b) as [-> |]; [| discriminate].
      destruct (IH _ H) as (t & ->). exists t. reflexivity.
  - intros (t & ->). apply startsWith_append.
Qed.

Lemma startsWith_more s p t :
  startsWith s p = true → startsWith (s +:+ t) p = true.
Proof.
  intros H. apply startsWith_spec in H as (u & ->).
  apply startsWith_spec. exists (u +:+ t).
  induction p as [|a p IH]; [reflexivity |].
  rewrite !append_cons. f_equal. exact IH.
Qed.

Lemma of_chars_app a b : of_chars (a ++ b) = of_chars a +:+ of_chars b.
Proof.
  induction a as [|c a IH]; [reflexivity |].
  cbn [app of_chars string_of_list_ascii]. rewrite append_cons. f_equal. exact IH.
Qed.

Lemma endsWith_append a b suf :
  endsWith b suf = true → endsWith (a +:+ b) suf = true.
Proof.
  unfold endsWith. intros H.
  rewrite chars_append, rev_app_distr, of_chars_app.
  apply startsWith_more. exact H.
Qed.

Lemma endsWith_suffix a suf : endsWith (a +:+ suf) suf = true.
Proof.
  unfold endsWith. rewrite chars_append, rev_app_distr, of_chars_app.
  apply startsWith_append.
Qed.

Lemma lower_char_idem c : lower_char (lower_char c) = lower_char c.
Proof.
  unfold lower_char at 2 3. destruct (is_upper c) eqn:Hu; [| unfold lower_char; rewrite Hu; reflexivity].
  unfold lower_char, is_upper in *. pose proof (code_bound c).
  rewrite code_char_of by lia.
  destruct (Z.leb_spec 65 (code c + 32)); destruct (Z.leb_spec (code c + 32) 90);
    cbn [andb]; try reflexivity. lia.
Qed.

Lemma toLowerCase_idem s : toLowerCase (toLowerCase s) = toLowerCase s.
Proof.
  induction s as [|c s IH]; [reflexivity |].
  cbn [toLowerCase]. rewrite lower_char_idem, IH. reflexivity.
Qed.

Lemma toLowerCase_append s t :
  toLowerCase (s +:+ t) = toLowerCase s +:+ toLowerCase t.
Proof.
  induction s as [|c s IH]; [reflexivity |].
  rewrite append_cons. cbn [toLowerCase]. rewrite append_cons, IH. reflexivity.
Qed.

Lemma toLowerCase_of_chars l : toLowerCase (of_chars l) = of_chars (map lower_char l).
Proof.
  induction l as [|c l IH]; [reflexivity |].
  cbn [of_chars string_of_list_ascii map toLowerCase]. f_equal. exact IH.
Qed.

Lemma append_assoc a b c : (a +:+ b) +:+ c = a +:+ (b +:+ c).
Proof.
  induction a as [|x a IH]; [reflexivity |].
  rewrite !append_cons. f_equal. exact IH.
Qed.

Lemma length_chars s : length (chars s) = String.length s.
Proof. induction s as [|c s IH]; [reflexivity |]. cbn. f_equal. exact IH. Qed.

End TextFacts.

(** ** The registry remove operation *)

Module RemovalFacts.
Import JS Shared RepoManagement.

Lemma not_inherited {A} (m : gmap string A) key :
  m !! key = None → key ∉ object_prototype_names → js_get m key = Undefined.
Proof.
  intros Hnone Hproto. unfold js_get. rewrite Hnone.
  rewrite bool_decide_eq_false_2 by exact Hproto. reflexivity.
Qed.

(** X1.  [remove-repository] with a key that is neither in the registry
    nor a property name of [Object.prototype] writes nothing, leaves
    [repodata.json] as it is, and replies that the key is not found,
    listing the keys of the registry. *)
Theorem remove_repository_absent (env : Env) (key : string) :
  loadRepoData env !! key = None →
  key ∉ object_prototype_names →
  remove_repository env key
  = {| reply := key_not_found env key; written := [] |}
  ∧ repodata_after env (remove_repository env key) = repodata_json env.
Proof.
  intros Hnone Hproto. unfold remove_repository, key_exists.
  rewrite (not_inherited _ _ Hnone Hproto). split; reflexivity.
Qed.

Lemma remove_repository_absent_witness :
  remove_repository (Scenario.with_zod Scenario.offline) "react"
  = {| reply := key_not_found (Scenario.with_zod Scenario.offline) "react";
       written := [] |}
  ∧ repodata_after (Scenario.with_zod Scenario.offline)
      (remove_repository (Scenario.with_zod Scenario.offline) "react")
    = repodata_json (Scenario.with_zod Scenario.offline).
Proof.
  apply (remove_repository_absent (Scenario.with_zod Scenario.offline) "react").
  - reflexivity.
  - vm_compute. intros H.
    repeat (apply elem_of_cons in H as [H|H]; [discriminate |]).
    inversion H.
Defined.

(** X2.  [remove-repository] with a key of the registry writes the
    registry once, without the entry of the key and with every other entry
    unchanged, and names the removed entry in its reply; a lookup of the
    key in the document written finds nothing. *)
Theorem remove_repository_present (env : Env) (key : string) (c : RepoConfig) :
  loadRepoData env !! key = Some c →
  let r := remove_repository env key in
  written r = [delete key (loadRepoData env)]
  ∧ reply r
    = CHECK_MARK +:+ " Successfully removed repository '" +:+ key +:+ "' ("
      +:+ name c +:+ ") from repodata.json!"
  ∧ (∀ env',
       repodata_json env' = repodata_after env r →
       loadRepoData env' !! key = None
       ∧ (∀ k, k ≠ key → loadRepoData env' !! k = loadRepoData env !! k)).
Proof.
  intros Hc r.
  assert (Hr : r = {| reply := removed_reply key (Own c);
                      written := [delete key (loadRepoData env)] |}).
  { subst r. unfold remove_repository, key_exists, js_get. rewrite Hc.
    reflexivity. }
  rewrite Hr. split; [reflexivity |]. split; [reflexivity |].
  intros env' Henv'.
  assert (Hload : loadRepoData env' = delete key (loadRepoData env)).
  { unfold loadRepoData at 1. rewrite Henv'. reflexivity. }
  rewrite Hload. split; [apply lookup_delete_eq |].
  intros k Hk. apply lookup_delete_ne. congruence.
Qed.

Lemma remove_repository_present_witness :
  let env := Scenario.with_zod Scenario.offline in
  let r := remove_repository env "zod" in
  written r = [delete "zod" (loadRepoData env)]
  ∧ reply r
    = CHECK_MARK +:+ " Successfully removed repository '" +:+ "zod" +:+ "' ("
      +:+ name Scenario.zod +:+ ") from repodata.json!"
  ∧ (∀ env',
       repodata_json env' = repodata_after env r →
       loadRepoData env' !! "zod" = None
       ∧ (∀ k, k ≠ "zod" → loadRepoData env' !! k = loadRepoData env !! k)).
Proof.
  apply (remove_repository_present (Scenario.with_zod Scenario.offline) "zod"
           Scenario.zod).
  reflexivity.
Defined.

(** X3.  Adding an entry under a fresh key and then removing the key, on
    the document the addition wrote, writes the registry as it was before
    the addition. *)
Theorem add_then_remove (env env' : Env) (a : AddArgs) :
  loadRepoData env !! arg_key a = None →
  arg_key a ∉ object_prototype_names →
  repodata_json env' = repodata_after env (add_repository env a) →
  written (remove_repository env' (arg_key a)) = [loadRepoData env]
  ∧ repodata_after env' (remove_repository env' (arg_key a))
    = Some (loadRepoData env).
Proof.
  intros Hnone Hproto Henv'.
  assert (Hadd : add_repository env a
                 = {| reply := added a;
                      written := [<[arg_key a := newRepo a]> (loadRepoData env)] |}).
  { unfold add_repository, key_exists.
    rewrite (not_inherited _ _ Hnone Hproto). reflexivity. }
  rewrite Hadd in Henv'. cbn in Henv'.
  assert (Hload : loadRepoData env' = <[arg_key a := newRepo a]> (loadRepoData env)).
  { unfold loadRepoData at 1. rewrite Henv'. reflexivity. }
  assert (Hrem : written (remove_repository env' (arg_key a)) = [loadRepoData env]).
  { unfold remove_repository, key_exists, js_get. rewrite Hload.
    rewrite lookup_insert_eq. cbn.
    rewrite delete_insert_eq, delete_id by exact Hnone. reflexivity. }
  split; [exact Hrem |].
  unfold repodata_after. rewrite Hrem. reflexivity.
Qed.

Lemma add_then_remove_witness :
  written (remove_repository (Scenario.with_zod Scenario.offline) "zod")
  = [loadRepoData Scenario.bare]
  ∧ repodata_after (Scenario.with_zod Scenario.offline)
      (remove_repository (Scenario.with_zod Scenario.offline) "zod")
    = Some (loadRepoData Scenario.bare).
Proof.
  apply (add_then_remove Scenario.bare (Scenario.with_zod Scenario.offline)
           (Scenario.zod_args "zod")).
  - reflexivity.
  - vm_compute. intros H.
    repeat (apply elem_of_cons in H as [H|H]; [discriminate |]).
    inversion H.
  - reflexivity.
Defined.

(** X24.  [remove-repository] with a key that the registry lacks but
    that names a property every object inherits from [Object.prototype]
    does not reply that the key is not found: the test
    [currentRepoData[key]] finds the inherited value, the registry is
    written back unchanged, and the reply reports a removal. *)
Theorem remove_repository_inherited (env : Env) (key : string) :
  loadRepoData env !! key = None →
  key ∈ object_prototype_names →
  written (remove_repository env key) = [loadRepoData env]
  ∧ reply (remove_repository env key) = removed_reply key (Inherited key)
  ∧ startsWith (reply (remove_repository env key))
      (CHECK_MARK +:+ " Successfully removed repository '") = true.
Proof.
  intros Hnone Hproto.
  assert (Hget : js_get (loadRepoData env) key = Inherited key).
  { unfold js_get. rewrite Hnone, bool_decide_eq_true_2 by exact Hproto.
    reflexivity. }
  unfold remove_repository, key_exists. rewrite Hget. cbn [negb written reply].
  rewrite delete_id by exact Hnone. repeat split.
  unfold removed_reply. rewrite <- TextFacts.append_assoc.
  apply TextFacts.startsWith_append.
Qed.

Lemma remove_repository_inherited_witness :
  written (remove_repository Scenario.bare "constructor") = [loadRepoData Scenario.bare]
  ∧ reply (remove_repository Scenario.bare "constructor")
    = removed_reply "constructor" (Inherited "constructor")
  ∧ startsWith (reply (remove_repository Scenario.bare "constructor"))
      (CHECK_MARK +:+ " Successfully removed repository '") = true.
Proof.
  apply (remove_repository_inherited Scenario.bare "constructor").
  - reflexivity.
  - vm_compute. left.
Defined.

End RemovalFacts.

(** ** Outcomes of the gateway *)

Module OutcomeFacts.
Import JS Shared Spec TextFacts.

Lemma fetchGitHubContent_request env repo path branch :
  fetchGitHubContent env repo path branch
  = match fetch_try env (loadConfig env) (fetch env (request_for env repo path branch)) with
    | Returned j => Returned j
    | Thrown m => Thrown ("Failed to fetch from GitHub: " +:+ m)
    end.
Proof. reflexivity. Qed.

(** X4.  [fetchGitHubContent] returns a value exactly when the remote
    answers the request with a status from 200 to 299 and a body that
    parses, and the value is that body.  Every failure is an error whose
    message starts with "Failed to fetch from GitHub: "; for a status
    outside 200-299 other than 403 the message gives the status and its
    text. *)
Theorem fetchGitHubContent_outcome (env : Env) (repo path branch : string) :
  (∀ j,
     fetchGitHubContent env repo path branch = Returned j
     ↔ ∃ response,
         fetch env (request_for env repo path branch) = Responded response
         ∧ 200 ≤ status response ≤ 299
         ∧ json response = Returned j)
  ∧ (∀ message,
       fetchGitHubContent env repo path branch = Thrown message →
       startsWith message "Failed to fetch from GitHub: " = true)
  ∧ (∀ response,
       fetch env (request_for env repo path branch) = Responded response →
       ¬ 200 ≤ status response ≤ 299 →
       status response ≠ 403 →
       fetchGitHubContent env repo path branch
       = Thrown ("Failed to fetch from GitHub: GitHub API error: "
                 +:+ show_int (status response) +:+ " " +:+ statusText response)).
Proof.
  rewrite fetchGitHubContent_request.
  destruct (fetch env (request_for env repo path branch)) as [m | response] eqn:Hf;
    cbn [fetch_try].
  - split; [| split].
    + intros j. split; [discriminate |]. intros (r & Hr & _). discriminate.
    + intros message Hm. injection Hm as <-. apply startsWith_append.
    + intros r Hr. discriminate.
  - unfold ok.
    destruct (Z.leb_spec 200 (status response)) as [Hlo | Hlo];
      destruct (Z.leb_spec (status response) 299) as [Hhi | Hhi]; cbn [andb negb].
    1: { split; [| split].
         - intros j. destruct (json response) as [j' | m] eqn:Hj.
           + split.
             * intros Hm. injection Hm as <-. exists response. repeat split; auto.
             * intros (r & Hr & _ & Hjr). injection Hr as <-.
               rewrite Hj in Hjr. injection Hjr as <-. reflexivity.
           + split; [discriminate |].
             intros (r & Hr & _ & Hjr). injection Hr as <-.
             rewrite Hj in Hjr. discriminate.
         - intros message. destruct (json response); [discriminate |].
           intros Hm. injection Hm as <-. apply startsWith_append.
         - intros r Hr Hout. injection Hr as <-. lia. }
    all: (split; [| split];
          [ intros j; split;
            [ destruct (status response =? 403); discriminate
            | intros (r & Hr & Hs & _); injection Hr as <-; lia ]
          | intros message; destruct (status response =? 403);
            intros Hm; injection Hm as <-; apply startsWith_append
          | intros r Hr _ H403; injection Hr as <-;
            destruct (Z.eqb_spec (status response) 403); [contradiction | reflexivity] ]).
Qed.

Lemma fetchGitHubContent_outcome_witness :
  fetchGitHubContent (Scenario.with_fetch Scenario.two_dirs) "colinhacks/zod" "a" "main"
  = Returned (JArray Scenario.twenty_files).
Proof.
  apply (fetchGitHubContent_outcome (Scenario.with_fetch Scenario.two_dirs)
           "colinhacks/zod" "a" "main").
  exists (Scenario.success (JArray Scenario.twenty_files)).
  split; [reflexivity |]. split; [cbn; lia | reflexivity].
Defined.

End OutcomeFacts.

(** ** File classification and highlighting *)

Module ClassifyFacts.
Import JS Shared RepoManagement Highlight CharFacts TextFacts.

Lemma example_extension_is_source ext :
  In ext exampleExtensions → In ext sourceExtensions.
Proof.
  intros H. cbn in H.
  repeat (destruct H as [<- | H]; [cbn; tauto |]). contradiction.
Qed.

(** X5.  A file accepted as an example is a source file: every example
    extension is a source extension. *)
Theorem example_is_source (filename filePath : string) :
  isExampleFile filename filePath = true → isSourceFile filename = true.
Proof.
  unfold isExampleFile, isSourceFile. intros H.
  apply andb_true_iff in H as [H _].
  apply existsb_exists in H as (ext & Hin & Hends).
  apply existsb_exists. exists ext. split; [| exact Hends].
  apply example_extension_is_source. exact Hin.
Qed.

Lemma example_is_source_witness :
  isSourceFile "Demo.TSX" = true.
Proof.
  apply (example_is_source "Demo.TSX" "examples/Demo.TSX"). reflexivity.
Defined.

Lemma code_lower_char c k :
  k < 65 → (code (lower_char c) =? k) = (code c =? k).
Proof.
  intros Hk. unfold lower_char, is_upper. pose proof (code_bound c).
  destruct (Z.leb_spec 65 (code c)); destruct (Z.leb_spec (code c) 90);
    cbn [andb]; try reflexivity.
  rewrite code_char_of by lia.
  destruct (Z.eqb_spec (code c + 32) k); destruct (Z.eqb_spec (code c) k);
    try reflexivity; lia.
Qed.

Lemma extname_scan_lower cs :
  ∀ i st, extname_scan (map lower_char cs) i st = extname_scan cs i st.
Proof.
  induction cs as [|c cs IH]; intros i st; [reflexivity |].
  cbn [map extname_scan].
  rewrite !(code_lower_char c) by lia. rewrite !IH. reflexivity.
Qed.

Lemma slice_map {A B} (f : A → B) (l : list A) a b :
  slice (map f l) a b = map f (slice l a b).
Proof.
  unfold slice. rewrite length_map, skipn_map, firstn_map. reflexivity.
Qed.

Lemma length_toLowerCase s : String.length (toLowerCase s) = String.length s.
Proof. induction s as [|c s IH]; [reflexivity |]. cbn. f_equal. exact IH. Qed.

Lemma extname_toLowerCase path :
  extname (toLowerCase path) = toLowerCase (extname path).
Proof.
  unfold extname.
  rewrite chars_toLowerCase, <- map_rev, extname_scan_lower, length_toLowerCase.
  destruct (_ || _); [reflexivity |].
  rewrite slice_map, toLowerCase_of_chars. reflexivity.
Qed.

Lemma extensionMap_truthy ext language :
  extensionMap !! ext = Some language → truthy language = true.
Proof.
  intros H. apply elem_of_list_to_map_2 in H.
  repeat (apply elem_of_cons in H as [H | H]; [injection H as -> ->; reflexivity |]).
  inversion H.
Qed.

(** X6.  The language [getFileExtension] gives for a file name is the
    entry of the table for the lower-cased extension of the name, and
    "text" when the table has none; no property inherited from
    [Object.prototype] is ever printed, and the letter case of the name
    does not matter. *)
Theorem getFileExtension_table (filename : string) :
  getFileExtension filename
  = default "text" (extensionMap !! toLowerCase (extname filename))
  ∧ getFileExtension (toLowerCase filename) = getFileExtension filename.
Proof.
  split.
  - unfold getFileExtension, js_get.
    destruct (extensionMap !! toLowerCase (extname filename)) as [language |] eqn:Hl.
    + unfold or_else. rewrite (extensionMap_truthy _ _ Hl). reflexivity.
    + rewrite bool_decide_eq_false_2; [reflexivity |].
      apply AnalyzerFacts.histogram_key_own.
  - unfold getFileExtension.
    rewrite extname_toLowerCase, toLowerCase_idem. reflexivity.
Qed.

End ClassifyFacts.

(** ** What the enumerator returns *)

Module WalkFacts.
Import JS Shared Spec CharFacts TextFacts.

Lemma in_collect_entry recurse fileFilter path maxDepth item p :
  In p (collect_entry recurse fileFilter path maxDepth item) →
  (item_type item = "file"
   ∧ fileFilter (item_name item) (child_path path item) = true
   ∧ p = child_path path item)
  ∨ (item_type item = "dir" ∧ 1 < maxDepth
     ∧ In p (recurse (child_path path item) (maxDepth - 1))).
Proof.
  unfold collect_entry.
  destruct (String.eqb_spec (item_type item) "file") as [Hf | Hf]; cbn [andb].
  - destruct (fileFilter _ _) eqn:Hacc.
    + intros [<- | []]. left. auto.
    + rewrite Hf. cbn. intros [].
  - destruct (String.eqb_spec (item_type item) "dir") as [Hd | Hd]; cbn [andb].
    + destruct (Z.ltb_spec 1 maxDepth); [| intros []]. right. auto.
    + intros [].
Qed.

Lemma located (env : Env) (repo branch : string)
    (fileFilter : string → string → bool) (n : nat) :
  ∀ maxDepth path p,
    (Z.to_nat maxDepth ≤ n)%nat →
    In p (findFilesRecursively env repo path branch fileFilter maxDepth) →
    ∃ names contents item,
      Z.of_nat (length names) < maxDepth
      ∧ listed_dirs env repo branch path names
      ∧ fetchGitHubContent env repo (descend path names) branch
        = Returned (JArray contents)
      ∧ In item contents
      ∧ item_type item = "file"
      ∧ p = child_path (descend path names) item
      ∧ fileFilter (item_name item) p = true.
Proof.
  induction n as [|n IH]; intros d path p Hn;
    rewrite EnumeratorFacts.findFilesRecursively_unfold;
    destruct (Z.leb_spec d 0) as [Hd | Hd]; try (intros []); [exfalso; lia |].
  destruct (fetchGitHubContent env repo path branch) as [[contents| |]|] eqn:Hfetch;
    try (intros []).
  intros Hp. apply in_flat_map in Hp as (item & Hitem & Hp).
  apply in_collect_entry in Hp as [(Hfile & Hacc & ->) | (Hdir & Hdeep & Hp)].
  - exists [], contents, item. cbn. repeat split; auto; lia.
  - apply IH in Hp
      as (names & contents' & item' & Hlen & Hdirs & Hf' & Hin' & Hfile' & -> & Hacc');
      [| lia].
    exists (item_name item :: names), contents', item'.
    cbn [length descend fold_left listed_dirs]. repeat split; auto; try lia.
    exists contents. split; [exact Hfetch |].
    destruct item as [n' t]. cbn in Hdir. subst t. exact Hitem.
Qed.

Lemma found (env : Env) (repo branch : string)
    (fileFilter : string → string → bool) (names : list string) :
  ∀ maxDepth path contents item,
    Z.of_nat (length names) < maxDepth →
    listed_dirs env repo branch path names →
    fetchGitHubContent env repo (descend path names) branch
    = Returned (JArray contents) →
    In item contents →
    item_type item = "file" →
    fileFilter (item_name item) (child_path (descend path names) item) = true →
    In (child_path (descend path names) item)
      (findFilesRecursively env repo path branch fileFilter maxDepth).
Proof.
  induction names as [|n names IH];
    intros d path contents item Hlen Hdirs Hfetch Hitem Hfile Hacc;
    rewrite EnumeratorFacts.findFilesRecursively_unfold;
    cbn [length] in Hlen;
    (destruct (Z.leb_spec d 0) as [Hd | Hd]; [exfalso; lia |]).
  - cbn [descend fold_left] in *. rewrite Hfetch.
    apply in_flat_map. exists item. split; [exact Hitem |].
    unfold collect_entry. rewrite Hfile, Hacc. cbn. left. reflexivity.
  - cbn [descend fold_left listed_dirs] in *.
    destruct Hdirs as [(listing & Hlisting & Hdir) Hdirs].
    rewrite Hlisting. apply in_flat_map.
    exists {| item_name := n; item_type := "dir" |}. split; [exact Hdir |].
    unfold collect_entry. cbn [item_type item_name]. cbn [String.eqb Ascii.eqb
      Bool.eqb andb].
    destruct (Z.ltb_spec 1 d) as [H1 | H1]; [| exfalso; lia].
    apply (IH (d - 1) _ contents item); auto. lia.
Qed.

(** X7.  [findFilesRecursively] returns exactly the paths of the
    entries of type "file" that the filter accepts, given the name of the
    entry and its path, and that lie in the starting directory or in a
    directory reached from it through fewer than [maxDepth] entries of
    type "dir", each listed by the remote. *)
Theorem findFilesRecursively_exact (env : Env) (repo path branch : string)
    (fileFilter : string → string → bool) (maxDepth : Z) (p : string) :
  In p (findFilesRecursively env repo path branch fileFilter maxDepth)
  ↔ ∃ names contents item,
      Z.of_nat (length names) < maxDepth
      ∧ listed_dirs env repo branch path names
      ∧ fetchGitHubContent env repo (descend path names) branch
        = Returned (JArray contents)
      ∧ In item contents
      ∧ item_type item = "file"
      ∧ p = child_path (descend path names) item
      ∧ fileFilter (item_name item) p = true.
Proof.
  split.
  - apply (located env repo branch fileFilter (Z.to_nat maxDepth)). lia.
  - intros (names & contents & item & Hlen & Hdirs & Hfetch & Hitem & Hfile & -> & Hacc).
    apply (found env repo branch fileFilter names maxDepth path contents item);
      assumption.
Qed.

Lemma findFilesRecursively_exact_witness :
  In "examples/demo.tsx"
    (findFilesRecursively (Scenario.with_fetch Scenario.examples_tree)
       "o/r" EmptyString "main" (λ f _, isSourceFile f) 2).
Proof.
  apply (findFilesRecursively_exact (Scenario.with_fetch Scenario.examples_tree)
           "o/r" EmptyString "main" (λ f _, isSourceFile f) 2 "examples/demo.tsx").
  exists ["examples"], [{| item_name := "demo.tsx"; item_type := "file" |}],
    {| item_name := "demo.tsx"; item_type := "file" |}.
  split; [cbn; lia |].
  split; [split; [eexists; split; [reflexivity | left; reflexivity] | exact I] |].
  split; [reflexivity |]. split; [left; reflexivity |].
  split; [reflexivity |]. split; reflexivity.
Defined.

Lemma sublist_flat_map {A B} (f g : A → list B) (l : list A) :
  (∀ x, f x `sublist_of` g x) → flat_map f l `sublist_of` flat_map g l.
Proof.
  intros H. induction l as [|x l IH]; [constructor |].
  cbn [flat_map]. apply sublist_app; [apply H | exact IH].
Qed.

Lemma deeper (env : Env) (repo branch : string)
    (fileFilter : string → string → bool) (n : nat) :
  ∀ maxDepth deeperDepth path,
    (Z.to_nat maxDepth ≤ n)%nat → maxDepth ≤ deeperDepth →
    findFilesRecursively env repo path branch fileFilter maxDepth
    `sublist_of` findFilesRecursively env repo path branch fileFilter deeperDepth.
Proof.
  induction n as [|n IH]; intros d d' path Hn Hle;
    rewrite (EnumeratorFacts.findFilesRecursively_unfold _ _ _ _ path d);
    destruct (Z.leb_spec d 0) as [Hd | Hd]; try apply sublist_nil_l; [exfalso; lia |].
  rewrite (EnumeratorFacts.findFilesRecursively_unfold _ _ _ _ path d').
  destruct (Z.leb_spec d' 0) as [Hd' | Hd']; [lia |].
  destruct (fetchGitHubContent env repo path branch) as [[contents| |]|];
    try apply sublist_nil_l.
  apply sublist_flat_map. intros item. unfold collect_entry.
  destruct (_ && fileFilter _ _); [reflexivity |].
  destruct (String.eqb (item_type item) "dir"); cbn [andb]; [| reflexivity].
  destruct (Z.ltb_spec 1 d) as [H1 | H1]; [| apply sublist_nil_l].
  destruct (Z.ltb_spec 1 d') as [H1' | H1']; [| lia].
  apply IH; lia.
Qed.

(** X8.  Raising the depth limit of [findFilesRecursively] only adds
    paths: the paths found with a limit are found with every greater limit,
    in the same order. *)
Theorem findFilesRecursively_deeper (env : Env) (repo path branch : string)
    (fileFilter : string → string → bool) (maxDepth deeperDepth : Z) :
  maxDepth ≤ deeperDepth →
  findFilesRecursively env repo path branch fileFilter maxDepth
  `sublist_of` findFilesRecursively env repo path branch fileFilter deeperDepth.
Proof.
  apply (deeper env repo branch fileFilter (Z.to_nat maxDepth)). lia.
Qed.

Lemma findFilesRecursively_deeper_witness :
  findFilesRecursively (Scenario.with_fetch Scenario.examples_tree)
    "o/r" EmptyString "main" (λ f _, isSourceFile f) 1
  `sublist_of`
  findFilesRecursively (Scenario.with_fetch Scenario.examples_tree)
    "o/r" EmptyString "main" (λ f _, isSourceFile f) 2.
Proof.
  apply (findFilesRecursively_deeper (Scenario.with_fetch Scenario.examples_tree)
           "o/r" EmptyString "main" (λ f _, isSourceFile f) 1 2).
  lia.
Defined.

End WalkFacts.

(** ** What the searches fetch and report *)

Module KindFacts.
Import JS Shared Spec CharFacts TextFacts.

Lemma ends_child ext path item :
  endsWith (toLowerCase (item_name item)) ext = true →
  endsWith (toLowerCase (child_path path item)) ext = true.
Proof.
  intros H. unfold child_path. destruct (truthy path); [| exact H].
  rewrite !toLowerCase_append. do 2 apply endsWith_append. exact H.
Qed.

Lemma exists_ends_child exts path item :
  existsb (λ ext, endsWith (toLowerCase (item_name item)) ext) exts = true →
  existsb (λ ext, endsWith (toLowerCase (child_path path item)) ext) exts = true.
Proof.
  intros H. apply existsb_exists in H as (ext & Hin & H).
  apply existsb_exists. exists ext. split; [exact Hin |].
  apply ends_child. exact H.
Qed.

Lemma in_slice {A} (l : list A) a b x : In x (slice l a b) → In x l.
Proof.
  unfold slice. intros H. apply list_elem_of_In in H. apply list_elem_of_In.
  eapply elem_of_sublist; [exact H |].
  etransitivity; [apply sublist_take | apply sublist_drop].
Qed.

Lemma slice_some {A} (l : list A) k :
  0 < k → 0 < Z.of_nat (length l) → slice l 0 k ≠ [].
Proof.
  intros Hk Hl. unfold slice. destruct l as [|x l]; [cbn in Hl; lia |].
  rewrite Z.ltb_irrefl. destruct (Z.ltb_spec k 0); [exfalso; lia |].
  rewrite (Z.min_l 0) by lia. cbn [Z.to_nat drop].
  destruct (Z.to_nat _) eqn:Hn; [exfalso; lia | discriminate].
Qed.

(** X9.  The searches fetch only files of their kind: every file
    [search-source] fetches has a source extension, every file the
    example search fetches has an example extension and an example
    directory in its path, and every file listed for the documentation of
    a remote library has a documentation extension. *)
Theorem searches_fetch_their_kind (env : Env) (query : string) :
  (∀ config searchPaths f,
     In f (RepoTools.fetched
             (RepoTools.search_source_log env config query searchPaths)) →
     isSourceFile f = true)
  ∧ (∀ repo branch examplePaths f,
       In f (RepoTools.fetched
               (ExampleTools.searchRepoExamples_log env repo branch examplePaths
                  query)) →
       isExampleFile f f = true)
  ∧ (∀ repo paths branch f,
       In f (DocTools.findGitHubDocFiles env repo paths branch) →
       DocTools.isDocFile f = true).
Proof.
  split; [| split].
  - intros config searchPaths f Hf.
    unfold RepoTools.fetched, RepoTools.search_source_log in Hf.
    apply in_map_iff in Hf as ([f' r] & <- & Hf).
    apply in_flat_map in Hf as (searchPath & _ & Hf).
    apply in_map_iff in Hf as (file & Heq & Hf). injection Heq as <- _.
    apply in_slice in Hf.
    apply WalkFacts.located with (n := Z.to_nat 3) in Hf
      as (names & contents & item & _ & _ & _ & _ & _ & -> & Hacc); [| lia].
    cbn [fst]. unfold isSourceFile in *.
    apply exists_ends_child. exact Hacc.
  - intros repo branch examplePaths f Hf.
    unfold RepoTools.fetched, ExampleTools.searchRepoExamples_log in Hf.
    apply in_map_iff in Hf as ([f' r] & <- & Hf).
    apply in_flat_map in Hf as (examplePath & _ & Hf).
    apply in_map_iff in Hf as (file & Heq & Hf). injection Heq as <- _.
    apply in_slice in Hf.
    apply WalkFacts.located with (n := Z.to_nat 2) in Hf
      as (names & contents & item & _ & _ & _ & _ & _ & Hp & Hacc); [| lia].
    cbn [fst]. unfold isExampleFile in *.
    apply andb_true_iff in Hacc as [Hext Hdir].
    apply andb_true_iff. split; [| exact Hdir].
    rewrite Hp. apply exists_ends_child. exact Hext.
  - intros repo paths branch f Hf. unfold DocTools.findGitHubDocFiles in Hf.
    apply in_flat_map in Hf as (basePath & _ & Hf).
    apply WalkFacts.located with (n := Z.to_nat 3) in Hf
      as (names & contents & item & _ & _ & _ & _ & _ & -> & Hacc); [| lia].
    unfold DocTools.isDocFile in *.
    apply orb_true_iff in Hacc as [Hacc | Hacc];
      [apply orb_true_iff in Hacc as [Hacc | Hacc] |];
      apply ends_child with (path := descend basePath names) in Hacc;
      rewrite Hacc; rewrite ?orb_true_r; reflexivity.
Qed.

Lemma searches_fetch_their_kind_witness :
  In "a/f0.ts"
    (RepoTools.fetched
       (RepoTools.search_source_log (Scenario.with_zod Scenario.two_dirs)
          Scenario.zod_view "x" ["a"]))
  ∧ isSourceFile "a/f0.ts" = true.
Proof.
  assert (H : In "a/f0.ts"
                (RepoTools.fetched
                   (RepoTools.search_source_log (Scenario.with_zod Scenario.two_dirs)
                      Scenario.zod_view "x" ["a"]))).
  { vm_compute. left. reflexivity. }
  split; [exact H |].
  exact (proj1 (searches_fetch_their_kind (Scenario.with_zod Scenario.two_dirs) "x")
           Scenario.zod_view ["a"] "a/f0.ts" H).
Defined.

(** X10.  A search result is reported only for a file that was fetched
    and in which the query was found: every result of [search-source] and
    of the example search names a fetched file and has at least one
    match. *)
Theorem results_have_matches (env : Env) (query : string) :
  (∀ config searchPaths result,
     let log := RepoTools.search_source_log env config query searchPaths in
     In result (RepoTools.results log) →
     In (RepoTools.file result) (RepoTools.fetched log)
     ∧ RepoTools.matches result ≠ [])
  ∧ (∀ repo branch examplePaths result,
       let log :=
         ExampleTools.searchRepoExamples_log env repo branch examplePaths query in
       In result (RepoTools.results log) →
       In (ExampleTools.file result) (RepoTools.fetched log)
       ∧ ExampleTools.matches result ≠ []).
Proof.
  split.
  - intros config searchPaths result log Hr.
    unfold RepoTools.results in Hr. apply list_elem_of_In in Hr.
    apply list_elem_of_omap in Hr as ([f r] & Hin & Hsnd). cbn in Hsnd. subst r.
    apply list_elem_of_In in Hin.
    assert (Hfile : RepoTools.search_file env config query f = Some result).
    { subst log. unfold RepoTools.search_source_log in Hin.
      apply in_flat_map in Hin as (searchPath & _ & Hin).
      apply in_map_iff in Hin as (file & Heq & _). injection Heq as -> ->.
      reflexivity. }
    assert (Hshape : RepoTools.file result = f ∧ RepoTools.matches result ≠ []).
    { unfold RepoTools.search_file in Hfile.
      destruct (RepoTools.fetch_for env config f) as [[| type encoding content size |]|];
        try discriminate.
      destruct (_ && _); [| discriminate].
      destruct (decodeGitHubContent content) as [fileContent |]; [| discriminate].
      destruct (Z.ltb_spec 0 (Z.of_nat (length (RepoTools.source_matches
                                                   (split LF fileContent) query))));
        [| discriminate].
      injection Hfile as <-. cbn [RepoTools.file RepoTools.matches].
      split; [reflexivity |]. apply slice_some; lia. }
    destruct Hshape as [-> Hm]. split; [| exact Hm].
    unfold RepoTools.fetched. apply in_map_iff. exists (f, Some result). auto.
  - intros repo branch examplePaths result log Hr.
    unfold RepoTools.results in Hr. apply list_elem_of_In in Hr.
    apply list_elem_of_omap in Hr as ([f r] & Hin & Hsnd). cbn in Hsnd. subst r.
    apply list_elem_of_In in Hin.
    assert (Hfile : ExampleTools.search_example_file env repo branch query f
                    = Some result).
    { subst log. unfold ExampleTools.searchRepoExamples_log in Hin.
      apply in_flat_map in Hin as (examplePath & _ & Hin).
      apply in_map_iff in Hin as (file & Heq & _). injection Heq as -> ->.
      reflexivity. }
    assert (Hshape : ExampleTools.file result = f
                     ∧ ExampleTools.matches result ≠ []).
    { unfold ExampleTools.search_example_file in Hfile.
      destruct (fetchGitHubContent env repo f branch)
        as [[| type encoding content size |]|]; try discriminate.
      destruct (_ && _); [| discriminate].
      destruct (decodeGitHubContent content) as [fileContent |]; [| discriminate].
      destruct (includes _ _); [| discriminate].
      destruct (Z.ltb_spec 0 (Z.of_nat (length (ExampleTools.example_matches
                                                   (split LF fileContent) query))));
        [| discriminate].
      injection Hfile as <-. cbn [ExampleTools.file ExampleTools.matches].
      split; [reflexivity |]. apply slice_some; lia. }
    destruct Hshape as [-> Hm]. split; [| exact Hm].
    unfold RepoTools.fetched. apply in_map_iff. exists (f, Some result). auto.
Qed.

Lemma results_have_matches_witness :
  In "src/hello.ts"
    (RepoTools.fetched
       (RepoTools.search_source_log (Scenario.with_fetch Scenario.hello_tree)
          Scenario.hello_view "hi" ["src"]))
  ∧ [fmt_inline 1 "Hi"] ≠ [].
Proof.
  apply (proj1 (results_have_matches (Scenario.with_fetch Scenario.hello_tree) "hi")
           Scenario.hello_view ["src"]
           {| RepoTools.file := "src/hello.ts";
              RepoTools.matches := [fmt_inline 1 "Hi"] |}).
  vm_compute. left. reflexivity.
Defined.

End KindFacts.

(** ** Line-wrapped base64 *)

Module WrapFacts.
Import JS Buffer Shared Spec CharFacts.

Lemma line_feed_not_read c : base64_read c = true → c ≠ LF.
Proof. intros H ->. discriminate. Qed.

Lemma read_of_unwrapped (cs : list ascii) :
  filter (λ c, base64_read c = true) (filter (λ c, c ≠ LF) cs)
  = filter (λ c, base64_read c = true) cs.
Proof.
  induction cs as [|c cs IH]; [reflexivity |].
  rewrite (filter_cons (λ c, c ≠ LF)).
  destruct (decide (c ≠ LF)) as [Hc | Hc].
  - rewrite !filter_cons. destruct (decide (base64_read c = true));
      [f_equal |]; exact IH.
  - rewrite IH, filter_cons. rewrite decide_False; [reflexivity |].
    intros Hread. apply Hc, line_feed_not_read, Hread.
Qed.

Lemma from_base64_read s t :
  filter (λ c, base64_read c = true) (chars s)
  = filter (λ c, base64_read c = true) (chars t) →
  from_base64 s = from_base64 t.
Proof.
  intros H. unfold from_base64.
  rewrite <- (LenientFacts.sextets_filter (chars s)), H.
  rewrite LenientFacts.sextets_filter. reflexivity.
Qed.

Lemma text_round_trip cps :
  Forall (λ cp, is_scalar cp = true) cps →
  toString_utf8 (from_base64 (base64Encode (of_code_points cps)))
  = of_code_points cps.
Proof.
  intros Hcps.
  assert (Hbytes : from_utf8 (of_code_points cps) = flat_map utf8_encode cps).
  { unfold from_utf8, of_code_points. rewrite chars_of_chars.
    apply code_of_char_of.
    apply DecodeFacts.code_points_bytes, Hcps. }
  unfold base64Encode, toString_utf8. rewrite Hbytes.
  rewrite DecodeFacts.from_base64_to_base64
    by (apply DecodeFacts.code_points_bytes, Hcps).
  rewrite DecodeFacts.utf8_decode_encode_all by exact Hcps. reflexivity.
Qed.

(** X11.  [decodeGitHubContent] reads base64 that is broken into lines,
    as the remote sends it: when removing the line feeds of a string gives
    the base64 encoding of a text, the function returns that text. *)
Theorem decode_wrapped (text wrapped : string) :
  is_text text →
  filter (λ c, c ≠ LF) (chars wrapped) = chars (base64Encode text) →
  decodeGitHubContent wrapped = Returned text.
Proof.
  intros (cps & Hcps & ->) Hwrapped. unfold decodeGitHubContent. f_equal.
  rewrite (from_base64_read wrapped (base64Encode (of_code_points cps))).
  - apply text_round_trip, Hcps.
  - rewrite <- Hwrapped, read_of_unwrapped. reflexivity.
Qed.

Lemma decode_wrapped_witness :
  decodeGitHubContent
    ("SMOp4oKs" +:+ nl +:+ "8J+YgA==" +:+ nl)
  = Returned (of_code_points Scenario.sample_text).
Proof.
  apply (decode_wrapped (of_code_points Scenario.sample_text)
           ("SMOp4oKs" +:+ nl +:+ "8J+YgA==" +:+ nl)).
  - exists Scenario.sample_text. split; [| reflexivity]. repeat constructor.
  - reflexivity.
Defined.

End WrapFacts.

(** ** Headers and stored sections *)

Module HeaderFacts.
Import JS Shared DocTools Spec CharFacts TextFacts.

Lemma headerMatch_level line hashes text :
  headerMatch line = Some (hashes, text) →
  1 ≤ Z.of_nat (String.length hashes) ≤ 6.
Proof.
  unfold headerMatch.
  set (hs := takeWhile (λ c, code c =? 35) (chars line)).
  destruct (Z.leb_spec 1 (Z.of_nat (length hs)));
    destruct (Z.leb_spec (Z.of_nat (length hs)) 6); cbn [andb]; try discriminate.
  assert (Hlen : String.length (of_chars hs) = length hs)
    by (rewrite <- length_chars, chars_of_chars; reflexivity).
  intros Hm.
  assert (Hh : hashes = of_chars hs).
  { destruct (takeWhile is_space _) as [|s ss]; [discriminate |].
    destruct (drop _ _) as [|r rs].
    - destruct (rev (s :: ss)) as [|c [|c' cs]]; try discriminate.
      destruct (is_line_terminator c); [discriminate |].
      injection Hm as <- _. reflexivity.
    - destruct (forallb _ _); [| discriminate].
      injection Hm as <- _. reflexivity. }
  rewrite Hh, Hlen. lia.
Qed.

Lemma strip_anchor_chars cs :
  Forall (λ c, anchor_char c = true) cs →
  filter (λ c, is_lower c || is_digit c || is_space c || (code c =? 45) = true) cs
  = cs.
Proof.
  induction 1 as [|c cs Hc _ IH]; [reflexivity |].
  rewrite filter_cons, decide_True, IH; [reflexivity |].
  unfold anchor_char in Hc.
  destruct (is_lower c), (is_digit c), (is_space c), (code c =? 45);
    try reflexivity; discriminate.
Qed.

Lemma hyphenate_anchor cs :
  Forall (λ c, anchor_char c = true) cs → hyphenate false cs = cs.
Proof.
  induction 1 as [|c cs Hc _ IH]; [reflexivity |].
  cbn [hyphenate]. rewrite (AnchorFacts.anchor_char_not_space c Hc), IH.
  reflexivity.
Qed.

Lemma anchor_of_anchor title : anchor_of (anchor_of title) = anchor_of title.
Proof.
  unfold anchor_of at 1. rewrite AnchorFacts.toLowerCase_anchor.
  unfold strip_non_anchor. rewrite chars_of_chars.
  rewrite strip_anchor_chars by apply AnchorFacts.anchor_of_chars.
  rewrite hyphenate_anchor by apply AnchorFacts.anchor_of_chars.
  apply of_chars_chars.
Qed.



(** Keys under which a section can be stored. *)
Lemma save_section_proper st :
  (∀ k v, sections st !! k = Some v → k ≠ EmptyString ∧ k ≠ "__proto__") →
  ∀ k v, save_section st !! k = Some v → k ≠ EmptyString ∧ k ≠ "__proto__".
Proof.
  intros Hst k v. unfold save_section.
  destruct (truthy (currentSectionName st)) eqn:Hname; cbn [andb]; [| apply Hst].
  destruct (0 <? _); [| apply Hst].
  unfold js_set. case_bool_decide as Hproto; [apply Hst |].
  destruct (decide (k = toLowerCase (currentSectionName st))) as [-> | Hk].
  - intros _. split; [| exact Hproto].
    intros Hempty. apply SectionFacts.toLowerCase_empty in Hempty.
    rewrite Hempty in Hname. discriminate.
  - rewrite lookup_insert_ne by congruence. apply Hst.
Qed.

Lemma fold_proper lines :
  ∀ st,
    (∀ k v, sections st !! k = Some v → k ≠ EmptyString ∧ k ≠ "__proto__") →
    ∀ k v, sections (fold_left section_step lines st) !! k = Some v →
           k ≠ EmptyString ∧ k ≠ "__proto__".
Proof.
  induction lines as [|line lines IH]; intros st Hst; [exact Hst |].
  cbn [fold_left]. apply IH. unfold section_step.
  destruct (headerMatch line) as [[hashes text]|]; cbn [sections];
    [apply save_section_proper |]; exact Hst.
Qed.

Lemma stored_key_proper content k v :
  extractMarkdownSections content !! k = Some v →
  k ≠ EmptyString ∧ k ≠ "__proto__".
Proof.
  unfold extractMarkdownSections. apply save_section_proper, fold_proper.
  intros k' v' H. cbn [sections no_sections] in H. rewrite lookup_empty in H. discriminate.
Qed.



Lemma heading_not_empty h k : heading_key h = Some k → h ≠ EmptyString.
Proof. intros H ->. discriminate. Qed.

Lemma truthy_join h body : h ≠ EmptyString → truthy (join nl (h :: body)) = true.
Proof.
  intros Hh. destruct h as [|c h]; [contradiction |].
  destruct body; reflexivity.
Qed.



End HeaderFacts.

(** ** Where the documentation is read from *)

Module SourceFacts.
Import JS Shared DocTools Spec CharFacts TextFacts.

(** X15.  [getDocumentationContent] fails only when no local copy of
    the file can be read, and then with the message "Documentation file
    not found: " followed by the path; a failure of the remote is never
    reported.  For a library without a remote documentation source the
    result does not depend on the remote. *)
Theorem getDocumentationContent_fallback (env : Env) (library filePath : string) :
  (∀ text,
     local_doc env library filePath = Some text →
     ∃ found, getDocumentationContent env library filePath = Returned found)
  ∧ (∀ message,
       getDocumentationContent env library filePath = Thrown message →
       message = "Documentation file not found: " +:+ filePath
       ∧ local_doc env library filePath = None)
  ∧ (docs_of (js_get (loadRepoData env) library) = None →
     ∀ remote,
       getDocumentationContent (with_remote env remote) library filePath
       = getDocumentationContent env library filePath).
Proof.
  unfold getDocumentationContent. split; [| split].
  - intros text Hlocal. rewrite Hlocal.
    destruct (match docs_of _ with Some _ => _ | None => _ end); eauto.
  - intros message.
    destruct (match docs_of _ with Some _ => _ | None => _ end); [discriminate |].
    destruct (local_doc env library filePath); [discriminate |].
    intros H. injection H as <-. split; reflexivity.
  - intros Hdocs remote.
    change (loadRepoData (with_remote env remote)) with (loadRepoData env).
    rewrite Hdocs. reflexivity.
Qed.

Lemma getDocumentationContent_fallback_witness :
  ∃ found,
    getDocumentationContent (Scenario.with_doc Scenario.twice) "lib" "f.md"
    = Returned found.
Proof.
  apply (proj1 (getDocumentationContent_fallback (Scenario.with_doc Scenario.twice)
                  "lib" "f.md") Scenario.twice).
  reflexivity.
Defined.

End SourceFacts.

(** ** Number of matches *)

Module CountFacts.
Import JS Shared Spec.

Lemma length_windows r fmt query after :
  ∀ before,
    length (windows r fmt query before after)
    = length (List.filter (found_in query) after).
Proof.
  induction after as [|line rest IH]; intros before; [reflexivity |].
  cbn [windows List.filter]. rewrite length_app, IH. unfold found_in.
  destruct (includes _ _); reflexivity.
Qed.

Lemma includes_nil s : includes s EmptyString = true.
Proof. destruct s; reflexivity. Qed.



End CountFacts.

(** ** Code blocks *)

Module BlockFacts.
Import JS Shared CodeBlocks Spec.

Lemma scan_outside pre :
  Forall (λ l, startsWith l FENCE = false) pre →
  ∀ st, inCodeBlock st = false → fold_left scan_line pre st = st.
Proof.
  induction 1 as [|line pre Hline _ IH]; intros st Hst; [reflexivity |].
  cbn [fold_left]. unfold scan_line at 2. rewrite Hline, Hst. apply IH, Hst.
Qed.

Lemma scan_inside body :
  Forall (λ l, startsWith l FENCE = false) body →
  ∀ blocks lang lines,
    fold_left scan_line body
      {| codeBlocks := blocks; inCodeBlock := true; currentLanguage := lang;
         currentCode := lines |}
    = {| codeBlocks := blocks; inCodeBlock := true; currentLanguage := lang;
         currentCode := (lines ++ body)%list |}.
Proof.
  induction 1 as [|line body Hline _ IH]; intros blocks lang lines.
  - rewrite app_nil_r. reflexivity.
  - cbn [fold_left]. unfold scan_line at 2. rewrite Hline. cbn.
    rewrite IH, <- app_assoc. reflexivity.
Qed.

(** The blocks already pushed stay in front of those pushed later. *)
Lemma scan_after (earlier : list CodeBlock) rest :
  ∀ st st',
    codeBlocks st' = (earlier ++ codeBlocks st)%list →
    inCodeBlock st' = inCodeBlock st →
    currentLanguage st' = currentLanguage st →
    currentCode st' = currentCode st →
    codeBlocks (fold_left scan_line rest st')
    = (earlier ++ codeBlocks (fold_left scan_line rest st))%list.
Proof.
  induction rest as [|line rest IH]; intros st st' Hb Hi Hl Hc; [exact Hb |].
  cbn [fold_left]. apply IH; unfold scan_line; rewrite Hi;
    destruct (startsWith line FENCE), (inCodeBlock st) eqn:Hin; cbn;
    rewrite ?Hb, ?Hl, ?Hc, ?Hi, ?Hin, <- ?app_assoc; reflexivity.
Qed.

Lemma scan_block pre opening body closing rest :
  Forall (λ l, startsWith l FENCE = false) pre →
  startsWith opening FENCE = true →
  Forall (λ l, startsWith l FENCE = false) body →
  startsWith closing FENCE = true →
  codeBlocks
    (fold_left scan_line (pre ++ opening :: body ++ closing :: rest) no_blocks)
  = {| language := language_of opening; code := join nl body |}
    :: codeBlocks (fold_left scan_line rest no_blocks).
Proof.
  intros Hpre Hopen Hbody Hclose.
  rewrite fold_left_app, (scan_outside pre Hpre) by reflexivity.
  cbn [fold_left]. unfold scan_line at 2. rewrite Hopen. cbn.
  rewrite fold_left_app, (scan_inside body Hbody).
  cbn [fold_left]. unfold scan_line at 2. rewrite Hclose. cbn.
  apply (scan_after [{| language := language_of opening; code := join nl body |}]
           rest no_blocks); reflexivity.
Qed.



(** X18.  A block whose closing fence is missing is dropped: when the
    only fence line of a content opens a block, [extractCodeBlocks] gives
    no block, as it does for a content without fence lines. *)
Theorem extractCodeBlocks_unterminated (content : string) (pre : list string)
    (opening : string) (body : list string) :
  Forall (λ l, startsWith l FENCE = false) pre →
  Forall (λ l, startsWith l FENCE = false) body →
  startsWith opening FENCE = true →
  (split LF content = pre → extractCodeBlocks content = [])
  ∧ (split LF content = (pre ++ opening :: body)%list →
     extractCodeBlocks content = []).
Proof.
  intros Hpre Hbody Hopen. unfold extractCodeBlocks. split; intros ->.
  - rewrite (scan_outside pre Hpre) by reflexivity. reflexivity.
  - rewrite fold_left_app, (scan_outside pre Hpre) by reflexivity.
    cbn [fold_left]. unfold scan_line at 2. rewrite Hopen. cbn.
    rewrite (scan_inside body Hbody). reflexivity.
Qed.

Lemma extractCodeBlocks_unterminated_witness :
  extractCodeBlocks (join nl ["intro"; FENCE +:+ "js"; "open"]) = [].
Proof.
  apply (extractCodeBlocks_unterminated
           (join nl ["intro"; FENCE +:+ "js"; "open"])
           ["intro"] (FENCE +:+ "js") ["open"]);
    try reflexivity; repeat constructor.
Defined.

End BlockFacts.

(** ** The reported tree *)

Module TreeFacts.
Import JS Shared RepoManagement Spec.

Section Tree.
Variable env : Env.
Variables repo actualBranch : string.

Lemma explore_entry_node explore dirPath maxDepth acc item :
  ∃ children st,
    explore_entry explore dirPath maxDepth acc item
    = ((acc.1 ++ [mkNode item (child_path dirPath item) children])%list, st)
    ∧ (children = None
       ∨ shouldExpand item = true
         ∧ ∃ st', children
                  = Some (explore (child_path dirPath item) (maxDepth - 1) st').1
                  ∧ (explore (child_path dirPath item) (maxDepth - 1) st').1 ≠ []).
Proof.
  destruct acc as [result st]. unfold explore_entry.
  destruct (shouldExpand item) eqn:Hexp.
  - destruct (explore _ _ _) as [children st'] eqn:Hrec.
    destruct (Z.ltb_spec 0 (Z.of_nat (length children))) as [Hlen | Hlen];
      eexists _, _; (split; [reflexivity |]); [right | left; reflexivity].
    split; [reflexivity |]. exists (count_file st item). rewrite Hrec. cbn.
    split; [reflexivity |]. intros ->. cbn in Hlen. lia.
  - eexists _, _. split; [reflexivity | left; reflexivity].
Qed.

Lemma fold_entries explore dirPath maxDepth items :
  ∀ acc,
    map node_item (fold_left (explore_entry explore dirPath maxDepth) items acc).1
    = (map node_item acc.1 ++ items)%list
    ∧ map node_path (fold_left (explore_entry explore dirPath maxDepth) items acc).1
      = (map node_path acc.1 ++ map (child_path dirPath) items)%list.
Proof.
  induction items as [|item items IH]; intros acc.
  - cbn. rewrite !app_nil_r. split; reflexivity.
  - cbn [fold_left map].
    destruct (explore_entry_node explore dirPath maxDepth acc item)
      as (children & st & -> & _).
    destruct (IH ((acc.1 ++ [mkNode item (child_path dirPath item) children])%list, st))
      as [-> ->].
    cbn [fst]. rewrite !map_app, <- !app_assoc. split; reflexivity.
Qed.

Lemma fold_nodes (P : Node → Prop) explore dirPath maxDepth :
  (∀ acc item,
     ∃ children st,
       explore_entry explore dirPath maxDepth acc item
       = ((acc.1 ++ [mkNode item (child_path dirPath item) children])%list, st)
       ∧ P (mkNode item (child_path dirPath item) children)) →
  ∀ items acc,
    Forall P acc.1 →
    Forall P (fold_left (explore_entry explore dirPath maxDepth) items acc).1.
Proof.
  intros Hstep. induction items as [|item items IH]; intros acc Hacc; [exact Hacc |].
  cbn [fold_left]. apply IH.
  destruct (Hstep acc item) as (children & st & -> & Hnode).
  cbn [fst]. apply Forall_app. split; [exact Hacc | repeat constructor; exact Hnode].
Qed.

Lemma explore_from_S (calls : nat) dirPath maxDepth st :
  explore_from (S calls) env repo actualBranch dirPath maxDepth st
  = if maxDepth <=? 0 then ([], st)
    else
      match fetchGitHubContent env repo dirPath actualBranch with
      | Returned (JArray dirContents) =>
          fold_left
            (explore_entry (explore_from calls env repo actualBranch)
               dirPath maxDepth)
            dirContents ([], st)
      | _ => ([], st)
      end.
Proof. reflexivity. Qed.

(** At depth one no entry is expanded. *)
Lemma leaves (calls : nat) dirPath maxDepth st :
  maxDepth ≤ 1 →
  Forall (λ n, node_children n = None)
    (explore_from calls env repo actualBranch dirPath maxDepth st).1.
Proof.
  intros Hd. destruct calls as [|calls]; [constructor |].
  rewrite explore_from_S. destruct (maxDepth <=? 0); [constructor |].
  destruct (fetchGitHubContent env repo dirPath actualBranch) as [[contents| |]|];
    try constructor.
  apply fold_nodes; [| constructor].
  intros acc item.
  destruct (explore_entry_node (explore_from calls env repo actualBranch)
              dirPath maxDepth acc item) as (children & st' & Heq & Hch).
  exists children, st'. split; [exact Heq |]. cbn.
  destruct Hch as [-> | (_ & st'' & _ & Hne)]; [reflexivity |].
  exfalso. apply Hne.
  destruct calls as [|calls]; [reflexivity |].
  rewrite explore_from_S.
  destruct (Z.leb_spec (maxDepth - 1) 0); [reflexivity | exfalso; lia].
Qed.

End Tree.

(** X19.  When the remote lists the root of the repository,
    [analyzeRepository] reports one entry for every entry of the listing,
    in the order of the listing, each under its name as path.  When the
    root cannot be listed the analysis is empty: no entry, no file type,
    no suggested path. *)
Theorem analyzeRepository_root (env : Env) (repo branch : string) :
  let r := analyzeRepository env repo branch in
  (∀ contents,
     fetchGitHubContent env repo EmptyString branch = Returned (JArray contents) →
     map node_item (structure r) = contents
     ∧ map node_path (structure r) = map item_name contents)
  ∧ ((∀ contents,
        fetchGitHubContent env repo EmptyString branch ≠ Returned (JArray contents)) →
     structure r = [] ∧ res_fileTypeCounts r = ∅
     ∧ suggested_srcPaths r = [] ∧ suggested_examplePaths r = []
     ∧ suggested_docsPaths r = []).
Proof.
  unfold analyzeRepository, exploreDirectory.
  change (Z.to_nat 2) with 2%nat. rewrite explore_from_S.
  change (2 <=? 0) with false. cbv iota.
  destruct (fetchGitHubContent env repo EmptyString branch) as [[contents| |]|];
    (split; [intros contents' Hc; try discriminate
            | intros Hnot; try (repeat split; reflexivity) ]).
  - injection Hc as <-.
    destruct (fold_entries (explore_from 1 env repo branch) EmptyString 2 contents
                ([], no_analysis)) as [Hitems Hpaths].
    destruct (fold_left _ contents _) as [nodes st]. cbn in *.
    split; [exact Hitems | exact Hpaths].
  - exfalso. exact (Hnot contents eq_refl).
Qed.

Lemma analyzeRepository_root_witness :
  map node_item
    (structure (analyzeRepository (Scenario.with_fetch Scenario.examples_tree)
                  "o/r" "main"))
  = [{| item_name := "examples"; item_type := "dir" |}]
  ∧ map node_path
      (structure (analyzeRepository (Scenario.with_fetch Scenario.examples_tree)
                    "o/r" "main"))
    = map item_name [{| item_name := "examples"; item_type := "dir" |}].
Proof.
  apply (proj1 (analyzeRepository_root (Scenario.with_fetch Scenario.examples_tree)
                  "o/r" "main")).
  reflexivity.
Defined.

(** X20.  [analyzeRepository] expands one level only, and only
    directories whose name marks them: an entry of the reported tree that
    has children is a directory that [shouldExpand] accepts, its children
    are not empty, and none of its children has children. *)
Theorem analyzeRepository_two_levels (env : Env) (repo branch : string)
    (node : Node) (children : list Node) :
  In node (structure (analyzeRepository env repo branch)) →
  node_children node = Some children →
  shouldExpand (node_item node) = true
  ∧ children ≠ []
  ∧ Forall (λ child, node_children child = None) children.
Proof.
  intros Hin Hch.
  assert (Hall :
    Forall (λ n, ∀ cs, node_children n = Some cs →
                       shouldExpand (node_item n) = true ∧ cs ≠ []
                       ∧ Forall (λ child, node_children child = None) cs)
      (explore_from 2 env repo branch EmptyString 2 no_analysis).1).
  { rewrite explore_from_S. change (2 <=? 0) with false. cbv iota.
    destruct (fetchGitHubContent env repo EmptyString branch) as [[contents| |]|];
      try constructor.
    apply fold_nodes; [| constructor].
    intros acc item.
    destruct (explore_entry_node (explore_from 1 env repo branch)
                EmptyString 2 acc item) as (cs & st' & Heq & Hcs).
    exists cs, st'. split; [exact Heq |]. cbn [node_children node_item].
    intros cs' ->.
    destruct Hcs as [Hnone | (Hexp & st'' & Hsome & Hne)]; [discriminate |].
    assert (Hcs' : cs' = (explore_from 1 env repo branch
                            (child_path EmptyString item) (2 - 1) st'').1)
      by congruence.
    rewrite Hcs'. repeat split; try assumption.
    apply leaves. lia. }
  unfold analyzeRepository, exploreDirectory in Hin.
  change (Z.to_nat 2) with 2%nat in Hin.
  destruct (explore_from 2 env repo branch EmptyString 2 no_analysis) as [nodes st].
  cbn [structure fst] in Hin, Hall. rewrite Forall_forall in Hall.
  apply (Hall node); [apply list_elem_of_In, Hin | exact Hch].
Qed.

Lemma analyzeRepository_two_levels_witness :
  shouldExpand {| item_name := "examples"; item_type := "dir" |} = true
  ∧ [mkNode {| item_name := "demo.tsx"; item_type := "file" |}
       "examples/demo.tsx" None] ≠ []
  ∧ Forall (λ child, node_children child = None)
      [mkNode {| item_name := "demo.tsx"; item_type := "file" |}
         "examples/demo.tsx" None].
Proof.
  apply (analyzeRepository_two_levels (Scenario.with_fetch Scenario.examples_tree)
           "o/r" "main"
           (mkNode {| item_name := "examples"; item_type := "dir" |} "examples"
              (Some [mkNode {| item_name := "demo.tsx"; item_type := "file" |}
                       "examples/demo.tsx" None]))).
  - vm_compute. left. reflexivity.
  - reflexivity.
Defined.

End TreeFacts.

(** ** Repository addresses *)

Module AddressFacts.
Import JS Shared RepoManagement Spec CharFacts TextFacts.

Lemma takeWhile_all {A} (p : A → bool) l :
  Forall (λ x, p x = true) l → takeWhile p l = l.
Proof.
  induction 1 as [|x l Hx _ IH]; [reflexivity |].
  cbn [takeWhile]. rewrite Hx, IH. reflexivity.
Qed.

Lemma takeWhile_stops {A} (p : A → bool) a x r :
  Forall (λ x, p x = true) a → p x = false → takeWhile p (a ++ x :: r) = a.
Proof.
  intros Ha Hx. induction Ha as [|y a Hy _ IH]; cbn [app takeWhile].
  - rewrite Hx. reflexivity.
  - rewrite Hy, IH. reflexivity.
Qed.

Lemma takeWhile_holds {A} (p : A → bool) l :
  Forall (λ x, p x = true) (takeWhile p l).
Proof.
  induction l as [|x l IH]; [constructor |].
  cbn [takeWhile]. destruct (p x) eqn:Hx; constructor; assumption.
Qed.

Lemma after_takeWhile {A} (p : A → bool) l x r :
  drop (length (takeWhile p l)) l = x :: r → p x = false.
Proof.
  induction l as [|y l IH]; [discriminate |].
  cbn [takeWhile]. destruct (p y) eqn:Hy.
  - cbn [length drop]. exact IH.
  - cbn [length drop]. intros H. injection H as <- _. exact Hy.
Qed.

Lemma char_of_code c : char_of (code c) = c.
Proof.
  unfold char_of, code. rewrite N2Z.id. apply ascii_N_embedding.
Qed.

Lemma is_slash c : not_slash c = false → c = "/"%char.
Proof.
  unfold not_slash. intros H. apply negb_false_iff, Z.eqb_eq in H.
  rewrite <- (char_of_code c), H. reflexivity.
Qed.

(** What the pattern [[^\/]+\/[^\/]+] matches. *)
Lemma owner_repo_at_shape cs m :
  owner_repo_at cs = Some m →
  ∃ owner name,
    m = (owner ++ "/"%char :: name)%list
    ∧ owner ≠ [] ∧ name ≠ []
    ∧ Forall (λ c, not_slash c = true) owner
    ∧ Forall (λ c, not_slash c = true) name.
Proof.
  unfold owner_repo_at.
  pose proof (takeWhile_holds not_slash cs) as Howner.
  destruct (takeWhile not_slash cs) as [|o owner] eqn:Ho; [discriminate |].
  destruct (drop _ cs) as [|slash rest] eqn:Hdrop; [discriminate |].
  pose proof (takeWhile_holds not_slash rest) as Hname.
  destruct (takeWhile not_slash rest) as [|n name]; [discriminate |].
  intros H. injection H as <-.
  rewrite <- Ho in Hdrop. apply after_takeWhile, is_slash in Hdrop. subst slash.
  exists (o :: owner), (n :: name). repeat split; auto; discriminate.
Qed.

Lemma owner_repo_at_match (owner name : list ascii) :
  owner ≠ [] → name ≠ [] →
  Forall (λ c, not_slash c = true) owner →
  Forall (λ c, not_slash c = true) name →
  owner_repo_at (owner ++ "/"%char :: name)
  = Some (owner ++ "/"%char :: name)%list.
Proof.
  intros Ho Hn Hso Hsn. unfold owner_repo_at.
  rewrite (takeWhile_stops not_slash owner) by (assumption || reflexivity).
  destruct owner as [|o owner]; [contradiction |].
  rewrite drop_app_length, (takeWhile_all _ _ Hsn).
  destruct name; [contradiction | reflexivity].
Qed.

Lemma owner_repo_at_no_slash cs :
  Forall (λ c, not_slash c = true) cs → owner_repo_at cs = None.
Proof.
  intros H. unfold owner_repo_at. rewrite (takeWhile_all _ _ H).
  destruct cs as [|c cs]; [reflexivity |]. rewrite drop_all. reflexivity.
Qed.

Lemma search_github_shape cs m :
  search_github cs = Some m → ∃ tail, owner_repo_at tail = Some m.
Proof.
  induction cs as [|c cs IH]; cbn [search_github].
  - destruct (startsWith _ _); [| discriminate].
    destruct (owner_repo_at _) eqn:Hm; [| discriminate].
    intros H. injection H as <-. eauto.
  - destruct (startsWith _ _).
    + destruct (owner_repo_at _) eqn:Hm; [| exact IH].
      intros H. injection H as <-. eauto.
    + exact IH.
Qed.

Lemma search_github_skip c cs :
  startsWith (of_chars (c :: cs)) "github.com/" = false →
  search_github (c :: cs) = search_github cs.
Proof. intros H. cbn [search_github]. rewrite H. reflexivity. Qed.

Lemma search_github_hit cs m :
  owner_repo_at cs = Some m →
  search_github (chars "github.com/" ++ cs) = Some m.
Proof.
  intros Hm.
  assert (Hstart : startsWith (of_chars (chars "github.com/" ++ cs)) "github.com/"
                   = true).
  { rewrite of_chars_app. apply startsWith_append. }
  assert (Hdrop : drop (length (chars "github.com/")) (chars "github.com/" ++ cs) = cs)
    by apply drop_app_length.
  change (chars "github.com/" ++ cs)%list
    with ("g"%char :: (chars "ithub.com/" ++ cs))%list in *.
  cbn [search_github]. rewrite Hstart, Hdrop, Hm. reflexivity.
Qed.

Lemma starts_has_slash cs :
  startsWith (of_chars cs) "github.com/" = true →
  ¬ Forall (λ c, not_slash c = true) cs.
Proof.
  intros H Hfree. apply startsWith_spec in H as (t & Ht).
  apply (f_equal chars) in Ht. rewrite chars_of_chars, chars_append in Ht.
  rewrite Ht in Hfree. apply Forall_app in Hfree as [Hfree _].
  rewrite Forall_forall in Hfree.
  assert (Hin : "/"%char ∈ chars "github.com/")
    by (apply list_elem_of_In; cbn; tauto).
  specialize (Hfree _ Hin). discriminate Hfree.
Qed.

Lemma search_github_no_slash cs :
  Forall (λ c, not_slash c = true) cs → search_github cs = None.
Proof.
  induction 1 as [|c cs Hc Hcs IH]; [reflexivity |].
  cbn [search_github].
  destruct (startsWith _ _) eqn:Hs; [| exact IH].
  exfalso. apply (starts_has_slash (c :: cs) Hs). constructor; assumption.
Qed.

Lemma first_slash a a' (b b' : list ascii) :
  Forall (λ c, not_slash c = true) a → Forall (λ c, not_slash c = true) a' →
  (a ++ "/"%char :: b = a' ++ "/"%char :: b')%list → a = a' ∧ b = b'.
Proof.
  intros Ha. revert a'. induction Ha as [|c a Hc _ IH]; intros a' Ha' Heq.
  - destruct Ha' as [|c' a' Hc' _]; cbn in Heq.
    + injection Heq as ->. auto.
    + injection Heq as <- _. discriminate.
  - destruct Ha' as [|c' a' Hc' Ha']; cbn in Heq.
    + injection Heq as -> _. discriminate.
    + injection Heq as -> Heq. destruct (IH a' Ha' Heq) as [-> ->]. auto.
Qed.

(** With one slash there is no room for "github.com/" and a slash
    after it. *)
Lemma search_github_one_slash a b :
  Forall (λ c, not_slash c = true) a → Forall (λ c, not_slash c = true) b →
  search_github (a ++ "/"%char :: b) = None.
Proof.
  intros Ha Hb. induction Ha as [|c a Hc Ha IH].
  - cbn [app]. rewrite search_github_skip by reflexivity.
    apply search_github_no_slash, Hb.
  - cbn [app search_github].
    destruct (startsWith _ _) eqn:Hs; [| exact IH].
    apply startsWith_spec in Hs as (t & Ht).
    apply (f_equal chars) in Ht. rewrite chars_of_chars, chars_append in Ht.
    assert (Hb' : b = chars t).
    { apply (first_slash (c :: a) (chars "github.com") b (chars t)).
      - constructor; assumption.
      - repeat constructor.
      - exact Ht. }
    rewrite Ht, drop_app_length, <- Hb', (owner_repo_at_no_slash b Hb).
    exact IH.
Qed.

Lemma chars_repo owner name :
  chars (owner +:+ "/" +:+ name) = (chars owner ++ "/"%char :: chars name)%list.
Proof. rewrite !chars_append. reflexivity. Qed.

Lemma chars_not_nil s : s ≠ EmptyString → chars s ≠ [].
Proof. destruct s; [contradiction | discriminate]. Qed.

Lemma found_short owner name :
  owner ≠ EmptyString → name ≠ EmptyString → slash_free owner → slash_free name →
  search_github (chars (owner +:+ "/" +:+ name)) = None
  ∧ whole_owner_repo (chars (owner +:+ "/" +:+ name))
    = Some (chars (owner +:+ "/" +:+ name)).
Proof.
  intros Ho Hn Hso Hsn. rewrite chars_repo. split.
  - apply search_github_one_slash; assumption.
  - unfold whole_owner_repo.
    rewrite owner_repo_at_match by (auto using chars_not_nil).
    rewrite Nat.eqb_refl. reflexivity.
Qed.

Lemma found_url owner name :
  owner ≠ EmptyString → name ≠ EmptyString → slash_free owner → slash_free name →
  search_github (chars ("https://github.com/" +:+ owner +:+ "/" +:+ name))
  = Some (chars (owner +:+ "/" +:+ name)).
Proof.
  intros Ho Hn Hso Hsn. rewrite chars_append, !chars_repo.
  change (chars "https://github.com/")
    with ("h" :: "t" :: "t" :: "p" :: "s" :: ":" :: "/" :: "/"
          :: chars "github.com/")%char%list.
  cbn [app]. do 8 (rewrite search_github_skip by reflexivity).
  apply search_github_hit, owner_repo_at_match; auto using chars_not_nil.
Qed.

(** Suffixes. *)
Lemma strip_suffix_none suffix s :
  endsWith s suffix = false → strip_suffix suffix s = s.
Proof. intros H. unfold strip_suffix. rewrite H. reflexivity. Qed.

Lemma strip_suffix_some suffix s : strip_suffix suffix (s +:+ suffix) = s.
Proof.
  unfold strip_suffix. rewrite endsWith_suffix, chars_append, length_app.
  replace (length (chars s) + length (chars suffix) - length (chars suffix))%nat
    with (length (chars s)) by lia.
  rewrite take_app_length. apply of_chars_chars.
Qed.

Lemma startsWith_chars x y p :
  Forall (λ c, not_slash c = true) p →
  startsWith (of_chars (x ++ "/"%char :: y)) (of_chars p)
  = startsWith (of_chars x) (of_chars p).
Proof.
  intros Hp. revert x. induction Hp as [|c p Hc _ IH]; intros x.
  - cbn. rewrite !startsWith_nil. reflexivity.
  - destruct x as [|b x].
    + cbn [app of_chars string_of_list_ascii]. rewrite startsWith_cons.
      destruct (Ascii.eqb_spec c "/"%char) as [-> |]; [discriminate | reflexivity].
    + cbn [app of_chars string_of_list_ascii]. rewrite !startsWith_cons.
      destruct (Ascii.eqb c b); [apply IH | reflexivity].
Qed.

Lemma endsWith_after_slash a name suffix :
  slash_free suffix →
  endsWith (a +:+ "/" +:+ name) suffix = endsWith name suffix.
Proof.
  intros Hs. unfold endsWith. rewrite chars_repo, rev_app_distr.
  cbn [rev]. rewrite <- app_assoc. cbn [app].
  apply startsWith_chars. apply Forall_rev. exact Hs.
Qed.

Lemma starts_with_slash c r :
  not_slash c = true →
  startsWith (of_chars (c :: r)) (of_chars (rev (chars "/"))) = false.
Proof.
  intros Hc.
  change (of_chars (rev (chars "/"))) with (String "/"%char EmptyString).
  change (of_chars (c :: r)) with (String c (of_chars r)).
  rewrite startsWith_cons.
  destruct (Ascii.eqb_spec "/"%char c) as [<- |]; [discriminate | reflexivity].
Qed.

Lemma not_ends_with_slash s : slash_free s → endsWith s "/" = false.
Proof.
  unfold slash_free, endsWith. intros Hs. apply Forall_rev in Hs.
  destruct (rev (chars s)) as [|c r]; [reflexivity |].
  inversion Hs as [|? ? Hc _]; subst. apply starts_with_slash, Hc.
Qed.

Lemma ends_base a name :
  name ≠ EmptyString → slash_free name → endsWith name ".git" = false →
  endsWith (a +:+ "/" +:+ name) "/" = false
  ∧ endsWith (a +:+ "/" +:+ name) ".git" = false.
Proof.
  intros Hn Hsn Hgit. split.
  - unfold endsWith. rewrite chars_repo, rev_app_distr. cbn [rev].
    pose proof (chars_not_nil name Hn) as Hne.
    unfold slash_free in Hsn. apply Forall_rev in Hsn.
    destruct (rev (chars name)) as [|c r] eqn:Hr.
    { apply (f_equal (@rev ascii)) in Hr. rewrite rev_involutive in Hr.
      contradiction. }
    cbn [app]. inversion Hsn as [|? ? Hc _]; subst. apply starts_with_slash, Hc.
  - rewrite endsWith_after_slash; [exact Hgit | repeat constructor].
Qed.

Lemma normalize_clean url clean m :
  strip_suffix ".git" (strip_suffix "/" url) = clean →
  match search_github (chars clean) with
  | Some m => Some m
  | None => whole_owner_repo (chars clean)
  end = Some m →
  normalizeGitHubUrl url
  = Returned {| norm_repo := of_chars m;
                norm_github := "https://github.com/" +:+ of_chars m |}.
Proof.
  intros Hclean Hfound. unfold normalizeGitHubUrl. rewrite Hclean, Hfound.
  reflexivity.
Qed.

Lemma normalize_suffixes base m url :
  match search_github (chars base) with
  | Some m => Some m
  | None => whole_owner_repo (chars base)
  end = Some m →
  endsWith base "/" = false → endsWith base ".git" = false →
  In url [base; base +:+ ".git"; base +:+ "/"] →
  normalizeGitHubUrl url
  = Returned {| norm_repo := of_chars m;
                norm_github := "https://github.com/" +:+ of_chars m |}.
Proof.
  intros Hfound Hslash Hgit Hurl.
  apply (normalize_clean url base m); [| exact Hfound].
  destruct Hurl as [<- | [<- | [<- | []]]].
  - rewrite (strip_suffix_none "/" base Hslash).
    apply (strip_suffix_none ".git" base Hgit).
  - rewrite (strip_suffix_none "/"); [apply strip_suffix_some |].
    unfold endsWith. rewrite chars_append, rev_app_distr. reflexivity.
  - rewrite strip_suffix_some. apply strip_suffix_none, Hgit.
Qed.

(** X21.  [normalizeGitHubUrl] accepts a repository written as
    owner/name or as https://github.com/owner/name, with or without a
    final ".git" or a final slash, and gives owner/name with its
    canonical address; owner and name are any non-empty texts without
    slash, the name not ending in ".git". *)
Theorem normalizeGitHubUrl_accepts (owner name url : string) :
  owner ≠ EmptyString → name ≠ EmptyString →
  slash_free owner → slash_free name →
  endsWith name ".git" = false →
  In url
    [owner +:+ "/" +:+ name;
     (owner +:+ "/" +:+ name) +:+ ".git";
     (owner +:+ "/" +:+ name) +:+ "/";
     "https://github.com/" +:+ owner +:+ "/" +:+ name;
     ("https://github.com/" +:+ owner +:+ "/" +:+ name) +:+ ".git";
     ("https://github.com/" +:+ owner +:+ "/" +:+ name) +:+ "/"] →
  normalizeGitHubUrl url
  = Returned {| norm_repo := owner +:+ "/" +:+ name;
                norm_github := "https://github.com/" +:+ owner +:+ "/" +:+ name |}.
Proof.
  intros Ho Hn Hso Hsn Hgit Hurl.
  rewrite <- (of_chars_chars (owner +:+ "/" +:+ name)).
  destruct (found_short owner name Ho Hn Hso Hsn) as [Hnone Hwhole].
  pose proof (found_url owner name Ho Hn Hso Hsn) as Hsearch.
  destruct (ends_base owner name Hn Hsn Hgit) as [Hs1 Hg1].
  destruct (ends_base ("https://github.com/" +:+ owner) name Hn Hsn Hgit)
    as [Hs2 Hg2].
  rewrite append_assoc in Hs2, Hg2.
  destruct Hurl as [Hu | [Hu | [Hu | Hurl]]].
  1-3: apply (normalize_suffixes (owner +:+ "/" +:+ name));
       [rewrite Hnone; exact Hwhole | exact Hs1 | exact Hg1
       | rewrite <- Hu; cbn; tauto].
  apply (normalize_suffixes ("https://github.com/" +:+ owner +:+ "/" +:+ name));
    [rewrite Hsearch; reflexivity | exact Hs2 | exact Hg2 | exact Hurl].
Qed.

Lemma normalizeGitHubUrl_accepts_witness :
  normalizeGitHubUrl "https://github.com/colinhacks/zod.git"
  = Returned {| norm_repo := "colinhacks" +:+ "/" +:+ "zod";
                norm_github := "https://github.com/" +:+ "colinhacks" +:+ "/" +:+ "zod" |}.
Proof.
  apply (normalizeGitHubUrl_accepts "colinhacks" "zod"
           "https://github.com/colinhacks/zod.git");
    try discriminate; try reflexivity.
  - repeat constructor.
  - repeat constructor.
  - cbn. tauto.
Defined.

Lemma slash_free_of_chars cs :
  Forall (λ c, not_slash c = true) cs → slash_free (of_chars cs).
Proof. intros H. unfold slash_free. rewrite chars_of_chars. exact H. Qed.

(** X22.  What [normalizeGitHubUrl] returns always has the form
    owner/name, with a non-empty owner and a non-empty name that have no
    slash, and the address is "https://github.com/" followed by it.  The
    only error is "Invalid GitHub URL format: " followed by the argument,
    and a text without slash is always refused. *)
Theorem normalizeGitHubUrl_result (url : string) :
  (∀ r,
     normalizeGitHubUrl url = Returned r →
     ∃ owner name,
       owner ≠ EmptyString ∧ name ≠ EmptyString
       ∧ slash_free owner ∧ slash_free name
       ∧ norm_repo r = owner +:+ "/" +:+ name
       ∧ norm_github r = "https://github.com/" +:+ norm_repo r)
  ∧ (∀ message,
       normalizeGitHubUrl url = Thrown message →
       message = "Invalid GitHub URL format: " +:+ url)
  ∧ (slash_free url →
     normalizeGitHubUrl url = Thrown ("Invalid GitHub URL format: " +:+ url)).
Proof.
  split; [| split].
  - intros r. unfold normalizeGitHubUrl.
    set (clean := strip_suffix ".git" (strip_suffix "/" url)).
    assert (Hshape : ∀ m,
              match search_github (chars clean) with
              | Some m => Some m
              | None => whole_owner_repo (chars clean)
              end = Some m →
              ∃ tail, owner_repo_at tail = Some m).
    { intros m. destruct (search_github (chars clean)) as [m' |] eqn:Hs.
      - intros H. injection H as <-. exact (search_github_shape _ _ Hs).
      - unfold whole_owner_repo.
        destruct (owner_repo_at (chars clean)) as [m' |] eqn:Hw; [| discriminate].
        destruct (_ =? _)%nat; [| discriminate].
        intros H. injection H as <-. eauto. }
    destruct (match search_github (chars clean) with
              | Some m => Some m
              | None => whole_owner_repo (chars clean)
              end) as [m |]; [| discriminate].
    destruct (Hshape m eq_refl) as (tail & Hm).
    apply owner_repo_at_shape in Hm as (owner & name & -> & Ho & Hn & Hso & Hsn).
    intros H. injection H as <-. cbn [norm_repo norm_github].
    exists (of_chars owner), (of_chars name).
    repeat split; try (apply slash_free_of_chars; assumption).
    + intros H. apply (f_equal chars) in H. rewrite chars_of_chars in H.
      contradiction.
    + intros H. apply (f_equal chars) in H. rewrite chars_of_chars in H.
      contradiction.
    + rewrite of_chars_app. reflexivity.
  - intros message. unfold normalizeGitHubUrl.
    destruct (match search_github _ with Some m => Some m | None => _ end);
      [discriminate |].
    intros H. injection H as <-. reflexivity.
  - intros Hfree. unfold normalizeGitHubUrl.
    rewrite (strip_suffix_none "/" url (not_ends_with_slash url Hfree)).
    assert (Hclean : Forall (λ c, not_slash c = true)
                       (chars (strip_suffix ".git" url))).
    { unfold strip_suffix. destruct (endsWith url ".git"); [| exact Hfree].
      rewrite chars_of_chars. apply Forall_take, Hfree. }
    rewrite (search_github_no_slash _ Hclean). unfold whole_owner_repo.
    rewrite (owner_repo_at_no_slash _ Hclean). reflexivity.
Qed.

Lemma normalizeGitHubUrl_result_witness :
  normalizeGitHubUrl "zod.git" = Thrown ("Invalid GitHub URL format: " +:+ "zod.git").
Proof.
  apply (proj2 (proj2 (normalizeGitHubUrl_result "zod.git"))).
  repeat constructor.
Defined.

End AddressFacts.

(** ** The suggested paths *)

Module SuggestFacts.
Import JS Shared RepoManagement Spec.

Lemma marked_node test item path children :
  marked test (mkNode item path children)
  = (match children with Some cs => marked_all test cs | None => [] end
     ++ (if shouldExpand item && test (toLowerCase (item_name item))
         then [path] else []))%list.
Proof.
  cbn [marked]. f_equal. destruct children as [cs|]; [| reflexivity].
  induction cs as [|c cs IH]; cbn [marked_all]; [reflexivity |].
  rewrite <- IH. reflexivity.
Qed.

Lemma marked_all_snoc test l n :
  marked_all test (l ++ [n]) = (marked_all test l ++ marked test n)%list.
Proof.
  induction l as [|c l IH]; cbn [marked_all app].
  - rewrite app_nil_r. reflexivity.
  - rewrite IH, app_assoc. reflexivity.
Qed.

Section Suggest.
Variable env : Env.
Variables repo actualBranch : string.

(** One of the three lists of suggestions, with the test that feeds it. *)
Variable field : Analysis → list string.
Variable test : string → bool.
Hypothesis field_count_file : ∀ st item, field (count_file st item) = field st.
Hypothesis field_suggest : ∀ st item p,
  field (suggest st item p)
  = (field st ++ (if test (toLowerCase (item_name item)) then [p] else []))%list.

Lemma explore_from_marked (calls : nat) :
  ∀ dirPath maxDepth st,
    field (explore_from calls env repo actualBranch dirPath maxDepth st).2
    = (field st
       ++ marked_all test
            (explore_from calls env repo actualBranch dirPath maxDepth st).1)%list.
Proof.
  induction calls as [|calls IH]; intros dirPath d st; cbn [explore_from].
  - cbn. rewrite app_nil_r. reflexivity.
  - destruct (d <=? 0); [cbn; rewrite app_nil_r; reflexivity |].
    destruct (fetchGitHubContent env repo dirPath actualBranch)
      as [[contents| |]|]; try (cbn; rewrite app_nil_r; reflexivity).
    apply (AnalyzerFacts.fold_explore_entry
             (λ acc, field acc.2 = (field st ++ marked_all test acc.1)%list));
      [| cbn; rewrite app_nil_r; reflexivity].
    intros [result st1] item Hacc. cbn [fst snd] in Hacc.
    unfold explore_entry.
    destruct (shouldExpand item) eqn:Hexp.
    + specialize (IH (child_path dirPath item) (d - 1) (count_file st1 item)).
      destruct (explore_from calls env repo actualBranch
                  (child_path dirPath item) (d - 1) (count_file st1 item))
        as [children st2].
      cbn [fst snd] in *.
      rewrite field_suggest, IH, field_count_file, Hacc, marked_all_snoc,
        marked_node, Hexp.
      cbn [andb]. rewrite <- !app_assoc. do 2 f_equal.
      destruct children; reflexivity.
    + cbn [fst snd].
      rewrite field_count_file, Hacc, marked_all_snoc, marked_node, Hexp.
      cbn. rewrite app_nil_r. reflexivity.
Qed.

End Suggest.

Lemma count_file_paths st item :
  an_srcPaths (count_file st item) = an_srcPaths st
  ∧ an_examplePaths (count_file st item) = an_examplePaths st
  ∧ an_docsPaths (count_file st item) = an_docsPaths st.
Proof. unfold count_file. destruct (String.eqb _ _); repeat split. Qed.

Lemma suggest_paths st item p :
  an_srcPaths (suggest st item p)
  = (an_srcPaths st
     ++ (if includes (toLowerCase (item_name item)) "src" then [p] else []))%list
  ∧ an_examplePaths (suggest st item p)
    = (an_examplePaths st
       ++ (if includes (toLowerCase (item_name item)) "example"
              || includes (toLowerCase (item_name item)) "demo"
           then [p] else []))%list
  ∧ an_docsPaths (suggest st item p)
    = (an_docsPaths st
       ++ (if includes (toLowerCase (item_name item)) "docs" then [p] else []))%list.
Proof.
  unfold suggest. cbn [an_srcPaths an_examplePaths an_docsPaths].
  repeat split.
  - destruct (includes _ "src"); [| rewrite app_nil_r]; reflexivity.
  - destruct (_ || _); [| rewrite app_nil_r]; reflexivity.
  - destruct (includes _ "docs"); [| rewrite app_nil_r]; reflexivity.
Qed.

(** X23.  The paths [analyzeRepository] suggests are those of the
    expanded directories of the reported tree, the directories inside a
    directory before the directory itself: as source paths the directories
    whose lower-cased name contains "src", as example paths those whose
    name contains "example" or "demo", as documentation paths those whose
    name contains "docs". *)
Theorem analyzeRepository_suggestions (env : Env) (repo branch : string) :
  let r := analyzeRepository env repo branch in
  suggested_srcPaths r = marked_all (λ n, includes n "src") (structure r)
  ∧ suggested_examplePaths r
    = marked_all (λ n, includes n "example" || includes n "demo") (structure r)
  ∧ suggested_docsPaths r = marked_all (λ n, includes n "docs") (structure r).
Proof.
  unfold analyzeRepository, exploreDirectory.
  pose proof (explore_from_marked env repo branch an_srcPaths
                (λ n, includes n "src")
                (λ st item, proj1 (count_file_paths st item))
                (λ st item p, proj1 (suggest_paths st item p))
                (Z.to_nat 2) EmptyString 2 no_analysis) as Hsrc.
  pose proof (explore_from_marked env repo branch an_examplePaths
                (λ n, includes n "example" || includes n "demo")
                (λ st item, proj1 (proj2 (count_file_paths st item)))
                (λ st item p, proj1 (proj2 (suggest_paths st item p)))
                (Z.to_nat 2) EmptyString 2 no_analysis) as Hex.
  pose proof (explore_from_marked env repo branch an_docsPaths
                (λ n, includes n "docs")
                (λ st item, proj2 (proj2 (count_file_paths st item)))
                (λ st item p, proj2 (proj2 (suggest_paths st item p)))
                (Z.to_nat 2) EmptyString 2 no_analysis) as Hdocs.
  destruct (explore_from (Z.to_nat 2) env repo branch EmptyString 2 no_analysis)
    as [nodes st].
  cbn [fst snd no_analysis an_srcPaths an_examplePaths an_docsPaths app] in *.
  cbn [structure suggested_srcPaths suggested_examplePaths suggested_docsPaths].
  auto.
Qed.

End SuggestFacts.
